(** * r2r-backend: the routing proxy, its administration scripts and its
      schema migration, embedded in Rocq

    Part I holds the definitions, in the layout of the repository:

    - [Py]        : the fragment of Python the sources rely on (exceptions,
                    list indexing, [range], truthiness, JSON values);
    - [Models]    : [models.py], the response types;
    - [Services]  : [services.py] (haversine, cumulative distances, elevation
                    profile, detail-segment merge, [execute_route_request]);
    - [Routes]    : [routers/routes.py] (the [/route] handler);
    - [Db]        : the rows of [db/models.py] that the scripts touch;
    - [AddPriorConfig], [AddCustomProfile], [TransferPriors] : the
                    scripts;
    - [Migration] : the Alembic revision 246677e8a89f;
    - [RealArith] : exact real arithmetic as an instance of the float
                    interface;
    - [Binary64]  : binary64 arithmetic as an instance of the float
                    interface;
    - [Examples]  : concrete inputs.

    Part II holds the properties of these definitions, module by module,
    Part III the statements about the specification ([Claims]), and Part IV
    further properties of the code ([FurtherServices], [FurtherRequest],
    [FurtherScripts], [FurtherMigration]).

    Python's [float] is kept abstract ([FloatOps]): the sources only move
    floats around, add them and hand them to [math].  Two arithmetics
    instantiate it: exact reals ([RealArith]) and IEEE 754 binary64
    ([Binary64]), the format of Python's [float]. *)

From Stdlib Require Import ZArith String Ascii List Reals Lra Lia.
From Stdlib Require QArith.
From Stdlib Require Floats.
From stdpp Require Import base option list sorting gmap strings pretty fin_maps.

Set Warnings "-register-all".

Local Open Scope string_scope.
Local Open Scope list_scope.
Local Open Scope Z_scope.

(* ================================================================== *)
(** * Part I: definitions                                              *)
(* ================================================================== *)

(** ** Floats *)

(** The operations of Python's [float] and of the [math] module that the
    sources use.  [of_Z] is the int-to-float conversion that Python inserts
    when an [int] meets a [float]; [fleb x y] is [x <= y].  [math.sqrt],
    [math.sin] and [math.cos] raise [ValueError] outside their domain (the
    root of a negative number, the sine or cosine of an infinity): [fsqrt],
    [fsin] and [fcos] are [None] there.  [math.atan2] raises for no pair of
    floats.  The sources divide by the constants 2 and 180 only, so the
    [ZeroDivisionError] of [/] is left out. *)
Class FloatOps (F : Type) : Type := {
  of_Z : Z → F;
  fadd : F → F → F;
  fsub : F → F → F;
  fmul : F → F → F;
  fdiv : F → F → F;
  fsqrt : F → option F;
  fsin : F → option F;
  fcos : F → option F;
  fatan2 : F → F → F;
  fpi : F;
  fleb : F → F → bool;
}.

Declare Scope pyfloat_scope.
Delimit Scope pyfloat_scope with fl.
Infix "+" := fadd : pyfloat_scope.
Infix "-" := fsub : pyfloat_scope.
Infix "*" := fmul : pyfloat_scope.
Infix "/" := fdiv : pyfloat_scope.

(** The literal [0.0]. *)
Definition f0 {F} `{FloatOps F} : F := of_Z 0.

Definition fle {F} `{FloatOps F} (x y : F) : Prop := fleb x y = true.

(** [x ** 2] on a float. *)
Definition fsquare {F} `{FloatOps F} (x : F) : F := (x * x)%fl.

(** [math.radians]: multiplication by pi / 180. *)
Definition radians {F} `{FloatOps F} (x : F) : F := (x * (fpi / of_Z 180))%fl.

(** A list is non-decreasing when each entry is at most its successor. *)
Definition non_decreasing {F} `{FloatOps F} (l : list F) : Prop :=
  ∀ (i : nat) x y, l !! i = Some x → l !! S i = Some y → fle x y.

(** ** The Python fragment *)

Module Py.

(** Exceptions, by class.  [RequestException] stands for
    [requests.exceptions.RequestException] and its subclasses (connection
    errors, timeouts); the others derive from [Exception] directly.  The
    text of an exception is the argument of its constructor; where Python
    composes it from run-time values, a representative text is given. *)
Inductive exn : Type :=
| RequestException (msg : string)
| IndexError (msg : string)
| KeyError (key : string)
| TypeError (msg : string)
| AttributeError (msg : string)
| ValueError (msg : string)
| ValidationError (msg : string)
| IntegrityError (msg : string)
| FileNotFoundError (msg : string)
| FileExistsError (msg : string)
| YAMLError (msg : string)
| DataError (msg : string).

(** [str(e)]. *)
Definition exn_str (e : exn) : string :=
  match e with
  | RequestException m | IndexError m | TypeError m | AttributeError m
  | ValueError m | ValidationError m | IntegrityError m
  | FileNotFoundError m | FileExistsError m | YAMLError m | DataError m => m
  | KeyError k => "'" +:+ k +:+ "'"
  end.

(** [isinstance(e, requests.exceptions.RequestException)]. *)
Definition is_request_exception (e : exn) : bool :=
  match e with RequestException _ => true | _ => false end.

(** A computation returns a value or raises an exception. *)
Inductive result (A : Type) : Type :=
| Ok (a : A)
| Raise (e : exn).
Arguments Ok {A} a.
Arguments Raise {A} e.

#[global] Instance result_ret : MRet result := @Ok.
#[global] Instance result_bind : MBind result := λ A B f m,
  match m with Ok a => f a | Raise e => Raise e end.
#[global] Instance result_fmap : FMap result := λ A B f m,
  match m with Ok a => Ok (f a) | Raise e => Raise e end.

(** [for x in xs: s = body(s, x)], stopping at the first exception. *)
Fixpoint for_loop {S A} (xs : list A) (body : S → A → result S) (s : S)
  : result S :=
  match xs with
  | [] => Ok s
  | x :: xs' => s' ← body s x; for_loop xs' body s'
  end.

(** [[f(x) for x in xs]]. *)
Fixpoint comprehension {A B} (f : A → result B) (xs : list A)
  : result (list B) :=
  match xs with
  | [] => Ok []
  | x :: xs' => y ← f x; ys ← comprehension f xs'; Ok (y :: ys)
  end.

(** [range(a, b)]. *)
Definition range (a b : Z) : list Z := seqZ a (b - a).

(** [len(l)]. *)
Definition len {A} (l : list A) : Z := Z.of_nat (length l).

(** [l[i]] on a list: negative indices count from the end, anything out of
    range raises [IndexError]. *)
Definition getitem {A} (l : list A) (i : Z) : result A :=
  let j := if i <? 0 then i + len l else i in
  if j <? 0 then Raise (IndexError "list index out of range")
  else match l !! Z.to_nat j with
       | Some x => Ok x
       | None => Raise (IndexError "list index out of range")
       end.

(** [enumerate(l)]. *)
Definition enumerate {A} (l : list A) : list (Z * A) :=
  zip (seqZ 0 (len l)) l.

(** JSON documents as [json.loads] and [yaml.safe_load] return them: [None],
    [bool], [int], [float], [str], [list] and [dict] (insertion-ordered, keys
    distinct strings).  A string holds the UTF-8 encoding of its text. *)
Inductive json (F : Type) : Type :=
| JNull
| JBool (b : bool)
| JInt (z : Z)
| JFloat (x : F)
| JStr (s : string)
| JArr (l : list (json F))
| JObj (m : list (string * json F)).
Arguments JNull {F}.
Arguments JBool {F} b.
Arguments JInt {F} z.
Arguments JFloat {F} x.
Arguments JStr {F} s.
Arguments JArr {F} l.
Arguments JObj {F} m.

Section Json.
Context {F : Type} `{FloatOps F}.

(** [d.get(k)] / [d[k]] on the items of a dict. *)
Fixpoint assoc {A} (k : string) (m : list (string * A)) : option A :=
  match m with
  | [] => None
  | (k', v) :: m' => if String.eqb k k' then Some v else assoc k m'
  end.

(** [bool(v)]. *)
Definition truthy (v : json F) : bool :=
  match v with
  | JNull => false
  | JBool b => b
  | JInt z => negb (z =? 0)
  | JFloat x => negb (fleb x f0 && fleb f0 x)
  | JStr s => negb (String.eqb s "")
  | JArr l => match l with [] => false | _ => true end
  | JObj m => match m with [] => false | _ => true end
  end.

(** [v.get(k, default)]: only a dict has [get]. *)
Definition dict_get (v : json F) (k : string) (dflt : json F)
  : result (json F) :=
  match v with
  | JObj m => Ok (default dflt (assoc k m))
  | _ => Raise (AttributeError "object has no attribute 'get'")
  end.

(** [type(v).__name__]. *)
Definition type_name (v : json F) : string :=
  match v with
  | JNull => "NoneType"
  | JBool _ => "bool"
  | JInt _ => "int"
  | JFloat _ => "float"
  | JStr _ => "str"
  | JArr _ => "list"
  | JObj _ => "dict"
  end.

(** [list(v.keys())]: only a dict has [keys]. *)
Definition dict_keys (v : json F) : result (list string) :=
  match v with
  | JObj m => Ok m.*1
  | _ => Raise (AttributeError ("'" +:+ type_name v
                                +:+ "' object has no attribute 'keys'"))
  end.

(** [v[k]] with a string key. *)
Definition dict_getitem (v : json F) (k : string) : result (json F) :=
  match v with
  | JObj m => match assoc k m with
              | Some x => Ok x
              | None => Raise (KeyError k)
              end
  | _ => Raise (TypeError "indices must be integers")
  end.
End Json.


(** [d[k] = v] on the items of a dict: the value of an existing key is
    replaced where the key stands, a new key goes to the end. *)
Fixpoint dict_set {A} (k : string) (v : A) (m : list (string * A))
  : list (string * A) :=
  match m with
  | [] => [(k, v)]
  | (k', v') :: m' =>
      if String.eqb k k' then (k', v) :: m' else (k', v') :: dict_set k v m'
  end.

(** [{k: f(k) for k in keys}]. *)
Definition dict_comprehension {A} (f : string → A) (keys : list string)
  : list (string * A) :=
  foldl (λ d k, dict_set k (f k) d) [] keys.
End Py.
Import Py.

(** ** models.py: the response types *)

Module Models.

Record ElevationPoint (F : Type) : Type := {
  distance : F;
  elevation : F;
  coordinate_index : Z;
}.
Arguments distance {F} _.
Arguments elevation {F} _.
Arguments coordinate_index {F} _.

Record RouteSegment (F : Type) : Type := {
  start_index : Z;
  end_index : Z;
  start_distance : F;
  end_distance : F;
  attributes : list (string * json F);
}.
Arguments start_index {F} _.
Arguments end_index {F} _.
Arguments start_distance {F} _.
Arguments end_distance {F} _.
Arguments attributes {F} _.

Record RouteMetrics (F : Type) : Type := {
  distance_meters : F;
  time_ms : Z;
}.
Arguments distance_meters {F} _.
Arguments time_ms {F} _.

Record RouteGeometry (F : Type) : Type := {
  coordinates : list (list F);
  elevation_profile : option (list (ElevationPoint F));
  coordinate_distances : option (list F);
}.
Arguments coordinates {F} _.
Arguments elevation_profile {F} _.
Arguments coordinate_distances {F} _.

Record RouteResponse (F : Type) : Type := {
  geometry : RouteGeometry F;
  metrics : RouteMetrics F;
  profile : string;
  segments : option (list (RouteSegment F));
  success : bool;
  error : option string;
}.
Arguments geometry {F} _.
Arguments metrics {F} _.
Arguments profile {F} _.
Arguments segments {F} _.
Arguments success {F} _.
Arguments error {F} _.


(** The helper properties of [RouteSegment]: each of them is
    [self.attributes.get(name)] for its name. *)
Definition attribute {F} (name : string) (segment : RouteSegment F)
  : option (json F) :=
  assoc name (attributes segment).

Definition surface {F} : RouteSegment F → option (json F) :=
  attribute "surface".
Definition smoothness {F} : RouteSegment F → option (json F) :=
  attribute "smoothness".
Definition track_type {F} : RouteSegment F → option (json F) :=
  attribute "track_type".
Definition average_slope {F} : RouteSegment F → option (json F) :=
  attribute "average_slope".
Definition max_speed {F} : RouteSegment F → option (json F) :=
  attribute "max_speed".
Definition road_class {F} : RouteSegment F → option (json F) :=
  attribute "road_class".

End Models.
Import Models.

(** ** services.py *)

Module Services.

Section Distances.
Context {F : Type} `{FloatOps F}.

(** A coordinate is the list [[lon, lat]] or [[lon, lat, elevation]]:
    a [list F]. *)

(** A call into [math]: the value, or [ValueError]. *)
Definition math (y : option F) : result F :=
  match y with
  | Some y => Ok y
  | None => Raise (ValueError "math domain error")
  end.

(** [haversine_distance(lat1, lon1, lat2, lon2)]. *)
Definition haversine_distance (lat1 lon1 lat2 lon2 : F) : result F :=
  let R := of_Z 6371000 in
  let lat1_rad := radians lat1 in
  let lat2_rad := radians lat2 in
  let delta_lat := radians (lat2 - lat1)%fl in
  let delta_lon := radians (lon2 - lon1)%fl in
  sin_lat ← math (fsin (delta_lat / of_Z 2)%fl);
  cos_lat1 ← math (fcos lat1_rad);
  cos_lat2 ← math (fcos lat2_rad);
  sin_lon ← math (fsin (delta_lon / of_Z 2)%fl);
  let a := (fsquare sin_lat + cos_lat1 * cos_lat2 * fsquare sin_lon)%fl in
  root_a ← math (fsqrt a);
  root_1a ← math (fsqrt (of_Z 1 - a)%fl);
  let c := (of_Z 2 * fatan2 root_a root_1a)%fl in
  Ok (R * c)%fl.

(** The body of the loop of [calculate_cumulative_distances], at index [i]
    with the list [distances] built so far. *)
Definition cumulative_body (coordinates : list (list F))
  : list F → Z → result (list F) :=
  λ distances i,
    prev ← getitem coordinates (i - 1);
    lat1 ← getitem prev 1;
    lon1 ← getitem prev 0;
    cur ← getitem coordinates i;
    lat2 ← getitem cur 1;
    lon2 ← getitem cur 0;
    dist ← haversine_distance lat1 lon1 lat2 lon2;
    last_distance ← getitem distances (-1);
    Ok (distances ++ [(last_distance + dist)%fl]).

(** [calculate_cumulative_distances(coordinates)]. *)
Definition calculate_cumulative_distances (coordinates : list (list F))
  : result (list F) :=
  let distances := [f0] in
  for_loop (range 1 (len coordinates)) (cumulative_body coordinates)
           distances.

(** *** What the cumulative distances are compared with *)

Definition lon_of (c : list F) : F := default f0 (c !! 0%nat).
Definition lat_of (c : list F) : F := default f0 (c !! 1%nat).

(** The haversine distance between two coordinates. *)
Definition leg (p q : list F) : result F :=
  haversine_distance (lat_of p) (lon_of p) (lat_of q) (lon_of q).

(** The pairs of consecutive coordinates. *)
Definition consecutive {A} (l : list A) : list (A * A) := zip l (tail l).

(** The sum, from [0.0] and from left to right, of the haversine distances
    of the consecutive pairs; it is there when each of them is. *)
Definition haversine_sum (coordinates : list (list F)) : result F :=
  for_loop (consecutive coordinates)
           (λ acc pq, d ← leg pq.1 pq.2; Ok (acc + d)%fl) f0.

Definition well_formed (coordinates : list (list F)) : Prop :=
  Forall (λ c : list F, (2 ≤ length c)%nat) coordinates.

(** Each entry is its predecessor plus the haversine distance of the two
    coordinates at their indices. *)
Definition increments (coordinates : list (list F)) (ds : list F) : Prop :=
  ∀ (i : nat) p q x y,
    coordinates !! i = Some p → coordinates !! S i = Some q →
    ds !! i = Some x → ds !! S i = Some y →
    ∃ d, leg p q = Ok d ∧ y = (x + d)%fl.

End Distances.

Section Values.
Context {F : Type} `{FloatOps F}.

(** The document of the engine reaches the functions below as [json.loads]
    returned it.  Where they index a value, measure it or iterate over it,
    Python's rule for the type at hand applies. *)

(** [v[i]] on a JSON value, for an integer [i]: an item of a list, a
    character of a string; a dict has no integer key, and nothing else is
    subscriptable. *)
Definition json_getitem (v : json F) (i : Z) : result (json F) :=
  match v with
  | JArr l => getitem l i
  | JStr s =>
      match getitem (list_ascii_of_string s) i with
      | Ok c => Ok (JStr (String c EmptyString))
      | Raise _ => Raise (IndexError "string index out of range")
      end
  | JObj _ => Raise (KeyError (pretty i))
  | _ => Raise (TypeError "object is not subscriptable")
  end.

(** [len(v)]. *)
Definition json_len (v : json F) : result Z :=
  match v with
  | JArr l => Ok (len l)
  | JStr s => Ok (len (list_ascii_of_string s))
  | JObj m => Ok (len m)
  | _ => Raise (TypeError "object has no len()")
  end.

(** [for x in v]: the items of a list, the characters of a string, the keys
    of a dict; nothing else is iterable. *)
Definition iterate (v : json F) : result (list (json F)) :=
  match v with
  | JArr l => Ok l
  | JStr s =>
      Ok ((λ c, JStr (String c EmptyString)) <$> list_ascii_of_string s)
  | JObj m => Ok (JStr <$> m.*1)
  | _ => Raise (TypeError "object is not iterable")
  end.

(** pydantic, for the fields that are filled from engine data: a number for
    a [float] field, an integer for an [int] field, a string or [None] for an
    [Optional[str]] field.  A value of another type is a validation fault
    (the coercions that pydantic applies to booleans and numeric strings are
    not modelled: the engine is taken to send numbers as JSON numbers). *)
Definition as_float (v : json F) : result F :=
  match v with
  | JInt z => Ok (of_Z z)
  | JFloat x => Ok x
  | _ => Raise (ValidationError "Input should be a valid number")
  end.

Definition as_int (v : json F) : result Z :=
  match v with
  | JInt z => Ok z
  | _ => Raise (ValidationError "Input should be a valid integer")
  end.

Definition as_optional_str (v : json F) : result (option string) :=
  match v with
  | JNull => Ok None
  | JStr s => Ok (Some s)
  | _ => Raise (ValidationError "Input should be a valid string")
  end.

(** What [math.radians] and the subtractions of [haversine_distance] take: a
    number, and a [bool] is one.  An [int] is made a float where it is read;
    Python subtracts two [int]s as integers first, which gives the same
    float for the integers that a float holds exactly. *)
Definition as_real (v : json F) : result F :=
  match v with
  | JInt z => Ok (of_Z z)
  | JFloat x => Ok x
  | JBool b => Ok (of_Z (if b then 1 else 0))
  | _ => Raise (TypeError "must be real number")
  end.
End Values.

Section Elevation.
Context {F : Type} `{FloatOps F}.

(** [ElevationPoint(distance=..., elevation=..., coordinate_index=...)]: the
    distance is one of the floats that were computed and the index comes
    from [enumerate]; the elevation is a value of the engine, which pydantic
    validates as a float. *)
Definition elevation_point (distance : F) (elevation : json F)
    (coordinate_index : Z) : result (ElevationPoint F) :=
  elevation ← as_float elevation;
  Ok {| distance := distance;
        elevation := elevation;
        coordinate_index := coordinate_index |}.

(** [create_elevation_profile_from_coordinates(coordinates,
    coordinate_distances)], on the coordinates as the engine sent them. *)
Definition create_elevation_profile_from_coordinates
    (coordinates : json F) (coordinate_distances : list F)
  : result (list (ElevationPoint F)) :=
  n ← json_len coordinates;
  if n <? 2 then Ok []
  else
    let elevation_points := [] in
    items ← iterate coordinates;
    for_loop (enumerate items) (λ elevation_points ic,
      let '(i, coord) := ic in
      lon ← json_getitem coord 0;
      lat ← json_getitem coord 1;
      n ← json_len coord;
      elevation ← (if 2 <? n then json_getitem coord 2 else Ok (JFloat f0));
      distance ← getitem coordinate_distances i;
      point ← elevation_point distance elevation i;
      Ok (elevation_points ++ [point])) elevation_points.

(** *** What the elevation profile is compared with *)



End Elevation.

Section Merge.
Context {F : Type} `{FloatOps F}.

(** [max(0, min(x, n_coords - 1))]. *)
Definition clamp (n_coords x : Z) : Z := Z.max 0 (Z.min x (n_coords - 1)).

(** The values that are reported as ["unknown"]:
    [(None, "", "missing", "null", "undefined")]. *)
Definition is_missing (v : json F) : bool :=
  match v with
  | JNull => true
  | JStr s => bool_decide (s ∈ [""; "missing"; "null"; "undefined"])
  | _ => false
  end.

(** The inner helper [value_for_segment(detail_list, s, e)]; [n_coords] is
    the variable it captures. *)
Fixpoint value_for_segment (n_coords : Z)
    (detail_list : list (Z * Z * json F)) (s e : Z) : json F :=
  match detail_list with
  | [] => JStr "unknown"
  | (a, b, v) :: rest =>
      let a := clamp n_coords a in
      let b := clamp n_coords b in
      if (a <=? s) && (e <=? b)
      then (if is_missing v then JStr "unknown" else v)
      else value_for_segment n_coords rest s e
  end.

(** Step 1: the cut points. *)
Definition collect_cuts (n_coords : Z)
    (details_data : list (string * list (Z * Z * json F))) : gset Z :=
  foldl (λ cuts item,
           foldl (λ cuts d,
                    let '(a, b, _) := d in
                    let a := clamp n_coords a in
                    let b := clamp n_coords b in
                    {[b]} ∪ ({[a]} ∪ cuts))
                 cuts item.2)
        {[0; n_coords - 1]} details_data.

(** [sorted(cuts)]. *)
Definition sorted (cuts : gset Z) : list Z := merge_sort Z.le (elements cuts).

(** Step 2: the atomic ranges between consecutive cuts. *)
Definition raw_segments (sorted_cuts : list Z) : list (Z * Z) :=
  filter (λ se, se.1 < se.2) (zip sorted_cuts (tail sorted_cuts)).

(** [merge_detail_segments(coordinates, details_data,
    coordinate_distances)].  [details_data] is [None] for a null document;
    a detail list that is falsy is the empty list. *)
Definition merge_detail_segments (coordinates : list (list F))
    (details_data : option (list (string * list (Z * Z * json F))))
    (coordinate_distances : list F)
  : result (list (RouteSegment F)) :=
  let n_coords := len coordinates in
  if n_coords <? 2 then Ok []
  else
    let details := default [] details_data in
    let cuts := collect_cuts n_coords details in
    let sorted_cuts := sorted cuts in
    if len sorted_cuts <? 2 then Ok []
    else
      let raw_segments := raw_segments sorted_cuts in
      match raw_segments with
      | [] => Ok []
      | _ =>
          for_loop raw_segments (λ segments se,
            let '(s, e) := se in
            let start_idx := s in
            let end_idx := e in
            let attrs :=
              (λ item : string * list (Z * Z * json F),
                 (item.1, value_for_segment n_coords item.2 s e))
                <$> details in
            start_distance ← getitem coordinate_distances start_idx;
            end_distance ← getitem coordinate_distances end_idx;
            Ok (segments ++
                [{| start_index := start_idx;
                    end_index := end_idx;
                    start_distance := start_distance;
                    end_distance := end_distance;
                    attributes := attrs |}])) []
      end.

(** *** What the merge is compared with *)

(** The clamped interval of the triple [(a, b, _)] covers the range
    [[s, e)]. *)
Definition covers (n_coords a b s e : Z) : Prop :=
  clamp n_coords a ≤ s ∧ e ≤ clamp n_coords b.

(** The values that stand for a missing one: [None], the empty string,
    ["missing"], ["null"] and ["undefined"]. *)
Definition missing_values : list (json F) :=
  [JNull; JStr ""; JStr "missing"; JStr "null"; JStr "undefined"].

(** The cut points of a route of [n] coordinates: both ends are cuts and
    every cut is an index of the route. *)
Definition cuts_ok (n : Z) (cuts : gset Z) : Prop :=
  0 ∈ cuts ∧ n - 1 ∈ cuts ∧ ∀ x, x ∈ cuts → 0 ≤ x ≤ n - 1.

(** The segment that the merge builds for the atomic range [(s, e)]. *)
Definition segment_of (n_coords : Z)
    (details : list (string * list (Z * Z * json F)))
    (coordinate_distances : list F) (se : Z * Z) : RouteSegment F :=
  {| start_index := se.1;
     end_index := se.2;
     start_distance := default f0 (coordinate_distances !! Z.to_nat se.1);
     end_distance := default f0 (coordinate_distances !! Z.to_nat se.2);
     attributes :=
       (λ item : string * list (Z * Z * json F),
          (item.1, value_for_segment n_coords item.2 se.1 se.2))
         <$> details |}.
End Merge.

Section Request.
Context {F : Type} `{FloatOps F}.

(** The part of [GraphHopperConfig] (package [r2r_bo]) that this repository
    reads. *)
Record GraphHopperConfig : Type := {
  base_url : string;
  timeout : F;
  default_profile : string;
}.

(** What [requests.post] hands back: the status code, the content-type
    header, and the outcome of [response.json()]. *)
Record Response : Type := {
  status_code : Z;
  content_type : option string;
  json_body : result (json F);
}.

(** The routing engine as seen through [requests.post(url, data, headers,
    timeout)]: it answers, or the call raises. *)
Definition Engine : Type :=
  string → list (string * json F) → F → result Response.

(** [s.rstrip('/')]. *)
Fixpoint rstrip_slash (s : string) : string :=
  match s with
  | EmptyString => EmptyString
  | String c s' =>
      match rstrip_slash s' with
      | EmptyString =>
          if Ascii.eqb c "/"%char then EmptyString else String c EmptyString
      | r => String c r
      end
  end.

(** The failure response that every error path builds. *)
Definition failure_response (profile : string) (error : option string)
  : RouteResponse F :=
  {| geometry := {| coordinates := [];
                    elevation_profile := None;
                    coordinate_distances := None |};
     metrics := {| distance_meters := of_Z 0; time_ms := 0 |};
     profile := profile;
     segments := None;
     success := false;
     error := error |}.

(** Truthiness of the optional arguments. *)
Definition details_given (details : option (list string)) : bool :=
  match details with Some (_ :: _) => true | _ => false end.

Definition custom_model_given (custom_model : option (json F)) : bool :=
  match custom_model with Some m => truthy m | None => false end.

(** The payload of the outbound request. *)
Definition build_payload (start end_ : F * F) (profile : string)
    (custom_model : option (json F)) (include_elevation : bool)
    (details : option (list string)) : list (string * json F) :=
  let payload :=
    [("points", JArr [JArr [JFloat start.2; JFloat start.1];
                      JArr [JFloat end_.2; JFloat end_.1]]);
     ("profile", JStr profile);
     ("points_encoded", JBool false);
     ("elevation", JBool include_elevation);
     ("instructions", JBool false);
     ("calc_points", JBool true)] in
  let payload :=
    if details_given details
    then payload ++ [("details", JArr (JStr <$> default [] details))]
    else payload in
  let payload :=
    if custom_model_given custom_model
    then payload ++ [("ch.disable", JBool true);
                     ("custom_model", default JNull custom_model)]
    else payload in
  payload.

(** [v[0]] on a JSON value. *)
Definition index0 (v : json F) : result (json F) :=
  match v with
  | JArr l => getitem l 0
  | JStr (String c _) => Ok (JStr (String c EmptyString))
  | JStr EmptyString => Raise (IndexError "string index out of range")
  | JObj _ => Raise (KeyError "0")
  | _ => Raise (TypeError "object is not subscriptable")
  end.

(** The coordinates of [paths[0]]: a GeoJSON [LineString] or a bare array. *)
Definition points_coordinates (points_data : json F) : result (json F) :=
  match points_data with
  | JObj m =>
      match assoc "type" m with
      | Some (JStr "LineString") => dict_get points_data "coordinates" (JArr [])
      | _ => Ok (JArr [])
      end
  | JArr _ => Ok points_data
  | _ => Ok (JArr [])
  end.

(** One triple [[start, end, value]] of a detail list.  The engine is taken
    to send the two indices as JSON integers, as [merge_detail_segments]
    declares them. *)
Definition decode_detail (v : json F) : result (Z * Z * json F) :=
  match v with
  | JArr [JInt a; JInt b; value] => Ok (a, b, value)
  | JArr [_; _; _] => Raise (TypeError "detail index is not an integer")
  | JArr _ => Raise (ValueError "not enough or too many values to unpack")
  | _ => Raise (TypeError "cannot unpack non-iterable object")
  end.

(** [path["details"]]: a falsy document stands for no details ([None]), a
    falsy detail list for the empty list. *)
Definition decode_details (v : json F)
  : result (option (list (string * list (Z * Z * json F)))) :=
  if negb (truthy v) then Ok None
  else match v with
       | JObj m =>
           Some <$> comprehension (λ item : string * json F,
             if negb (truthy item.2) then Ok (item.1, [])
             else match item.2 with
                  | JArr l => dl ← comprehension decode_detail l;
                              Ok (item.1, dl)
                  | _ => Raise (TypeError "detail list is not a list")
                  end) m
       | _ => Raise (AttributeError "object has no attribute 'values'")
       end.

(** Line 252: the comprehension
    [[[coord[0], coord[1]] for coord in coordinates]]. *)
Definition frontend (coordinates : json F) : result (list (list (json F))) :=
  items ← iterate coordinates;
  comprehension (λ coord,
    c0 ← json_getitem coord 0; c1 ← json_getitem coord 1; Ok [c0; c1]) items.

(** Line 255: [calculate_cumulative_distances(frontend_coordinates)] on the
    values of the engine.  With fewer than two coordinates the loop does not
    run and the result is [[0.0]]; from two coordinates on the function
    hands every longitude and latitude to [haversine_distance], which takes
    numbers. *)
Definition cumulative_distances_of
    (frontend_coordinates : list (list (json F))) : result (list F) :=
  if len frontend_coordinates <? 2 then Ok [f0]
  else
    numbers ← comprehension (comprehension as_real) frontend_coordinates;
    calculate_cumulative_distances numbers.

(** [RouteGeometry(coordinates=..., elevation_profile=...,
    coordinate_distances=...)]: pydantic validates the coordinates as lists
    of floats; the profile and the distances were made of floats. *)
Definition route_geometry (coordinates : list (list (json F)))
    (elevation_profile : option (list (ElevationPoint F)))
    (coordinate_distances : list F) : result (RouteGeometry F) :=
  coordinates ← comprehension (comprehension as_float) coordinates;
  Ok {| Models.coordinates := coordinates;
        Models.elevation_profile := elevation_profile;
        Models.coordinate_distances := Some coordinate_distances |}.

(** Lines 251 to 265 and 279 to 283: the geometry of the response, from the
    coordinates of the engine.  Of a coordinate the code reads the first two
    components, and the third one when elevation is requested and there are
    two coordinates or more. *)
Definition build_geometry (include_elevation : bool) (coordinates : json F)
  : result (RouteGeometry F) :=
  frontend_coordinates ← frontend coordinates;
  coordinate_distances ← cumulative_distances_of frontend_coordinates;
  elevation_profile ←
    (if include_elevation && truthy coordinates
     then Some <$> create_elevation_profile_from_coordinates
                     coordinates coordinate_distances
     else Ok None);
  route_geometry frontend_coordinates elevation_profile coordinate_distances.

(** Lines 267 to 276: the segments, when details were requested and the path
    carries a [details] entry.  [merge_detail_segments] returns the empty
    list for fewer than two coordinates before it looks at the details; from
    two coordinates on it reads every triple of every detail list. *)
Definition build_segments (details : option (list string))
    (path : list (string * json F)) (frontend_coordinates : list (list F))
    (coordinate_distances : list F)
  : result (option (list (RouteSegment F))) :=
  match assoc "details" path with
  | Some details_json =>
      if details_given details then
        if len frontend_coordinates <? 2 then
          Some <$> merge_detail_segments frontend_coordinates None
                                         coordinate_distances
        else
          details_data ← decode_details details_json;
          Some <$> merge_detail_segments frontend_coordinates details_data
                                         coordinate_distances
      else Ok None
  | None => Ok None
  end.

(** The body of the [try] block of [execute_route_request].  pydantic
    validates the geometry when the response is constructed, after the
    segments were made; here the geometry is validated first, which moves no
    request from success to failure or back. *)
Definition route_request_body (post : Engine) (start end_ : F * F)
    (profile : string) (custom_model : option (json F))
    (config : GraphHopperConfig) (include_elevation : bool)
    (details : option (list string)) : result (RouteResponse F) :=
  let payload :=
    build_payload start end_ profile custom_model include_elevation details in
  let url := rstrip_slash (base_url config) +:+ "/route" in
  response ← post url payload (timeout config);
  if negb (status_code response =? 200) then
    error_data ←
      (if bool_decide (content_type response = Some "application/json")
       then json_body response else Ok (JObj []));
    error_msg ← dict_get error_data "message"
                  (JStr ("HTTP " +:+ pretty (status_code response)));
    error ← as_optional_str error_msg;
    Ok (failure_response profile error)
  else
    data ← json_body response;
    paths ← dict_get data "paths" JNull;
    if negb (truthy paths) then
      Ok (failure_response profile (Some "No route found"))
    else
      paths ← dict_getitem data "paths";
      path ← index0 paths;
      points_data ← dict_get path "points" (JObj []);
      coordinates ← points_coordinates points_data;
      geometry ← build_geometry include_elevation coordinates;
      segments ←
        build_segments details
          (match path with JObj m => m | _ => [] end)
          (Models.coordinates geometry)
          (default [] (Models.coordinate_distances geometry));
      distance ← dict_getitem path "distance";
      distance_meters ← as_float distance;
      time ← dict_getitem path "time";
      time_ms ← as_int time;
      Ok {| Models.geometry := geometry;
            Models.metrics := {| Models.distance_meters := distance_meters;
                                 Models.time_ms := time_ms |};
            Models.profile := profile;
            Models.segments := segments;
            Models.success := true;
            Models.error := None |}.

(** [execute_route_request]: the [try] block with its two handlers. *)
Definition execute_route_request (post : Engine) (start end_ : F * F)
    (profile : string) (custom_model : option (json F))
    (config : GraphHopperConfig) (include_elevation : bool)
    (details : option (list string)) : result (RouteResponse F) :=
  match route_request_body post start end_ profile custom_model config
                           include_elevation details with
  | Ok response => Ok response
  | Raise e =>
      if is_request_exception e
      then Ok (failure_response profile
                 (Some ("Connection failed: " +:+ exn_str e)))
      else Ok (failure_response profile
                 (Some ("Unexpected error: " +:+ exn_str e)))
  end.

(** [get_custom_model(custom_profile_id, parameters)]: [generate_profile] of
    package [r2r_bo], run in a scoped session.  It returns the custom model
    or raises. *)
Definition get_custom_model
    (generate_profile : Z → list (string * json F) → result (json F))
    (custom_profile_id : Z) (parameters : list (string * json F))
  : result (json F) :=
  generate_profile custom_profile_id parameters.

(** *** What the request is compared with *)

(** [data["paths"][0]]. *)
Definition first_path (data : json F) : result (json F) :=
  paths ← dict_getitem data "paths"; index0 paths.

(** The coordinates that a path carries. *)
Definition path_coordinates (path : json F) : result (json F) :=
  points_data ← dict_get path "points" (JObj []);
  points_coordinates points_data.

(** The answer of the engine from which a successful response [r] is built:
    status 200, a JSON body with a truthy [paths], a first path whose
    coordinates give the geometry of [r] and whose distance and time are
    numbers. *)
Definition built_from_answer (response : Response) (include_elevation : bool)
    (r : RouteResponse F) : Prop :=
  ∃ data paths path coordinates,
    status_code response = 200
    ∧ json_body response = Ok data
    ∧ dict_get data "paths" JNull = Ok paths
    ∧ truthy paths = true
    ∧ first_path data = Ok path
    ∧ path_coordinates path = Ok coordinates
    ∧ build_geometry include_elevation coordinates = Ok (geometry r)
    ∧ (distance ← dict_getitem path "distance"; as_float distance)
      = Ok (distance_meters (metrics r))
    ∧ (time ← dict_getitem path "time"; as_int time)
      = Ok (time_ms (metrics r)).

End Request.
Arguments GraphHopperConfig : clear implicits.
Arguments Response : clear implicits.
Arguments Engine : clear implicits.

End Services.

(** ** routers/routes.py *)

Module Routes.
Import Services.

Section Handler.
Context {F : Type} `{FloatOps F}.

Record RoutePoint : Type := {
  lat : F;
  lon : F;
}.

(** [RouteRequest] of models.py. *)
Record RouteRequest : Type := {
  start : RoutePoint;
  end_ : RoutePoint;
  req_profile : option string;
  custom_profile_id : option Z;
  parameters : option (list (string * json F));
  include_elevation : bool;
  details : option (list string);
}.

(** How the handler ends: with a response body, with an [HTTPException], or
    with an exception that nothing catches. *)
Inductive outcome : Type :=
| Respond (body : RouteResponse F)
| HTTPException (status : Z) (detail : string)
| Unhandled (e : exn).

(** The handler's result, with the calls it made to the custom-model
    builder. *)
Record handled : Type := {
  builder_calls : list (Z * list (string * json F));
  result_of : outcome;
}.

(** [request.profile or config.default_profile]. *)
Definition profile_or_default (profile : option string)
    (config : GraphHopperConfig F) : string :=
  match profile with
  | Some p => if String.eqb p "" then default_profile config else p
  | None => default_profile config
  end.

(** [request.details or ['surface', 'smoothness']]. *)
Definition details_or_default (details : option (list string))
  : list string :=
  match details with
  | Some (d :: ds) => d :: ds
  | _ => ["surface"; "smoothness"]
  end.

(** [request.custom_profile_id and request.parameters], as a condition. *)
Definition wants_custom_model (request : RouteRequest) : bool :=
  match custom_profile_id request, parameters request with
  | Some id, Some (p :: ps) => negb (id =? 0)
  | _, _ => false
  end.

(** The part of [get_route] after the custom model is known. *)
Definition route_with (post : Engine F) (request : RouteRequest)
    (config : GraphHopperConfig F) (custom_model : option (json F))
  : outcome :=
  let profile := profile_or_default (req_profile request) config in
  let details := details_or_default (details request) in
  let start := (lat (start request), lon (start request)) in
  let end_ := (lat (end_ request), lon (end_ request)) in
  match execute_route_request post start end_ profile custom_model config
          (include_elevation request) (Some details) with
  | Ok response => Respond response
  | Raise e => Unhandled e
  end.

(** [get_route(request, config)]. *)
Definition get_route
    (generate_profile : Z → list (string * json F) → result (json F))
    (post : Engine F) (request : RouteRequest) (config : GraphHopperConfig F)
  : handled :=
  if wants_custom_model request then
    let id := default 0 (custom_profile_id request) in
    let params := default [] (parameters request) in
    match get_custom_model generate_profile id params with
    | Ok custom_model =>
        {| builder_calls := [(id, params)];
           result_of := route_with post request config (Some custom_model) |}
    | Raise e =>
        {| builder_calls := [(id, params)];
           result_of :=
             HTTPException 400 ("Custom profile error: " +:+ exn_str e) |}
    end
  else
    {| builder_calls := [];
       result_of := route_with post request config None |}.
End Handler.
Arguments RoutePoint : clear implicits.
Arguments RouteRequest : clear implicits.
Arguments outcome : clear implicits.
Arguments handled : clear implicits.

End Routes.

(** ** db/models.py: the tables that the scripts read and write *)

Module Db.

(** [graphhopper_custom_profiles]. *)
Module CustomProfile.
Record row : Type := {
  id : Z;
  name : string;
  description : option string;
  parameters : list string;
}.
End CustomProfile.

(** [profile_priors], after revision 246677e8a89f. *)
Module ProfilePrior.
Record row (F : Type) : Type := {
  id : Z;
  profile_id : Z;
  means : json F;
  variances : json F;
  training_metadata : option (json F);
  version : Z;
  is_active : bool;
}.
Arguments id {F} _.
Arguments profile_id {F} _.
Arguments means {F} _.
Arguments variances {F} _.
Arguments training_metadata {F} _.
Arguments version {F} _.
Arguments is_active {F} _.

(** The attributes of the mapped class: its columns and its relationship. *)
Definition attributes : list string :=
  ["id"; "profile_id"; "means"; "variances"; "training_metadata";
   "version"; "is_active"; "created_at"; "profile"].
End ProfilePrior.

(** [user_profiles].  Primary keys are UUIDs in the source; here they are
    integers drawn fresh at insertion. *)
Module UserProfile.
Record row : Type := {
  id : Z;
  user_id : string;
  profile_id : Z;
  custom_name : option string;
  total_ratings : Z;
}.
End UserProfile.

(** [learned_parameters]. *)
Module LearnedParameters.
Record row (F : Type) : Type := {
  id : Z;
  user_profile_id : Z;
  parameters : json F;
  is_prior : bool;
  rating_count_at_generation : option Z;
  convergence_metrics : option (json F);
}.
Arguments id {F} _.
Arguments user_profile_id {F} _.
Arguments parameters {F} _.
Arguments is_prior {F} _.
Arguments rating_count_at_generation {F} _.
Arguments convergence_metrics {F} _.
End LearnedParameters.

Record database (F : Type) : Type := {
  custom_profiles : list CustomProfile.row;
  profile_priors : list (ProfilePrior.row F);
  user_profiles : list UserProfile.row;
  learned_parameters : list (LearnedParameters.row F);
}.
Arguments custom_profiles {F} _.
Arguments profile_priors {F} _.
Arguments user_profiles {F} _.
Arguments learned_parameters {F} _.

(** A primary key that no row of the table has yet. *)
Definition fresh_id (ids : list Z) : Z := 1 + foldr Z.max 0 ids.

(** The constructor that SQLAlchemy gives a declarative class: every keyword
    has to name an attribute of the class, else [TypeError]. *)
Definition declarative_constructor {F} (class_name : string)
    (attributes : list string) (kwargs : list (string * json F))
  : result (list (string * json F)) :=
  match list_find (λ kv : string * json F, kv.1 ∉ attributes) kwargs with
  | Some (_, (k, _)) =>
      Raise (TypeError ("'" +:+ k +:+ "' is an invalid keyword argument for "
                        +:+ class_name))
  | None => Ok kwargs
  end.

(** The scalar of [SELECT max(column)]: [None] when no row is selected. *)
Definition sql_max (values : list Z) : option Z :=
  foldr (λ v acc, Some (match acc with Some m => Z.max v m | None => v end))
        None values.

(** [(max_version or 0) + 1]. *)
Definition next_after (max_version : option Z) : Z :=
  (match max_version with
   | Some v => if v =? 0 then 0 else v
   | None => 0
   end) + 1.

End Db.

(** ** scripts/add_prior_config.py *)

Module AddPriorConfig.
Import Db.

Section Script.
Context {F : Type} `{FloatOps F}.

(** [isinstance(v, int)]: [bool] is a subclass of [int]. *)
Definition is_int (v : json F) : bool :=
  match v with JInt _ | JBool _ => true | _ => false end.

Definition int_value (v : json F) : Z :=
  match v with
  | JInt z => z
  | JBool true => 1
  | _ => 0
  end.

(** [isinstance(v, (int, float))]. *)
Definition is_number (v : json F) : bool :=
  match v with JInt _ | JBool _ | JFloat _ => true | _ => false end.

(** [v <= 0] on a number. *)
Definition not_positive (v : json F) : bool :=
  match v with
  | JInt z => z <=? 0
  | JBool b => negb b
  | JFloat x => fleb x f0
  | _ => false
  end.

(** [s.strip()] removes the characters for which [str.isspace] holds:
    U+0009 to U+000D, U+001C to U+0020, U+0085, U+00A0, U+1680, U+2000 to
    U+200A, U+2028, U+2029, U+202F, U+205F and U+3000.  A string holds the
    UTF-8 encoding of the text, so these characters take one, two or three
    bytes. *)
Definition byte (c : ascii) : Z := Z.of_N (N_of_ascii c).

(** U+0009 to U+000D and U+001C to U+0020. *)
Definition is_space1 (b : Z) : bool :=
  (9 <=? b) && (b <=? 13) || (28 <=? b) && (b <=? 32).

(** U+0085 and U+00A0: [C2 85] and [C2 A0]. *)
Definition is_space2 (b1 b2 : Z) : bool :=
  (b1 =? 194) && ((b2 =? 133) || (b2 =? 160)).

(** U+1680 is [E1 9A 80]; U+2000 to U+200A, U+2028, U+2029 and U+202F are
    [E2 80 80] to [E2 80 8A], [E2 80 A8], [E2 80 A9] and [E2 80 AF]; U+205F
    is [E2 81 9F]; U+3000 is [E3 80 80]. *)
Definition is_space3 (b1 b2 b3 : Z) : bool :=
  (b1 =? 225) && (b2 =? 154) && (b3 =? 128)
  || (b1 =? 226) && (b2 =? 128)
     && ((128 <=? b3) && (b3 <=? 138)
         || (b3 =? 168) || (b3 =? 169) || (b3 =? 175))
  || (b1 =? 226) && (b2 =? 129) && (b3 =? 159)
  || (b1 =? 227) && (b2 =? 128) && (b3 =? 128).

(** Every character of the encoded text is one that [strip] removes. *)
Fixpoint all_space (bytes : list Z) : bool :=
  match bytes with
  | [] => true
  | b1 :: rest1 =>
      if is_space1 b1 then all_space rest1
      else
        match rest1 with
        | b2 :: rest2 =>
            if is_space2 b1 b2 then all_space rest2
            else
              match rest2 with
              | b3 :: rest3 => is_space3 b1 b2 b3 && all_space rest3
              | [] => false
              end
        | [] => false
        end
  end.

(** [not s.strip()]. *)
Definition is_blank (s : string) : bool :=
  all_space (byte <$> list_ascii_of_string s).

Definition required_fields : list string :=
  ["custom_profile_id"; "version"; "parameters"].

(** The loop of [validate_prior_config] over the parameters. *)
Fixpoint validate_parameters (parameters : list (string * json F))
  : result unit :=
  match parameters with
  | [] => Ok ()
  | (param_name, param_value) :: rest =>
      if is_blank param_name then
        Raise (ValueError "Parameter names must be non-empty strings")
      else if negb (is_number param_value) then
        Raise (ValueError
                 ("Parameter '" +:+ param_name
                  +:+ "' must have a numeric value"))
      else if not_positive param_value then
        Raise (ValueError
                 ("Parameter '" +:+ param_name
                  +:+ "' must have a positive value"))
      else validate_parameters rest
  end.

(** [validate_prior_config(config)].  A document that is not a mapping fails
    one of the first two checks. *)
Definition validate_prior_config (config : json F) : result unit :=
  match config with
  | JObj m =>
      let missing_fields :=
        filter (λ field, assoc field m = None) required_fields in
      match missing_fields with
      | _ :: _ =>
          Raise (ValueError
                   ("Missing required fields in configuration: "
                    +:+ String.concat ", " missing_fields))
      | [] =>
          let custom_profile_id := default JNull (assoc "custom_profile_id" m) in
          let version := default JNull (assoc "version" m) in
          let parameters := default JNull (assoc "parameters" m) in
          if negb (is_int custom_profile_id) then
            Raise (ValueError "custom_profile_id must be an integer")
          else if negb (is_int version) || (int_value version <? 1) then
            Raise (ValueError "version must be a positive integer")
          else
            match parameters with
            | JObj [] =>
                Raise (ValueError "parameters dictionary cannot be empty")
            | JObj ps => validate_parameters ps
            | _ => Raise (ValueError "parameters must be a dictionary")
            end
      end
  | _ => Raise (TypeError "configuration is not a mapping")
  end.

(** [sorted(names)]. *)
Definition sorted_names (names : list string) : list string :=
  merge_sort (λ a b, Is_true (String.leb a b)) names.

(** What a successful insertion prints: the summary lines, and the parameter
    values in the order of their names. *)
Record report : Type := {
  printed : list string;
  printed_parameters : list (string * json F);
}.

(** The [INSERT] that [db.commit()] issues for a pending [ProfilePrior]:
    the not-null columns must be set, the profile must exist and the pair
    (profile id, version) must be new. *)
Definition commit_prior (db : database F) (obj : list (string * json F))
  : result (Z * database F) :=
  match assoc "profile_id" obj, assoc "means" obj, assoc "variances" obj with
  | Some profile_id, Some means, Some variances =>
      let profile_id := int_value profile_id in
      let version := int_value (default (JInt 1) (assoc "version" obj)) in
      if bool_decide (profile_id ∉ CustomProfile.id <$> custom_profiles db)
      then Raise (IntegrityError "profile_priors_profile_id_fkey")
      else if bool_decide
                ((profile_id, version) ∈
                   (λ p, (ProfilePrior.profile_id p, ProfilePrior.version p))
                     <$> profile_priors db)
      then Raise (IntegrityError "unique_profile_prior_version")
      else
        let id := fresh_id (ProfilePrior.id <$> profile_priors db) in
        let row :=
          {| ProfilePrior.id := id;
             ProfilePrior.profile_id := profile_id;
             ProfilePrior.means := means;
             ProfilePrior.variances := variances;
             ProfilePrior.training_metadata := assoc "training_metadata" obj;
             ProfilePrior.version := version;
             ProfilePrior.is_active :=
               match assoc "is_active" obj with
               | Some (JBool b) => b
               | _ => true
               end |} in
        Ok (id, {| custom_profiles := custom_profiles db;
                   profile_priors := profile_priors db ++ [row];
                   user_profiles := user_profiles db;
                   learned_parameters := learned_parameters db |})
  | _, _, _ => Raise (IntegrityError "null value violates not-null constraint")
  end.

(** The body of the [try] block of [insert_prior_config], on a validated
    configuration [m]. *)
Definition insert_body (db : database F) (m : list (string * json F))
  : result (Z * report * database F) :=
  let custom_profile_id := int_value (default JNull (assoc "custom_profile_id" m)) in
  let version := default JNull (assoc "version" m) in
  let parameters :=
    match assoc "parameters" m with Some (JObj ps) => ps | _ => [] end in
  match list_find (λ p, CustomProfile.id p = custom_profile_id)
                  (custom_profiles db) with
  | None =>
      Raise (ValueError ("Custom profile with ID " +:+ pretty custom_profile_id
                         +:+ " not found"))
  | Some (_, profile) =>
      let profile_params : gset string :=
        list_to_set (CustomProfile.parameters profile) in
      let config_params : gset string := list_to_set parameters.*1 in
      if bool_decide (profile_params ≠ config_params) then
        Raise (ValueError
                 ("Parameter mismatch. Profile '" +:+ CustomProfile.name profile
                  +:+ "' expects: "
                  +:+ String.concat ", "
                        (sorted_names (elements profile_params))))
      else
        match list_find
                (λ p, ProfilePrior.profile_id p = custom_profile_id
                      ∧ ProfilePrior.version p = int_value version)
                (profile_priors db) with
        | Some _ =>
            Raise (ValueError
                     ("Prior version " +:+ pretty (int_value version)
                      +:+ " already exists for profile "
                      +:+ pretty custom_profile_id))
        | None =>
            prior ← declarative_constructor "ProfilePrior"
                      ProfilePrior.attributes
                      [("profile_id", JInt custom_profile_id);
                       ("parameters", JObj parameters);
                       ("training_metadata",
                        default (JObj []) (assoc "training_metadata" m));
                       ("version", version);
                       ("is_active", JBool true)];
            '(id, db') ← commit_prior db prior;
            Ok (id,
                {| printed :=
                     ["Prior configuration inserted successfully!";
                      "   Prior ID: " +:+ pretty id;
                      "   Profile: " +:+ CustomProfile.name profile
                        +:+ " (ID: " +:+ pretty custom_profile_id +:+ ")";
                      "   Version: " +:+ pretty (int_value version);
                      "   Parameters: " +:+ pretty (len parameters);
                      "   Parameter values:"];
                   printed_parameters :=
                     omap (λ param_name,
                            (λ v, (param_name, v)) <$> assoc param_name parameters)
                          (sorted_names parameters.*1) |},
                db')
        end
  end.

(** [insert_prior_config(config_path)].  [config_file] is what the path
    holds: nothing, text that is not YAML, or a document.  The database
    after the call is the second component: the state committed, or the
    state before when the session rolled back. *)
Definition insert_prior_config (config_file : option (result (json F)))
    (db : database F) : result (Z * report) * database F :=
  match config_file with
  | None => (Raise (FileNotFoundError "Configuration file not found"), db)
  | Some (Raise e) =>
      (Raise (YAMLError ("Invalid YAML format: " +:+ exn_str e)), db)
  | Some (Ok config) =>
      if negb (truthy config) then
        (Raise (ValueError "Configuration file is empty or contains no data"),
         db)
      else
        match validate_prior_config config with
        | Raise e => (Raise e, db)
        | Ok _ =>
            match insert_body db
                    (match config with JObj m => m | _ => [] end) with
            | Ok (id, rep, db') => (Ok (id, rep), db')
            | Raise (IntegrityError msg) =>
                if bool_decide (msg = "unique_profile_prior_version") then
                  (Raise (ValueError "Prior version already exists"), db)
                else
                  (Raise (ValueError ("Database constraint error: " +:+ msg)),
                   db)
            | Raise e => (Raise e, db)
            end
        end
  end.

(** [main()] with [--insert]: the lines printed and the exit status. *)
Definition main_insert (config_file : option (result (json F)))
    (db : database F) : list string * Z * database F :=
  match insert_prior_config config_file db with
  | (Ok (_, rep), db') => (printed rep, 0, db')
  | (Raise e, db') => (["Error: " +:+ exn_str e], 1, db')
  end.

(** [get_next_prior_version(db_session, profile_id)]. *)
Definition get_next_prior_version (db : database F) (profile_id : Z) : Z :=
  let max_version :=
    sql_max (ProfilePrior.version
               <$> filter (λ p, ProfilePrior.profile_id p = profile_id)
                          (profile_priors db)) in
  next_after max_version.

(** What [generate_prior_config] writes: the comment lines, and the document
    that [yaml.dump] serialises. *)
Record generated : Type := {
  header : list string;
  document : json F;
}.

(** [generate_prior_config(custom_profile_id, output_path)];
    [output_exists] is whether the output path exists. *)
Definition generate_prior_config (custom_profile_id : Z)
    (output_exists : bool) (db : database F) : result generated :=
  match list_find (λ p, CustomProfile.id p = custom_profile_id)
                  (custom_profiles db) with
  | None =>
      Raise (ValueError ("Custom profile with ID " +:+ pretty custom_profile_id
                         +:+ " not found"))
  | Some (_, profile) =>
      match CustomProfile.parameters profile with
      | [] =>
          Raise (ValueError ("Profile '" +:+ CustomProfile.name profile
                             +:+ "' (ID: " +:+ pretty custom_profile_id
                             +:+ ") has no parameters defined"))
      | _ =>
          let next_version := get_next_prior_version db custom_profile_id in
          let config :=
            JObj [("custom_profile_id", JInt custom_profile_id);
                  ("version", JInt next_version);
                  ("parameters",
                   JObj (dict_comprehension (λ _, JFloat (of_Z 1))
                           (sorted_names (CustomProfile.parameters profile))));
                  ("training_metadata",
                   JObj [("routes_used", JNull);
                         ("convergence_metric", JNull);
                         ("notes", JStr "Manually configured priors")])] in
          if output_exists then
            Raise (FileExistsError "Output file already exists")
          else
            Ok {| header :=
                    ["# Prior configuration for GraphHopper Custom Profile";
                     "# Profile: " +:+ CustomProfile.name profile
                       +:+ " (ID: " +:+ pretty custom_profile_id +:+ ")";
                     "# Description: "
                       +:+ match CustomProfile.description profile with
                           | Some d => if String.eqb d "" then "No description"
                                       else d
                           | None => "No description"
                           end;
                     "# Generated for version: " +:+ pretty next_version];
                  document := config |}
      end
  end.

(** *** What the generated document is compared with *)

(** The configurations that [validate_prior_config] accepts: a mapping with
    an integer profile id, an integer version of at least 1 and a non-empty
    map of parameters, each with a name that is not blank and a positive
    number as its value. *)
Definition valid_prior_config (config : json F) : Prop :=
  ∃ m id version ps,
    config = JObj m
    ∧ assoc "custom_profile_id" m = Some id ∧ is_int id = true
    ∧ assoc "version" m = Some version ∧ is_int version = true
    ∧ 1 ≤ int_value version
    ∧ assoc "parameters" m = Some (JObj ps) ∧ ps ≠ []
    ∧ Forall (λ kv : string * json F,
                is_blank kv.1 = false ∧ is_number kv.2 = true
                ∧ not_positive kv.2 = false) ps.

(** The checks of [insert_prior_config] on the database, for the document
    [config]: the profile exists, the parameter names are those of the
    profile, and the profile has no prior of that version yet. *)
Definition passes_insert_checks (db : database F) (config : json F) : Prop :=
  ∃ m ps i profile,
    config = JObj m
    ∧ assoc "parameters" m = Some (JObj ps)
    ∧ list_find (λ p, CustomProfile.id p
                      = int_value (default JNull (assoc "custom_profile_id" m)))
                (custom_profiles db) = Some (i, profile)
    ∧ (list_to_set (CustomProfile.parameters profile) : gset string)
      = list_to_set ps.*1
    ∧ list_find (λ p, ProfilePrior.profile_id p
                      = int_value (default JNull (assoc "custom_profile_id" m))
                      ∧ ProfilePrior.version p
                        = int_value (default JNull (assoc "version" m)))
                (profile_priors db) = None.
End Script.
Arguments report : clear implicits.
Arguments generated : clear implicits.

End AddPriorConfig.

(** ** scripts/add_custom_profile.py *)

Module AddCustomProfile.
Import Db AddPriorConfig.

(** The pattern of the source: an opening brace, the group, a closing
    brace; the group is one character of [a-z] followed by any number of
    characters of [a-z0-9_].  These are its character classes. *)
Definition is_lower (c : ascii) : bool :=
  (97 <=? nat_of_ascii c)%nat && (nat_of_ascii c <=? 122)%nat.

Definition is_digit (c : ascii) : bool :=
  (48 <=? nat_of_ascii c)%nat && (nat_of_ascii c <=? 57)%nat.

Definition is_name_char (c : ascii) : bool :=
  is_lower c || is_digit c || Ascii.eqb c "_"%char.

(** The longest prefix of [s] made of characters of [a-z0-9_], and what
    follows it. *)
Fixpoint span_name (s : list ascii) : list ascii * list ascii :=
  match s with
  | [] => ([], [])
  | c :: s' =>
      if is_name_char c
      then let '(name, rest) := span_name s' in (c :: name, rest)
      else ([], s)
  end.

(** A match of the pattern at the head of [s]: the text of its group.  The
    star is greedy, and giving characters back cannot help, since the brace
    that has to follow is not a character of the class. *)
Definition match_placeholder (s : list ascii) : option (list ascii) :=
  match s with
  | open :: c :: s' =>
      if Ascii.eqb open "{"%char && is_lower c then
        let '(name, rest) := span_name s' in
        match rest with
        | close :: _ =>
            if Ascii.eqb close "}"%char then Some (c :: name) else None
        | [] => None
        end
      else None
  | _ => None
  end.

(** [re.findall(pattern, s)]: the groups of the matches found from left to
    right, each search starting where the last match ended.  [skip] counts
    the characters of [s] that the last match still covers.  The text is
    read as its UTF-8 bytes: no byte of a character outside ASCII is a
    brace or a character of the class. *)
Fixpoint findall_from (skip : nat) (s : list ascii) : list string :=
  match s with
  | [] => []
  | c :: s' =>
      match skip with
      | S k => findall_from k s'
      | O =>
          match match_placeholder s with
          | Some name =>
              string_of_list_ascii name :: findall_from (S (length name)) s'
          | None => findall_from 0 s'
          end
      end
  end.

Definition findall (s : string) : list string :=
  findall_from 0 (list_ascii_of_string s).

(** [extract_parameters_from_template(template_content)]: the sorted list
    of the distinct matches (the notice that is printed when a name occurs
    more than once is left out). *)
Definition extract_parameters_from_template (template_content : string)
  : list string :=
  let matches := findall template_content in
  let unique_parameters : gset string := list_to_set matches in
  sorted_names (elements unique_parameters).

(** *** What the extraction is compared with *)

(** A parameter name: a lower-case letter, then lower-case letters, digits
    and underscores. *)
Definition is_parameter_name (name : string) : Prop :=
  match list_ascii_of_string name with
  | [] => False
  | c :: cs => is_lower c = true ∧ forallb is_name_char cs = true
  end.

(** The template holds the placeholder [{name}]. *)
Definition has_placeholder (template : string) (name : string) : Prop :=
  ∃ before after, template = before +:+ "{" +:+ name +:+ "}" +:+ after.

(** [DisciplineType] of db/models.py. *)
Inductive DisciplineType : Type := ROAD | GRAVEL | MTB | TREKKING | COMMUTE.

#[global] Instance DisciplineType_eq_dec : EqDecision DisciplineType.
Proof. solve_decision. Defined.

(** [get_next_version(db_session, discipline)], on the two columns of
    [graphhopper_custom_profiles] that the query reads: the discipline and
    the version of each row. *)
Definition get_next_version (profiles : list (DisciplineType * Z))
    (discipline : DisciplineType) : Z :=
  let max_version :=
    sql_max (snd <$> filter (λ p : DisciplineType * Z, p.1 = discipline)
                            profiles) in
  next_after max_version.

End AddCustomProfile.

(** ** scripts/transfer_priors_to_learned_params.py *)

Module TransferPriors.
Import Db.

Section Script.
Context {F : Type}.

(** Whether [uuid.UUID(s)] accepts the string [s]. *)
Context (uuid_parses : string → bool).

(** [validate_uuid(uuid_string)]. *)
Definition validate_uuid (uuid_string : string) : result string :=
  if uuid_parses uuid_string then Ok uuid_string
  else Raise (ValueError ("Invalid UUID format: " +:+ uuid_string)).

(** [get_or_create_user_profile(db_session, user_id, profile_id)]: the row,
    and the session state after a possible [add] and [flush]. *)
Definition get_or_create_user_profile (db : database F) (user_id : string)
    (profile_id : Z) : result (UserProfile.row * database F) :=
  match list_find (λ p, CustomProfile.id p = profile_id)
                  (custom_profiles db) with
  | None =>
      Raise (ValueError ("Custom profile with ID " +:+ pretty profile_id
                         +:+ " not found"))
  | Some (_, custom_profile) =>
      match list_find
              (λ u, UserProfile.user_id u = user_id
                    ∧ UserProfile.profile_id u = profile_id)
              (user_profiles db) with
      | Some (_, user_profile) => Ok (user_profile, db)
      | None =>
          let user_profile :=
            {| UserProfile.id :=
                 fresh_id (UserProfile.id <$> user_profiles db);
               UserProfile.user_id := user_id;
               UserProfile.profile_id := profile_id;
               UserProfile.custom_name :=
                 Some ("Profile for " +:+ CustomProfile.name custom_profile);
               UserProfile.total_ratings := 0 |} in
          Ok (user_profile,
              {| custom_profiles := custom_profiles db;
                 profile_priors := profile_priors db;
                 user_profiles := user_profiles db ++ [user_profile];
                 learned_parameters := learned_parameters db |})
      end
  end.

(** One iteration of the loop of [transfer_prior_to_learned_params]: the
    session state and the ids created so far, before and after.  After the
    flush of a new row the script prints [list(prior.means.keys())], which
    raises when the means of the prior are not a JSON object. *)
Definition transfer_one (user_id : string)
    (state : database F * list Z) (prior_id : Z)
  : result (database F * list Z) :=
  let '(db, created_learned_params) := state in
  match list_find (λ p, ProfilePrior.id p = prior_id) (profile_priors db) with
  | None => Ok (db, created_learned_params)
  | Some (_, prior) =>
      '(user_profile, db) ←
        get_or_create_user_profile db user_id (ProfilePrior.profile_id prior);
      match list_find
              (λ l, LearnedParameters.user_profile_id l
                    = UserProfile.id user_profile
                    ∧ LearnedParameters.is_prior l = true)
              (learned_parameters db) with
      | Some _ => Ok (db, created_learned_params)
      | None =>
          let learned_params :=
            {| LearnedParameters.id :=
                 fresh_id (LearnedParameters.id <$> learned_parameters db);
               LearnedParameters.user_profile_id := UserProfile.id user_profile;
               LearnedParameters.parameters := ProfilePrior.means prior;
               LearnedParameters.is_prior := true;
               LearnedParameters.rating_count_at_generation := Some 0;
               LearnedParameters.convergence_metrics :=
                 Some (JObj [("source", JStr "profile_prior");
                             ("prior_id", JInt prior_id);
                             ("prior_version",
                              JInt (ProfilePrior.version prior));
                             ("transferred_at", JStr "auto_transfer")]) |} in
          let db :=
            {| custom_profiles := custom_profiles db;
               profile_priors := profile_priors db;
               user_profiles := user_profiles db;
               learned_parameters :=
                 learned_parameters db ++ [learned_params] |} in
          let created_learned_params :=
            created_learned_params ++ [LearnedParameters.id learned_params] in
          _ ← dict_keys (ProfilePrior.means prior);
          Ok (db, created_learned_params)
      end
  end.

(** [transfer_prior_to_learned_params(user_id, prior_ids)]: the ids of the
    rows created, and the database after the call (committed, or as it was
    when the session rolled back). *)
Definition transfer_prior_to_learned_params (user_id : string)
    (prior_ids : list Z) (db : database F) : result (list Z) * database F :=
  match validate_uuid user_id with
  | Raise e => (Raise e, db)
  | Ok _ =>
      match prior_ids with
      | [] => (Raise (ValueError "At least one prior_id must be specified"),
               db)
      | _ =>
          match for_loop prior_ids (transfer_one user_id) (db, []) with
          | Ok (db', created_learned_params) =>
              (Ok created_learned_params, db')
          | Raise (IntegrityError msg) =>
              (Raise (ValueError ("Database constraint error: " +:+ msg)), db)
          | Raise e => (Raise e, db)
          end
      end
  end.

(** *** What the transfer is compared with *)

(** The user-profile rows of a user for a custom profile. *)
Definition user_profile_rows (db : database F) (user_id : string)
    (profile_id : Z) : list UserProfile.row :=
  filter (λ u, UserProfile.user_id u = user_id
               ∧ UserProfile.profile_id u = profile_id)
         (user_profiles db).

(** The learned-parameters rows of a user profile that are flagged as
    priors. *)
Definition prior_rows (db : database F) (user_profile_id : Z)
  : list (LearnedParameters.row F) :=
  filter (λ l, LearnedParameters.user_profile_id l = user_profile_id
               ∧ LearnedParameters.is_prior l = true)
         (learned_parameters db).

(** The constraint [unique_user_profile] of [user_profiles]: at most one row
    per user and custom profile. *)
Definition unique_user_profile (db : database F) : Prop :=
  ∀ user_id profile_id,
    (length (user_profile_rows db user_id profile_id) ≤ 1)%nat.

(** At most one prior-flagged row of learned parameters per user profile. *)
Definition single_prior (db : database F) : Prop :=
  ∀ user_profile_id, (length (prior_rows db user_profile_id) ≤ 1)%nat.



(** The learned-parameters row [learned] was made for the user from one of
    the listed priors: it is flagged as a prior, holds the means of that
    prior, and belongs to a profile row of the user for the prior's custom
    profile. *)
Definition made_from_prior (db : database F) (user_id : string)
    (prior_ids : list Z) (learned : LearnedParameters.row F) : Prop :=
  LearnedParameters.is_prior learned = true
  ∧ LearnedParameters.rating_count_at_generation learned = Some 0
  ∧ ∃ prior user_profile,
      prior ∈ profile_priors db
      ∧ ProfilePrior.id prior ∈ prior_ids
      ∧ LearnedParameters.parameters learned = ProfilePrior.means prior
      ∧ user_profile ∈ user_profiles db
      ∧ UserProfile.id user_profile
        = LearnedParameters.user_profile_id learned
      ∧ UserProfile.user_id user_profile = user_id
      ∧ UserProfile.profile_id user_profile = ProfilePrior.profile_id prior.

(** The database [db1] is [db] with rows appended to [user_profiles] and to
    [learned_parameters]: user-profile rows of the user, and the rows
    [learned], each made from one of the listed priors. *)
Definition extended_by (user_id : string) (prior_ids : list Z)
    (db db1 : database F) (learned : list (LearnedParameters.row F)) : Prop :=
  custom_profiles db1 = custom_profiles db
  ∧ profile_priors db1 = profile_priors db
  ∧ learned_parameters db1 = learned_parameters db ++ learned
  ∧ Forall (made_from_prior db1 user_id prior_ids) learned
  ∧ ∃ added,
      user_profiles db1 = user_profiles db ++ added
      ∧ Forall (λ u, UserProfile.user_id u = user_id) added.

(** Nothing is left to do for the prior id: no prior has it, or the user has
    a profile row for the prior's custom profile and that row has a
    prior-flagged row of learned parameters. *)
Definition settled (user_id : string) (db : database F) (prior_id : Z)
  : Prop :=
  list_find (λ p, ProfilePrior.id p = prior_id) (profile_priors db) = None
  ∨ ∃ k prior j custom_profile i user_profile i' learned,
      list_find (λ p, ProfilePrior.id p = prior_id) (profile_priors db)
      = Some (k, prior)
      ∧ list_find (λ p, CustomProfile.id p = ProfilePrior.profile_id prior)
                  (custom_profiles db) = Some (j, custom_profile)
      ∧ list_find (λ u, UserProfile.user_id u = user_id
                        ∧ UserProfile.profile_id u
                          = ProfilePrior.profile_id prior)
                  (user_profiles db) = Some (i, user_profile)
      ∧ list_find (λ l, LearnedParameters.user_profile_id l
                        = UserProfile.id user_profile
                        ∧ LearnedParameters.is_prior l = true)
                  (learned_parameters db) = Some (i', learned).
End Script.

End TransferPriors.

(** ** alembic/versions/246677e8a89f: means and variances of priors *)

Module Migration.

(** A [JSONB] value; its numbers are exact decimals. *)
Abbreviation jsonb := (json QArith_base.Q).

(** The columns of [profile_priors] that the revision leaves alone. *)
Record kept_columns : Type := {
  id : Z;
  profile_id : Z;
  training_metadata : option jsonb;
  version : Z;
  is_active : bool;
}.

(** A row before the revision; [None] is SQL [NULL]. *)
Record row_before : Type := {
  kept_before : kept_columns;
  parameters : option jsonb;
}.

(** A row while the upgrade runs, with the old and the new columns. *)
Record row_between : Type := {
  kept_between : kept_columns;
  parameters_between : option jsonb;
  means_between : option jsonb;
  variances_between : option jsonb;
}.

(** A row after the revision: both new columns are not null. *)
Record row_after : Type := {
  kept_after : kept_columns;
  means : jsonb;
  variances : jsonb;
}.

(** The default variance, the literal [0.01] of the [UPDATE]. *)
Definition default_variance : jsonb := JFloat (QArith_base.Qmake 1 100).

(** [jsonb_each(doc)]: the members of an object, an error on anything
    else. *)
Definition jsonb_each (doc : jsonb) : result (list (string * jsonb)) :=
  match doc with
  | JObj members => Ok members
  | _ => Raise (DataError "cannot call jsonb_each on a non-object")
  end.

(** [jsonb_object_agg(key, value)] over the selected rows: as every SQL
    aggregate but [count], it is [NULL] when no row is selected. *)
Definition jsonb_object_agg (selected : list (string * jsonb))
  : option jsonb :=
  match selected with
  | [] => None
  | _ => Some (JObj selected)
  end.

(** The [UPDATE] of the upgrade, on one row. *)
Definition backfill (r : row_between) : result row_between :=
  match parameters_between r with
  | None => Ok r
  | Some doc =>
      members ← jsonb_each doc;
      Ok {| kept_between := kept_between r;
            parameters_between := parameters_between r;
            means_between := Some doc;
            variances_between :=
              jsonb_object_agg
                ((λ kv : string * jsonb, (kv.1, default_variance))
                   <$> members) |}
  end.

(** [ALTER COLUMN means / variances SET NOT NULL], then the drop of
    [parameters], on one row. *)
Definition tighten (r : row_between) : result row_after :=
  match means_between r, variances_between r with
  | Some m, Some v =>
      Ok {| kept_after := kept_between r; means := m; variances := v |}
  | None, _ => Raise (IntegrityError "column means contains null values")
  | _, None => Raise (IntegrityError "column variances contains null values")
  end.

(** [upgrade()]: add the columns, backfill, tighten, drop. *)
Definition upgrade (table : list row_before) : result (list row_after) :=
  let added :=
    (λ r, {| kept_between := kept_before r;
             parameters_between := parameters r;
             means_between := None;
             variances_between := None |}) <$> table in
  migrated ← comprehension backfill added;
  comprehension tighten migrated.

(** [downgrade()]: add [parameters], copy [means] into it, tighten, drop
    the two columns. *)
Definition downgrade (table : list row_after) : result (list row_before) :=
  Ok ((λ r, {| kept_before := kept_after r;
               parameters := Some (means r) |}) <$> table).


(** *** What the migration is compared with *)

(** The row holds a non-empty parameters map. *)
Definition has_parameters (r : row_before) : Prop :=
  ∃ members, parameters r = Some (JObj members) ∧ members ≠ [].

(** The variances map of the upgrade: the keys of [members], each with the
    default variance. *)
Definition default_variances (members : list (string * jsonb))
  : list (string * jsonb) :=
  (λ kv : string * jsonb, (kv.1, default_variance)) <$> members.

(** The row that the upgrade is expected to make of a row. *)
Definition upgraded_row (r : row_before) : row_after :=
  let doc := default JNull (parameters r) in
  {| kept_after := kept_before r;
     means := doc;
     variances :=
       JObj (default_variances
               (match doc with JObj members => members | _ => [] end)) |}.

(** The means of the row are a non-empty object. *)
Definition has_means (r : row_after) : Prop :=
  ∃ members, means r = JObj members ∧ members ≠ [].

(** The row after a downgrade and a new upgrade: the variances are the
    default ones. *)
Definition reset_row (r : row_after) : row_after :=
  {| kept_after := kept_after r;
     means := means r;
     variances :=
       JObj (default_variances
               (match means r with JObj members => members | _ => [] end)) |}.

End Migration.

(** ** Exact real arithmetic *)

Module RealArith.

(** [math.atan2(y, x)] on the reals: the angle of the point [(x, y)]. *)
Definition atan2 (y x : R) : R :=
  if Rlt_dec 0 x then atan (y / x)
  else if Rlt_dec x 0 then
    (if Rle_dec 0 y then atan (y / x) + PI else atan (y / x) - PI)
  else if Rlt_dec 0 y then PI / 2
  else if Rlt_dec y 0 then - (PI / 2)
  else 0.

(** The reals hold no infinity, so the sine and the cosine are there for
    every argument; the root of a negative number is a domain error, as in
    [math.sqrt]. *)
#[global] Instance R_ops : FloatOps R := {|
  of_Z := IZR;
  fadd := Rplus;
  fsub := Rminus;
  fmul := Rmult;
  fdiv := Rdiv;
  fsqrt := λ x, if Rle_dec 0 x then Some (sqrt x) else None;
  fsin := λ x, Some (sin x);
  fcos := λ x, Some (cos x);
  fatan2 := atan2;
  fpi := PI;
  fleb := λ x y, if Rle_dec x y then true else false;
|}.

(** The quantity [a] of the haversine formula for two points, and the
    distance that the formula gives, on the reals. *)
Definition haversine_a (lat1 lon1 lat2 lon2 : R) : R :=
  (sin ((lat2 - lat1) * (PI / 180) / 2) * sin ((lat2 - lat1) * (PI / 180) / 2)
   + cos (lat1 * (PI / 180)) * cos (lat2 * (PI / 180))
     * (sin ((lon2 - lon1) * (PI / 180) / 2)
        * sin ((lon2 - lon1) * (PI / 180) / 2)))%R.

Definition haversine_R (lat1 lon1 lat2 lon2 : R) : R :=
  (6371000 * (2 * atan2 (sqrt (haversine_a lat1 lon1 lat2 lon2))
                        (sqrt (1 - haversine_a lat1 lon1 lat2 lon2))))%R.


End RealArith.

(** ** IEEE 754 binary64 arithmetic *)

Module Binary64.
Import Stdlib.Floats.Floats.

(** Python's [float] is the binary64 format; sums, differences, products,
    quotients and square roots are rounded to the nearest double, as the
    primitive floats of Rocq are.  The sine, the cosine and [atan2] come
    from the C library, which IEEE 754 does not fix: they are taken as
    given. *)
Record libm : Type := {
  libm_sin : float → float;
  libm_cos : float → float;
  libm_atan2 : float → float → float;
}.

(** [float(z)]: the double nearest to the integer [z], ties to even.  (For
    an integer beyond the range of a double Python raises [OverflowError];
    the conversion gives an infinity there.) *)
Definition float_of_Z (z : Z) : float :=
  SF2Prim (SpecFloat.binary_normalize 53 1024 z 0 false).

(** [math.pi]. *)
Definition pi : float := 0x1.921fb54442d18p+1%float.

(** [math.sqrt(x)]: a domain error for a negative [x]. *)
Definition sqrt (x : float) : option float :=
  if PrimFloat.ltb x 0%float then None else Some (PrimFloat.sqrt x).

(** [math.sin(x)] and [math.cos(x)]: a domain error for an infinite [x]. *)
Definition sin (m : libm) (x : float) : option float :=
  if PrimFloat.is_infinity x then None else Some (libm_sin m x).

Definition cos (m : libm) (x : float) : option float :=
  if PrimFloat.is_infinity x then None else Some (libm_cos m x).

Definition ops (m : libm) : FloatOps float := {|
  of_Z := float_of_Z;
  fadd := PrimFloat.add;
  fsub := PrimFloat.sub;
  fmul := PrimFloat.mul;
  fdiv := PrimFloat.div;
  fsqrt := sqrt;
  fsin := sin m;
  fcos := cos m;
  fatan2 := libm_atan2 m;
  fpi := pi;
  fleb := PrimFloat.leb;
|}.

End Binary64.

(** ** Concrete inputs *)

Module Examples.
Import Services RealArith.


Definition three_frontend : list (list R) := [[0; 0]; [1; 0]; [2; 0]]%R.

Definition three_distances : list R :=
  match calculate_cumulative_distances three_frontend with
  | Ok ds => ds
  | Raise _ => []
  end.

Definition surface_details : list (string * list (Z * Z * json R)) :=
  [("surface", [(0, 1, JStr "asphalt"); (1, 5, JStr "gravel")])].

Definition config : GraphHopperConfig R :=
  {| base_url := "http://localhost:8989/";
     timeout := 30%R;
     default_profile := "bike" |}.


(** An engine that answers 200 with one path of no coordinates. *)
Definition empty_path_engine : Engine R :=
  λ _ _ _, Ok {| status_code := 200;
                 content_type := Some "application/json";
                 json_body :=
                   Ok (JObj [("paths",
                              JArr [JObj [("points",
                                           JObj [("type", JStr "LineString");
                                                 ("coordinates", JArr [])]);
                                          ("distance", JFloat 0%R);
                                          ("time", JInt 0)]])]) |}.



(** A request that names custom profile 7 and carries no parameters. *)
Definition request_without_parameters : Routes.RouteRequest R :=
  {| Routes.start := {| Routes.lat := 47; Routes.lon := 8 |}%R;
     Routes.end_ := {| Routes.lat := 48; Routes.lon := 9 |}%R;
     Routes.req_profile := None;
     Routes.custom_profile_id := Some 7;
     Routes.parameters := None;
     Routes.include_elevation := true;
     Routes.details := None |}.

(** A builder that rejects every request. *)
Definition rejecting_builder : Z → list (string * json R) → result (json R) :=
  λ _ _, Raise (ValueError "unknown profile").

(** A prior row with two parameters, before the migration. *)
Definition prior_row_before : Migration.row_before :=
  {| Migration.kept_before :=
       {| Migration.id := 1;
          Migration.profile_id := 1;
          Migration.training_metadata := None;
          Migration.version := 1;
          Migration.is_active := true |};
     Migration.parameters :=
       Some (JObj [("roughness", JFloat (QArith_base.Qmake 3 2));
                   ("slope", JInt 2)]) |}.

(** A prior row whose parameters map is the empty object. *)
Definition empty_parameters_row : Migration.row_before :=
  {| Migration.kept_before :=
       {| Migration.id := 2;
          Migration.profile_id := 1;
          Migration.training_metadata := None;
          Migration.version := 2;
          Migration.is_active := true |};
     Migration.parameters := Some (JObj []) |}.

(** A database with one custom profile of two parameters and no prior. *)
Definition gravel_profile : Db.CustomProfile.row :=
  {| Db.CustomProfile.id := 1;
     Db.CustomProfile.name := "gravel";
     Db.CustomProfile.description := None;
     Db.CustomProfile.parameters := ["roughness"; "slope"] |}.

Definition db_without_priors : Db.database R :=
  {| Db.custom_profiles := [gravel_profile];
     Db.profile_priors := [];
     Db.user_profiles := [];
     Db.learned_parameters := [] |}.

(** A configuration for that profile: version 1, a positive value for each
    of the two parameters. *)
Definition valid_parameters : list (string * json R) :=
  [("roughness", JFloat (3 / 2)%R); ("slope", JInt 2)].

Definition valid_config : json R :=
  JObj [("custom_profile_id", JInt 1);
        ("version", JInt 1);
        ("parameters", JObj valid_parameters);
        ("training_metadata",
         JObj [("routes_used", JNull);
               ("convergence_metric", JNull);
               ("notes", JStr "Manually configured priors")])].

(** The same database with a prior for the profile, and no user yet. *)
Definition gravel_prior : Db.ProfilePrior.row R :=
  {| Db.ProfilePrior.id := 5;
     Db.ProfilePrior.profile_id := 1;
     Db.ProfilePrior.means := JObj valid_parameters;
     Db.ProfilePrior.variances :=
       JObj [("roughness", JFloat (1 / 100)%R);
             ("slope", JFloat (1 / 100)%R)];
     Db.ProfilePrior.training_metadata := None;
     Db.ProfilePrior.version := 1;
     Db.ProfilePrior.is_active := true |}.

Definition db_with_prior : Db.database R :=
  {| Db.custom_profiles := [gravel_profile];
     Db.profile_priors := [gravel_prior];
     Db.user_profiles := [];
     Db.learned_parameters := [] |}.

Definition some_user : string := "123e4567-e89b-12d3-a456-426614174000".

(** The same prior with means that are a JSON array, not an object. *)
Definition array_means_prior : Db.ProfilePrior.row R :=
  {| Db.ProfilePrior.id := 5;
     Db.ProfilePrior.profile_id := 1;
     Db.ProfilePrior.means := JArr [JFloat (3 / 2)%R; JInt 2];
     Db.ProfilePrior.variances :=
       JObj [("roughness", JFloat (1 / 100)%R);
             ("slope", JFloat (1 / 100)%R)];
     Db.ProfilePrior.training_metadata := None;
     Db.ProfilePrior.version := 1;
     Db.ProfilePrior.is_active := true |}.

Definition db_with_array_means : Db.database R :=
  {| Db.custom_profiles := [gravel_profile];
     Db.profile_priors := [array_means_prior];
     Db.user_profiles := [];
     Db.learned_parameters := [] |}.

(** A database in which the user has a profile row for the profile, and
    that row has two rows of learned parameters that are flagged as
    priors. *)
Definition prior_flagged_row (id : Z) : Db.LearnedParameters.row R :=
  {| Db.LearnedParameters.id := id;
     Db.LearnedParameters.user_profile_id := 1;
     Db.LearnedParameters.parameters := JObj valid_parameters;
     Db.LearnedParameters.is_prior := true;
     Db.LearnedParameters.rating_count_at_generation := Some 0;
     Db.LearnedParameters.convergence_metrics := None |}.

Definition db_with_two_prior_rows : Db.database R :=
  {| Db.custom_profiles := [gravel_profile];
     Db.profile_priors := [gravel_prior];
     Db.user_profiles :=
       [{| Db.UserProfile.id := 1;
           Db.UserProfile.user_id := some_user;
           Db.UserProfile.profile_id := 1;
           Db.UserProfile.custom_name := None;
           Db.UserProfile.total_ratings := 0 |}];
     Db.learned_parameters := [prior_flagged_row 1; prior_flagged_row 2] |}.

(** A stand-in for the UUID parser: the canonical form has 36 characters. *)
Definition has_uuid_length (s : string) : bool :=
  Nat.eqb (String.length s) 36.

(** The response to a request that [empty_path_engine] serves. *)
Definition empty_path_response : RouteResponse R :=
  match execute_route_request empty_path_engine (47, 8)%R (48, 9)%R "bike"
          None config true None with
  | Ok r => r
  | Raise _ => failure_response "bike" None
  end.


(** The segments of the three coordinates, merged from the surface
    details. *)
Definition three_segments : list (RouteSegment R) :=
  match merge_detail_segments three_frontend (Some surface_details)
          three_distances with
  | Ok segs => segs
  | Raise _ => []
  end.

(** A detail name without a triple. *)
Definition empty_details : list (string * list (Z * Z * json R)) :=
  [("surface", [])].



(** A prior row after the migration, with variances that were learned. *)
Definition prior_row_after : Migration.row_after :=
  {| Migration.kept_after :=
       {| Migration.id := 1;
          Migration.profile_id := 1;
          Migration.training_metadata := None;
          Migration.version := 1;
          Migration.is_active := true |};
     Migration.means :=
       JObj [("roughness", JFloat (QArith_base.Qmake 3 2));
             ("slope", JInt 2)];
     Migration.variances :=
       JObj [("roughness", JFloat (QArith_base.Qmake 1 2));
             ("slope", JFloat (QArith_base.Qmake 1 4))] |}.

(** The outcome of a transfer of prior 5 for [some_user]. *)
Definition created_by_transfer : list Z :=
  match (TransferPriors.transfer_prior_to_learned_params has_uuid_length
           some_user [5] db_with_prior).1 with
  | Ok created => created
  | Raise _ => []
  end.

Definition db_after_transfer : Db.database R :=
  (TransferPriors.transfer_prior_to_learned_params has_uuid_length some_user
     [5] db_with_prior).2.

(** What [--create] writes for profile 1 of [db_with_prior]. *)
Definition generated_for_gravel : AddPriorConfig.generated R :=
  match AddPriorConfig.generate_prior_config 1 false db_with_prior with
  | Ok g => g
  | Raise _ => {| AddPriorConfig.header := [];
                 AddPriorConfig.document := JNull |}
  end.

End Examples.

(** ** Concrete inputs in binary64 *)

Module FloatExamples.
Import Stdlib.Floats.Floats.
Import Binary64.

(** Two points that are nearly opposite on the globe, 8 degrees north at
    longitude 0 and 8 degrees south at longitude 180, as lists
    [[lon, lat]] of doubles. *)
Definition antipodal_points : list (list float) :=
  [[float_of_Z 0; float_of_Z 8];
   [float_of_Z 180; float_of_Z (-8)]].

(** The sine and the cosine of the C library at the arguments that
    [haversine_distance] reaches for these two points: the doubles nearest
    to sin(-0.13962634015954636), which is -0.13917310096006544, to
    sin(1.5707963267948966), which is 1.0, and to
    cos(0.13962634015954636) and cos(-0.13962634015954636), which are
    0.9902680687415704 (glibc on x86-64, as [math.sin] and [math.cos]
    return them).  No other value is asked for; the table answers NaN
    elsewhere. *)
Definition libm_at_eight_degrees : libm :=
  {| libm_sin := λ x,
       if PrimFloat.eqb x (-0x1.1df46a2529d39p-3)%float
       then (-0x1.1d06c968d9e19p-3)%float
       else if PrimFloat.eqb x 0x1.921fb54442d18p+0%float then 1%float
       else PrimFloat.nan;
     libm_cos := λ x,
       if PrimFloat.eqb (PrimFloat.abs x) 0x1.1df46a2529d39p-3%float
       then 0x1.fb046a930947ap-1%float
       else PrimFloat.nan;
     libm_atan2 := λ _ _, PrimFloat.nan |}.

End FloatExamples.

(* ================================================================== *)
(** * Part II: properties                                              *)
(* ================================================================== *)

(** ** Facts about the Python fragment *)

Module PyFacts.

Lemma for_loop_app {S A} (xs ys : list A) (body : S → A → result S) s :
for_loop (xs ++ ys) body s = (s' ← for_loop xs body s; for_loop ys body s').
Proof.
revert s. induction xs as [|x xs IH]; intros s; simpl; [done|].
destruct (body s x) as [s'|e]; simpl; [apply IH | done].
Qed.

Lemma len_nonneg {A} (l : list A) : 0 ≤ len l.
Proof. unfold len. lia. Qed.

Lemma getitem_lookup {A} (l : list A) (i : nat) x :
l !! i = Some x → getitem l (Z.of_nat i) = Ok x.
Proof.
intros Hx. unfold getitem.
destruct (Z.ltb_spec (Z.of_nat i) 0) as [?|_]; [lia|].
destruct (Z.ltb_spec (Z.of_nat i) 0) as [?|_]; [lia|].
by rewrite Nat2Z.id, Hx.
Qed.

Lemma getitem_nonneg {A} (l : list A) (i : Z) x :
  0 ≤ i → l !! Z.to_nat i = Some x → getitem l i = Ok x.
Proof.
  intros Hi Hx. rewrite <- (Z2Nat.id i) by done. by apply getitem_lookup.
Qed.


Lemma getitem_last {A} (l : list A) x :
last l = Some x → getitem l (-1) = Ok x.
Proof.
intros Hx. unfold getitem. simpl.
assert (0 < length l)%nat as Hlen.
{ destruct l; simpl in *; [done | lia]. }
destruct (Z.ltb_spec (-1 + len l) 0) as [Hneg|_].
{ unfold len in Hneg. lia. }
rewrite last_lookup in Hx.
replace (Z.to_nat (-1 + len l)) with (pred (length l))
  by (unfold len; lia).
by rewrite Hx.
Qed.

Lemma range_nat (a : Z) (k : nat) : range a (a + Z.of_nat k) = seqZ a (Z.of_nat k).
Proof. unfold range. f_equal. lia. Qed.

(** A loop that appends one computed element per iteration builds the image
    of the list it runs over. *)
Lemma for_loop_append {A B} (xs : list A)
    (body : list B → A → result (list B)) (g : A → B) acc :
  (∀ acc x, x ∈ xs → body acc x = Ok (acc ++ [g x])) →
  for_loop xs body acc = Ok (acc ++ (g <$> xs)).
Proof.
  revert acc. induction xs as [|x xs IH]; intros acc Hbody; simpl.
  - by rewrite app_nil_r.
  - rewrite Hbody by left. simpl. rewrite IH.
    + by rewrite <- app_assoc.
    + intros acc' y Hy. apply Hbody. by right.
Qed.

Lemma bind_Ok {A B} (m : result A) (f : A → result B) b :
  (m ≫= f) = Ok b → ∃ a, m = Ok a ∧ f a = Ok b.
Proof. destruct m as [a|e]; simpl; [eauto | done]. Qed.

Lemma fmap_Ok {A B} (m : result A) (f : A → B) b :
  f <$> m = Ok b → ∃ a, m = Ok a ∧ b = f a.
Proof. destruct m as [a|e]; simpl; [|done]. intros [= <-]. eauto. Qed.

(** A loop whose body adds one element adds one element per iteration. *)
Lemma for_loop_length {A B} (xs : list A)
    (body : list B → A → result (list B)) acc r :
  (∀ acc x r, body acc x = Ok r → length r = S (length acc)) →
  for_loop xs body acc = Ok r →
  length r = (length acc + length xs)%nat.
Proof.
  intros Hbody. revert acc. induction xs as [|x xs IH]; intros acc; simpl.
  - intros [= <-]. lia.
  - intros (acc' & Hacc' & Hr)%bind_Ok.
    apply IH in Hr. apply Hbody in Hacc'. lia.
Qed.

Lemma comprehension_Ok {A B} (f : A → result B) (xs : list A) ys :
  comprehension f xs = Ok ys → Forall2 (λ x y, f x = Ok y) xs ys.
Proof.
  revert ys. induction xs as [|x xs IH]; intros ys; simpl.
  - intros [= <-]. constructor.
  - intros (y & Hy & (ys' & Hys' & [= <-])%bind_Ok)%bind_Ok.
    constructor; [done | by apply IH].
Qed.

Lemma comprehension_map {A B} (f : A → result B) (g : A → B) (xs : list A) :
  (∀ x, x ∈ xs → f x = Ok (g x)) → comprehension f xs = Ok (g <$> xs).
Proof.
  induction xs as [|x xs IH]; intros Hf; simpl; [done|].
  rewrite Hf by left. simpl. rewrite IH; [done|].
  intros y Hy. apply Hf. by right.
Qed.

Lemma comprehension_Forall2 {A B} (f : A → result B) (xs : list A) ys :
  Forall2 (λ x y, f x = Ok y) xs ys → comprehension f xs = Ok ys.
Proof.
  induction 1 as [|x y xs ys Hxy _ IH]; simpl; [done|].
  by rewrite Hxy, IH.
Qed.

Lemma comprehension_length {A B} (f : A → result B) (xs : list A) ys :
  comprehension f xs = Ok ys → length ys = length xs.
Proof. intros Hys%comprehension_Ok. symmetry. by eapply Forall2_length. Qed.











Lemma for_loop_invariant {S A} (I : S → Prop) (xs : list A)
    (body : S → A → result S) s r :
  (∀ s x s', x ∈ xs → I s → body s x = Ok s' → I s') →
  I s → for_loop xs body s = Ok r → I r.
Proof.
  revert s. induction xs as [|x xs IH]; intros s Hbody Hs; simpl.
  - by intros [= <-].
  - intros (s' & Hs' & Hr)%bind_Ok. apply (IH s'); [|by eapply Hbody; [left|..]|done].
    intros s0 y s0' Hy. apply Hbody. by right.
Qed.

Lemma assoc_fmap_value {A B} (f : A → B) (k : string) (m : list (string * A)) :
  assoc k ((λ item : string * A, (item.1, f item.2)) <$> m)
  = f <$> assoc k m.
Proof.
  induction m as [|[k' v] m IH]; simpl; [done|].
  destruct (String.eqb k k'); [done|apply IH].
Qed.

Lemma assoc_None_keys {A} (k : string) (m : list (string * A)) :
  assoc k m = None ↔ k ∉ m.*1.
Proof.
  induction m as [|[k' v'] m IH]; simpl.
  - split; [intros _ Hin; by apply elem_of_nil in Hin|done].
  - rewrite not_elem_of_cons. destruct (String.eqb_spec k k') as [->|Hne].
    + split; [done|]. intros [? _]. done.
    + rewrite IH. split; [done|]. intros [_ ?]. done.
Qed.

Lemma dict_set_keys {A} (k : string) (v : A) (m : list (string * A)) :
  (list_to_set (dict_set k v m).*1 : gset string)
  = {[k]} ∪ list_to_set m.*1.
Proof.
  induction m as [|[k' v'] m IH]; [done|].
  cbn [dict_set]. destruct (String.eqb_spec k k') as [->|Hne].
  - rewrite !fmap_cons, !list_to_set_cons. cbn [fst].
    by rewrite (assoc_L (∪)), (idemp_L (∪)).
  - rewrite !fmap_cons, !list_to_set_cons, IH. cbn [fst].
    by rewrite !(assoc_L (∪)), (comm_L (∪) {[k']}).
Qed.

Lemma dict_set_Forall {A} (P : string * A → Prop) (k : string) (v : A)
    (m : list (string * A)) :
  P (k, v) → Forall P m → Forall P (dict_set k v m).
Proof.
  intros Hkv. induction 1 as [|[k' v'] m Hk' Hm IH]; simpl.
  - by repeat constructor.
  - destruct (String.eqb_spec k k') as [->|Hne]; by constructor.
Qed.

Lemma dict_comprehension_keys {A} (f : string → A) (keys : list string) :
  (list_to_set (dict_comprehension f keys).*1 : gset string)
  = list_to_set keys.
Proof.
  unfold dict_comprehension.
  assert (∀ acc : list (string * A),
            (list_to_set (foldl (λ d k, dict_set k (f k) d) acc keys).*1
               : gset string)
            = list_to_set acc.*1 ∪ list_to_set keys) as Hgen.
  { induction keys as [|k keys IH]; intros acc.
    - simpl. by rewrite (right_id_L ∅ (∪)).
    - cbn [foldl]. rewrite IH, dict_set_keys, list_to_set_cons.
      by rewrite (comm_L (∪) {[k]}), (assoc_L (∪)). }
  rewrite Hgen. simpl. by rewrite (left_id_L ∅ (∪)).
Qed.

Lemma dict_comprehension_Forall {A} (P : string * A → Prop) (f : string → A)
    (keys : list string) :
  Forall (λ k, P (k, f k)) keys → Forall P (dict_comprehension f keys).
Proof.
  unfold dict_comprehension. intros Hall.
  assert (∀ acc, Forall P acc
                 → Forall P (foldl (λ d k, dict_set k (f k) d) acc keys))
    as Hgen.
  { induction Hall as [|k keys Hk _ IH]; intros acc Hacc; simpl; [done|].
    apply IH. by apply dict_set_Forall. }
  apply Hgen. constructor.
Qed.

End PyFacts.
Import PyFacts.

(** ** services.py: distances *)

Module ServicesFacts.
Import Services.

Section Distances.
Context {F : Type} `{FloatOps F}.

Lemma well_formed_getitem (c : list F) :
  (2 ≤ length c)%nat →
  getitem c 1 = Ok (lat_of c) ∧ getitem c 0 = Ok (lon_of c).
Proof.
  destruct c as [|x [|y c]]; simpl; intros; try lia. done.
Qed.

Lemma consecutive_snoc {A} (l : list A) p q :
  last l = Some p → consecutive (l ++ [q]) = consecutive l ++ [(p, q)].
Proof.
  unfold consecutive. induction l as [|a [|b l] IH]; simpl; intros Hl.
  - done.
  - by injection Hl as ->.
  - f_equal. apply IH. done.
Qed.





Lemma haversine_sum_snoc (l : list (list F)) p q :
  last l = Some p →
  haversine_sum (l ++ [q])
  = (acc ← haversine_sum l; d ← leg p q; Ok (acc + d)%fl).
Proof.
  intros Hl. unfold haversine_sum.
  rewrite (consecutive_snoc _ p q Hl), for_loop_app.
  destruct (for_loop (consecutive l) _ f0) as [acc|e]; simpl; [|done].
  by destruct (leg p q).
Qed.

Lemma haversine_sum_short (l : list (list F)) :
  (length l ≤ 1)%nat → haversine_sum l = Ok f0.
Proof. destruct l as [|c [|c' l]]; simpl; intros; [done|done|lia]. Qed.


Lemma last_take_S {A} (l : list A) (k : nat) x :
  l !! k = Some x → last (take (S k) l) = Some x.
Proof.
  intros Hx. pose proof (lookup_lt_Some _ _ _ Hx) as Hk.
  rewrite last_lookup, length_take, Nat.min_l by lia. simpl.
  by rewrite lookup_take_lt by lia.
Qed.

(** The sum of the first [k + 2] coordinates, from that of the first
    [k + 1]. *)
Lemma haversine_sum_take_S (coordinates : list (list F)) (k : nat) p q :
  coordinates !! k = Some p → coordinates !! S k = Some q →
  haversine_sum (take (S (S k)) coordinates)
  = (acc ← haversine_sum (take (S k) coordinates);
     d ← leg p q; Ok (acc + d)%fl).
Proof.
  intros Hp Hq. rewrite (take_S_r _ _ _ Hq).
  apply haversine_sum_snoc. by apply last_take_S.
Qed.

Lemma cumulative_body_step coordinates (k : nat) p q ds d :
  coordinates !! k = Some p → coordinates !! S k = Some q →
  (2 ≤ length p)%nat → (2 ≤ length q)%nat →
  last ds = Some d →
  cumulative_body coordinates ds (1 + Z.of_nat k)
  = (dist ← leg p q; Ok (ds ++ [(d + dist)%fl])).
Proof.
  intros Hp Hq Hlp Hlq Hd. unfold cumulative_body.
  replace (1 + Z.of_nat k - 1) with (Z.of_nat k) by lia.
  rewrite (getitem_lookup _ _ _ Hp). simpl.
  destruct (well_formed_getitem p Hlp) as [-> ->]. simpl.
  replace (1 + Z.of_nat k) with (Z.of_nat (S k)) by lia.
  rewrite (getitem_lookup _ _ _ Hq). simpl.
  destruct (well_formed_getitem q Hlq) as [-> ->]. simpl.
  unfold leg. destruct (haversine_distance _ _ _ _) as [dist|e]; [|done].
  simpl. by rewrite (getitem_last _ _ Hd).
Qed.

(** The loop over the first [k + 1] coordinates: it returns when their
    haversine sum is there, with one entry per coordinate, each the sum of
    the coordinates up to it; it raises what the sum raises. *)
Lemma cumulative_prefix coordinates (k : nat) :
  well_formed coordinates → (S k ≤ length coordinates)%nat →
  match haversine_sum (take (S k) coordinates) with
  | Ok t =>
      ∃ ds, for_loop (seqZ 1 (Z.of_nat k)) (cumulative_body coordinates) [f0]
            = Ok ds
        ∧ length ds = S k
        ∧ last ds = Some t
        ∧ ∀ i : nat, (i ≤ k)%nat →
            ∃ d, ds !! i = Some d
              ∧ haversine_sum (take (S i) coordinates) = Ok d
  | Raise e =>
      for_loop (seqZ 1 (Z.of_nat k)) (cumulative_body coordinates) [f0]
      = Raise e
  end.
Proof.
  intros Hwf. induction k as [|k IH]; intros Hk.
  - rewrite haversine_sum_short by (rewrite length_take; lia).
    exists [f0]. split; [done|]. split; [done|]. split; [done|].
    intros i Hi. assert (i = 0%nat) as -> by lia.
    exists f0. split; [done|].
    apply haversine_sum_short. rewrite length_take. lia.
  - specialize (IH ltac:(lia)).
    destruct (lookup_lt_is_Some_2 coordinates k) as [p Hp]; [lia|].
    destruct (lookup_lt_is_Some_2 coordinates (S k)) as [q Hq]; [lia|].
    assert (2 ≤ length p)%nat as Hlp.
    { eapply (Forall_lookup_1 _ _ _ _ Hwf Hp). }
    assert (2 ≤ length q)%nat as Hlq.
    { eapply (Forall_lookup_1 _ _ _ _ Hwf Hq). }
    rewrite (haversine_sum_take_S _ _ _ _ Hp Hq).
    rewrite seqZ_S, for_loop_app.
    destruct (haversine_sum (take (S k) coordinates)) as [t|e] eqn:Hsum;
      simpl.
    + destruct IH as (ds & Hloop & Hlen & Hlast & Hentries).
      rewrite Hloop. simpl.
      rewrite (cumulative_body_step _ _ _ _ _ _ Hp Hq Hlp Hlq Hlast).
      destruct (leg p q) as [d|e] eqn:Hleg; simpl; [|done].
      exists (ds ++ [(t + d)%fl]). split; [done|].
      split; [rewrite length_app; simpl; lia|].
      split; [by rewrite last_snoc|].
      intros i Hi. destruct (decide (i ≤ k)%nat) as [Hle|Hgt].
      * rewrite lookup_app_l by lia. by apply Hentries.
      * assert (i = S k) as -> by lia. exists (t + d)%fl. split.
        -- rewrite lookup_app_r by lia. rewrite Hlen, Nat.sub_diag. done.
        -- rewrite (haversine_sum_take_S _ _ _ _ Hp Hq), Hsum. simpl.
           by rewrite Hleg.
    + by rewrite IH.
Qed.

(** The function on coordinates that each hold a longitude and a latitude:
    it returns when the haversine sum of the coordinates is there, and it
    raises what that sum raises. *)
Lemma calculate_cumulative_distances_sum coordinates :
  well_formed coordinates → (1 ≤ length coordinates)%nat →
  match haversine_sum coordinates with
  | Ok t =>
      ∃ ds, calculate_cumulative_distances coordinates = Ok ds
        ∧ length ds = length coordinates
        ∧ last ds = Some t
        ∧ ∀ i : nat, (i < length coordinates)%nat →
            ∃ d, ds !! i = Some d
              ∧ haversine_sum (take (S i) coordinates) = Ok d
  | Raise e => calculate_cumulative_distances coordinates = Raise e
  end.
Proof.
  intros Hwf Hn. unfold calculate_cumulative_distances.
  pose proof (cumulative_prefix coordinates (pred (length coordinates)) Hwf
                ltac:(lia)) as Hprefix.
  replace (S (pred (length coordinates))) with (length coordinates)
    in Hprefix by lia.
  rewrite firstn_all in Hprefix.
  replace (len coordinates)
    with (1 + Z.of_nat (pred (length coordinates)))
    by (unfold len; lia).
  rewrite range_nat.
  destruct (haversine_sum coordinates) as [t|e]; [|done].
  destruct Hprefix as (ds & Hloop & Hlen & Hlast & Hentries).
  exists ds. split; [done|]. split; [lia|]. split; [done|].
  intros i Hi. apply Hentries. lia.
Qed.

Lemma cumulative_body_appends (coordinates : list (list F)) ds i r :
  cumulative_body coordinates ds i = Ok r → ∃ x, r = ds ++ [x].
Proof.
  unfold cumulative_body. intros Hr.
  repeat (apply bind_Ok in Hr as (? & _ & Hr)).
  injection Hr as <-. eauto.
Qed.

Lemma calculate_cumulative_distances_short coordinates :
  (length coordinates ≤ 1)%nat →
  calculate_cumulative_distances coordinates = Ok [f0].
Proof.
  intros Hn. unfold calculate_cumulative_distances, range, len.
  destruct coordinates as [|c [|c' cs]]; simpl in *; [done|done|lia].
Qed.



Lemma entries_increments (coordinates : list (list F)) (ds : list F) :
  (∀ i : nat, (i < length coordinates)%nat →
     ∃ d, ds !! i = Some d
       ∧ haversine_sum (take (S i) coordinates) = Ok d) →
  increments coordinates ds.
Proof.
  intros Hentries i p q x y Hp Hq Hx Hy.
  destruct (Hentries i) as (x' & Hx' & Hsumx).
  { apply lookup_lt_Some in Hp. lia. }
  destruct (Hentries (S i)) as (y' & Hy' & Hsumy).
  { by apply lookup_lt_Some in Hq. }
  rewrite Hx in Hx'. injection Hx' as <-.
  rewrite Hy in Hy'. injection Hy' as <-.
  rewrite (haversine_sum_take_S _ _ _ _ Hp Hq), Hsumx in Hsumy.
  simpl in Hsumy. destruct (leg p q) as [d|e]; [|done].
  injection Hsumy as <-. eauto.
Qed.








(** The pairs of consecutive coordinates, by index. *)
Lemma elem_of_consecutive {A} (l : list A) p q :
  (p, q) ∈ consecutive l ↔ ∃ i : nat, l !! i = Some p ∧ l !! S i = Some q.
Proof.
  unfold consecutive. rewrite list_elem_of_lookup. split.
  - intros [i Hi]. exists i. apply lookup_zip_with_Some in Hi
      as (x & y & [= <- <-] & Hx & Hy).
    split; [done|]. by rewrite <- lookup_tail.
  - intros (i & Hp & Hq). exists i. apply lookup_zip_with_Some.
    exists p, q. split; [done|]. split; [done|]. by rewrite lookup_tail.
Qed.

(** The haversine sum is there exactly when the haversine distance of every
    pair of consecutive coordinates is. *)
Lemma haversine_sum_Ok_iff (coordinates : list (list F)) :
  (∃ t, haversine_sum coordinates = Ok t)
  ↔ ∀ (i : nat) p q,
      coordinates !! i = Some p → coordinates !! S i = Some q →
      ∃ d, leg p q = Ok d.
Proof.
  unfold haversine_sum.
  assert (∀ (pairs : list (list F * list F)) acc,
            (∃ t, for_loop pairs
                    (λ acc pq, d ← leg pq.1 pq.2; Ok (acc + d)%fl) acc = Ok t)
            ↔ ∀ p q, (p, q) ∈ pairs → ∃ d, leg p q = Ok d) as Hloop.
  { induction pairs as [|[p q] pairs IH]; intros acc; simpl.
    - split; [|eauto]. intros _ p q Hin. by apply elem_of_nil in Hin.
    - destruct (leg p q) as [d|e] eqn:Hleg; simpl.
      + rewrite IH. split.
        * intros Hall p' q' [[= -> ->]|Hin]%elem_of_cons; eauto.
        * intros Hall p' q' Hin. apply Hall. by right.
      + split; [by intros [t ?]|]. intros Hall.
        destruct (Hall p q ltac:(by left)) as [d Hd]. congruence. }
  rewrite Hloop. split.
  - intros Hall i p q Hp Hq. apply Hall, elem_of_consecutive. eauto.
  - intros Hall p q (i & Hp & Hq)%elem_of_consecutive. eauto.
Qed.
End Distances.

(** ** services.py: the elevation profile *)

Section Elevation.
Context {F : Type} `{FloatOps F}.

Lemma json_len_iterate (v : json F) items :
  iterate v = Ok items → json_len v = Ok (len items).
Proof.
  destruct v; simpl; try done; intros [= <-]; f_equal; unfold len;
    by rewrite !length_fmap.
Qed.




Lemma create_elevation_profile_short (coordinates : json F) items ds :
  iterate coordinates = Ok items → (length items < 2)%nat →
  create_elevation_profile_from_coordinates coordinates ds = Ok [].
Proof.
  intros Hitems Hn. unfold create_elevation_profile_from_coordinates.
  rewrite (json_len_iterate _ _ Hitems). simpl.
  destruct (Z.ltb_spec (len items) 2) as [_|Hge]; [done|].
  unfold len in Hge. lia.
Qed.


End Elevation.

(** ** services.py: the detail-segment merge *)

Section Merge.
Context {F : Type} `{FloatOps F}.

Lemma clamp_range (n x : Z) : 1 ≤ n → 0 ≤ clamp n x ≤ n - 1.
Proof. unfold clamp. lia. Qed.

Lemma cuts_ok_add (n x : Z) (cuts : gset Z) :
  1 ≤ n → cuts_ok n cuts → cuts_ok n ({[clamp n x]} ∪ cuts).
Proof.
  intros Hn (H0 & Hlast & Hrange). split; [|split].
  - by apply elem_of_union_r.
  - by apply elem_of_union_r.
  - intros y [Hy|Hy]%elem_of_union; [|by apply Hrange].
    apply elem_of_singleton in Hy as ->. by apply clamp_range.
Qed.

Lemma collect_cuts_ok (n : Z) details_data :
  1 ≤ n → cuts_ok n (collect_cuts (F := F) n details_data).
Proof.
  intros Hn. unfold collect_cuts.
  assert (cuts_ok n ({[0; n - 1]} : gset Z)) as Hinit.
  { split; [set_solver|]. split; [set_solver|].
    intros x [->%elem_of_singleton| ->%elem_of_singleton]%elem_of_union; lia. }
  revert Hinit. generalize ({[0; n - 1]} : gset Z).
  induction details_data as [|[name detail_list] rest IH]; intros cuts Hcuts.
  - done.
  - simpl. apply IH. clear IH. revert cuts Hcuts.
    induction detail_list as [|[[a b] v] dl IHdl]; intros cuts Hcuts.
    + done.
    + simpl. apply IHdl.
      apply cuts_ok_add; [done|]. by apply cuts_ok_add.
Qed.

Lemma StronglySorted_lookup_le (l : list Z) (i j : nat) x y :
  StronglySorted Z.le l → (i < j)%nat →
  l !! i = Some x → l !! j = Some y → x ≤ y.
Proof.
  intros Hs. revert i j. induction Hs as [|a l Hs IH Hall]; intros i j Hij Hx Hy.
  - done.
  - destruct j as [|j]; [lia|]. simpl in Hy.
    destruct i as [|i]; simpl in Hx.
    + injection Hx as ->.
      eapply (Forall_lookup_1 _ _ _ _ Hall Hy).
    + apply (IH i j); [lia|done|done].
Qed.

(** [sorted(cuts)] lists the members of [cuts], each once, in increasing
    order. *)
Lemma elem_of_sorted (cuts : gset Z) x : x ∈ sorted cuts ↔ x ∈ cuts.
Proof.
  unfold sorted. rewrite merge_sort_Permutation. apply elem_of_elements.
Qed.

Lemma NoDup_sorted (cuts : gset Z) : NoDup (sorted cuts).
Proof.
  unfold sorted. rewrite merge_sort_Permutation. apply NoDup_elements.
Qed.

Lemma sorted_increasing (cuts : gset Z) (i j : nat) x y :
  (i < j)%nat → sorted cuts !! i = Some x → sorted cuts !! j = Some y →
  x < y.
Proof.
  intros Hij Hx Hy.
  assert (x ≤ y) as Hle.
  { apply (StronglySorted_lookup_le (sorted cuts) i j); try done.
    unfold sorted. apply StronglySorted_merge_sort; apply _. }
  assert (x ≠ y) as Hne.
  { intros ->. pose proof (NoDup_lookup _ _ _ _ (NoDup_sorted cuts) Hx Hy).
    lia. }
  lia.
Qed.

Lemma sorted_head (n : Z) (cuts : gset Z) :
  cuts_ok n cuts → sorted cuts !! 0%nat = Some 0.
Proof.
  intros (H0 & _ & Hrange).
  apply elem_of_sorted, list_elem_of_lookup in H0 as [j Hj].
  destruct j as [|j]; [done|].
  destruct (lookup_lt_is_Some_2 (sorted cuts) 0) as [x Hx].
  { apply lookup_lt_Some in Hj. lia. }
  assert (x < 0) by (apply (sorted_increasing cuts 0 (S j)); [lia|done..]).
  assert (0 ≤ x ≤ n - 1).
  { apply Hrange, elem_of_sorted, list_elem_of_lookup. eauto. }
  lia.
Qed.

Lemma sorted_last (n : Z) (cuts : gset Z) :
  cuts_ok n cuts → last (sorted cuts) = Some (n - 1).
Proof.
  intros (_ & Hlast & Hrange). rewrite last_lookup.
  apply elem_of_sorted, list_elem_of_lookup in Hlast as [j Hj].
  pose proof (lookup_lt_Some _ _ _ Hj) as Hlt.
  destruct (decide (j = pred (length (sorted cuts)))) as [->|Hne]; [done|].
  destruct (lookup_lt_is_Some_2 (sorted cuts) (pred (length (sorted cuts))))
    as [x Hx]; [lia|].
  assert (n - 1 < x).
  { apply (sorted_increasing cuts j (pred (length (sorted cuts))));
      [lia|done..]. }
  assert (0 ≤ x ≤ n - 1).
  { apply Hrange, elem_of_sorted, list_elem_of_lookup. eauto. }
  lia.
Qed.

Lemma sorted_length (n : Z) (cuts : gset Z) :
  2 ≤ n → cuts_ok n cuts → (2 ≤ length (sorted cuts))%nat.
Proof.
  intros Hn Hok. pose proof (sorted_head n cuts Hok) as Hhd.
  pose proof (sorted_last n cuts Hok) as Hlast.
  rewrite last_lookup in Hlast.
  destruct (sorted cuts) as [|a [|b l]]; simpl in *; [done| |lia].
  simplify_eq. lia.
Qed.

Lemma lookup_consecutive {A} (l : list A) (i : nat) x y :
  consecutive l !! i = Some (x, y) ↔ l !! i = Some x ∧ l !! S i = Some y.
Proof.
  unfold consecutive. rewrite lookup_zip_with_Some. split.
  - intros (a & b & [= -> ->] & Ha & Hb). by rewrite lookup_tail in Hb.
  - intros [Hx Hy]. exists x, y. by rewrite lookup_tail.
Qed.

Lemma length_consecutive {A} (l : list A) :
  length (consecutive l) = pred (length l).
Proof.
  unfold consecutive. rewrite length_zip_with, length_tl. lia.
Qed.

(** Between consecutive cuts the guard [s < e] always holds. *)
Lemma raw_segments_sorted (cuts : gset Z) :
  raw_segments (sorted cuts) = consecutive (sorted cuts).
Proof.
  unfold raw_segments. fold (consecutive (sorted cuts)).
  assert (Forall (λ se : Z * Z, se.1 < se.2) (consecutive (sorted cuts)))
    as Hall.
  { apply Forall_lookup. intros i [s e] Hse.
    apply lookup_consecutive in Hse as [Hs He]. simpl.
    apply (sorted_increasing cuts i (S i)); [lia|done..]. }
  induction Hall as [|se l Hse Hall IH]; [done|].
  rewrite filter_cons_True by done. by rewrite IH.
Qed.

Lemma elem_of_consecutive_sorted (n : Z) (cuts : gset Z) (s e : Z) :
  cuts_ok n cuts → (s, e) ∈ consecutive (sorted cuts) →
  0 ≤ s < e ∧ e ≤ n - 1.
Proof.
  intros Hok Hin. apply list_elem_of_lookup in Hin as [i Hi].
  apply lookup_consecutive in Hi as [Hs He].
  pose proof (sorted_increasing cuts i (S i) s e ltac:(lia) Hs He).
  destruct Hok as (_ & _ & Hrange).
  assert (0 ≤ s ≤ n - 1).
  { apply Hrange, elem_of_sorted, list_elem_of_lookup. eauto. }
  assert (0 ≤ e ≤ n - 1).
  { apply Hrange, elem_of_sorted, list_elem_of_lookup. eauto. }
  lia.
Qed.

(** With at least two coordinates and a distance per coordinate, the merge
    returns the segments of the consecutive cuts. *)
Lemma merge_detail_segments_eq (coordinates : list (list F)) details_data
    (coordinate_distances : list F) :
  (2 ≤ length coordinates)%nat →
  (length coordinates ≤ length coordinate_distances)%nat →
  let n := len coordinates in
  let details := default [] details_data in
  merge_detail_segments coordinates details_data coordinate_distances
  = Ok (segment_of n details coordinate_distances
          <$> consecutive (sorted (collect_cuts n details))).
Proof.
  intros Hn Hds n details. unfold merge_detail_segments.
  fold n. fold details.
  assert (2 ≤ n) as Hn2 by (unfold n, len; lia).
  destruct (Z.ltb_spec n 2) as [?|_]; [lia|].
  pose proof (collect_cuts_ok n details ltac:(lia)) as Hok.
  pose proof (sorted_length n _ Hn2 Hok) as Hlen.
  destruct (Z.ltb_spec (len (sorted (collect_cuts n details))) 2) as [Hlt|_].
  { unfold len in Hlt. lia. }
  rewrite raw_segments_sorted.
  pose proof (length_consecutive (sorted (collect_cuts n details))) as Hlc.
  destruct (consecutive (sorted (collect_cuts n details))) as [|se0 raw] eqn:Hraw.
  { simpl in Hlc. lia. }
  rewrite <- Hraw.
  rewrite (for_loop_append _ _ (segment_of n details coordinate_distances));
    [done|].
  intros acc [s e] Hin.
  destruct (elem_of_consecutive_sorted n _ s e Hok Hin) as [Hs He].
  destruct (lookup_lt_is_Some_2 coordinate_distances (Z.to_nat s)) as [ds Hds'].
  { unfold n, len in *. lia. }
  destruct (lookup_lt_is_Some_2 coordinate_distances (Z.to_nat e)) as [de Hde].
  { unfold n, len in *. lia. }
  rewrite (getitem_nonneg _ s ds) by (done || lia). simpl.
  rewrite (getitem_nonneg _ e de) by (done || lia). simpl.
  unfold segment_of. simpl. by rewrite Hds', Hde.
Qed.

(** The segments tile the index range of the route. *)
Lemma merge_detail_segments_spec (coordinates : list (list F)) details_data
    (coordinate_distances : list F) :
  (2 ≤ length coordinates)%nat →
  (length coordinates ≤ length coordinate_distances)%nat →
  ∃ segs,
    merge_detail_segments coordinates details_data coordinate_distances
    = Ok segs
    ∧ start_index <$> head segs = Some 0
    ∧ end_index <$> last segs = Some (len coordinates - 1)
    ∧ (∀ seg, seg ∈ segs → 0 ≤ start_index seg < end_index seg)
    ∧ (∀ (i : nat) seg seg',
         segs !! i = Some seg → segs !! S i = Some seg' →
         end_index seg = start_index seg')
    ∧ (∀ seg, seg ∈ segs →
         coordinate_distances !! Z.to_nat (start_index seg)
         = Some (start_distance seg)
         ∧ coordinate_distances !! Z.to_nat (end_index seg)
           = Some (end_distance seg)).
Proof.
  intros Hn Hds.
  rewrite merge_detail_segments_eq by done.
  set (n := len coordinates). set (details := default [] details_data).
  set (L := sorted (collect_cuts n details)).
  assert (2 ≤ n) as Hn2 by (unfold n, len; lia).
  pose proof (collect_cuts_ok n details ltac:(lia)) as Hok.
  pose proof (sorted_length n _ Hn2 Hok) as Hlen. fold L in Hlen.
  pose proof (sorted_head n _ Hok) as Hhd. fold L in Hhd.
  pose proof (sorted_last n _ Hok) as Hlast. fold L in Hlast.
  eexists. split; [done|]. split; [|split; [|split; [|split]]].
  - rewrite head_lookup, list_lookup_fmap.
    destruct (lookup_lt_is_Some_2 L 1) as [e He]; [lia|].
    assert (consecutive L !! 0%nat = Some (0, e)) as ->.
    { by apply lookup_consecutive. }
    done.
  - rewrite fmap_last, last_lookup, length_consecutive.
    rewrite last_lookup in Hlast.
    destruct (lookup_lt_is_Some_2 L (pred (pred (length L)))) as [s Hs];
      [lia|].
    assert (consecutive L !! pred (pred (length L)) = Some (s, n - 1)) as ->.
    { apply lookup_consecutive. split; [done|].
      replace (S (pred (pred (length L)))) with (pred (length L)) by lia.
      done. }
    done.
  - intros seg [[s e] [-> Hin]]%list_elem_of_fmap. simpl.
    destruct (elem_of_consecutive_sorted n _ s e Hok Hin). lia.
  - intros i seg seg'. rewrite !list_lookup_fmap.
    destruct (consecutive L !! i) as [[s e]|] eqn:Hi; [|done].
    destruct (consecutive L !! S i) as [[s' e']|] eqn:Hi'; [|done].
    simpl. intros [= <-] [= <-]. simpl.
    apply lookup_consecutive in Hi as [_ He].
    apply lookup_consecutive in Hi' as [Hs' _]. congruence.
  - intros seg [[s e] [-> Hin]]%list_elem_of_fmap. simpl.
    destruct (elem_of_consecutive_sorted n _ s e Hok Hin) as [Hs He].
    destruct (lookup_lt_is_Some_2 coordinate_distances (Z.to_nat s))
      as [ds ->].
    { unfold n, len in *. lia. }
    destruct (lookup_lt_is_Some_2 coordinate_distances (Z.to_nat e))
      as [de ->].
    { unfold n, len in *. lia. }
    done.
Qed.

Lemma is_missing_spec (v : json F) : is_missing v = true ↔ v ∈ missing_values.
Proof.
  unfold missing_values. destruct v as [| | | |s| |]; simpl;
    try (split; [done|]; intros Hin; repeat (apply elem_of_cons in Hin
      as [?|Hin]; [done|]); by apply elem_of_nil in Hin).
  - split; [intros _; left|done].
  - rewrite bool_decide_eq_true. split.
    + intros Hin. right. revert Hin. rewrite !elem_of_cons.
      intros [->|[->|[->|[->|[]%elem_of_nil]]]]; set_solver.
    + rewrite !elem_of_cons. intros [?|[[= ->]|[[= ->]|[[= ->]|[[= ->]|[]%elem_of_nil]]]]];
        [done|set_solver..].
Qed.

(** The value assigned to a range is decided by the first triple that
    covers it. *)
Lemma value_for_segment_first (n : Z) (pre post : list (Z * Z * json F))
    a b v s e :
  Forall (λ t : Z * Z * json F, ¬ covers n t.1.1 t.1.2 s e) pre →
  covers n a b s e →
  value_for_segment n (pre ++ (a, b, v) :: post) s e
  = if is_missing v then JStr "unknown" else v.
Proof.
  intros Hpre [Ha Hb]. induction Hpre as [|[[a' b'] v'] pre Hno _ IH]; simpl.
  - destruct (Z.leb_spec (clamp n a) s); [|lia].
    destruct (Z.leb_spec e (clamp n b)); [|lia]. done.
  - unfold covers in Hno. simpl in Hno.
    destruct (Z.leb_spec (clamp n a') s);
      destruct (Z.leb_spec e (clamp n b')); simpl; try done. lia.
Qed.

Lemma value_for_segment_none (n : Z) (detail_list : list (Z * Z * json F))
    s e :
  Forall (λ t : Z * Z * json F, ¬ covers n t.1.1 t.1.2 s e) detail_list →
  value_for_segment n detail_list s e = JStr "unknown".
Proof.
  induction 1 as [|[[a b] v] l Hno _ IH]; simpl; [done|].
  unfold covers in Hno. simpl in Hno.
  destruct (Z.leb_spec (clamp n a) s);
    destruct (Z.leb_spec e (clamp n b)); simpl; try done. lia.
Qed.

(** Without details the cuts are the two ends, and the merge returns the
    one segment that spans the route, with no attribute. *)
Lemma sorted_ends (n : Z) : 2 ≤ n → sorted {[0; n - 1]} = [0; n - 1].
Proof.
  intros Hn. unfold sorted. apply (Sorted_unique Z.le).
  - apply Sorted_merge_sort. apply _.
  - repeat constructor. lia.
  - rewrite merge_sort_Permutation.
    rewrite elements_union_singleton by (rewrite elem_of_singleton; lia).
    by rewrite elements_singleton.
Qed.

Lemma merge_without_details (coordinates : list (list F))
    (coordinate_distances : list F) :
  (2 ≤ length coordinates)%nat →
  (length coordinates ≤ length coordinate_distances)%nat →
  merge_detail_segments coordinates None coordinate_distances
  = Ok [segment_of (len coordinates) [] coordinate_distances
          (0, len coordinates - 1)].
Proof.
  intros Hn Hds. rewrite merge_detail_segments_eq by done. simpl.
  unfold collect_cuts. simpl. rewrite sorted_ends by (unfold len; lia).
  done.
Qed.

(** Five coordinates and the detail list
    [surface = [[0, 2, "asphalt"], [2, 5, "gravel"]]]: two segments, the
    second with its end clamped to 4. *)
Example merge_surface_example (c0 c1 c2 c3 c4 : list F) (d0 d1 d2 d3 d4 : F) :
  merge_detail_segments [c0; c1; c2; c3; c4]
    (Some [("surface", [(0, 2, JStr "asphalt"); (2, 5, JStr "gravel")])])
    [d0; d1; d2; d3; d4]
  = Ok [{| start_index := 0; end_index := 2;
           start_distance := d0; end_distance := d2;
           attributes := [("surface", JStr "asphalt")] |};
        {| start_index := 2; end_index := 4;
           start_distance := d2; end_distance := d4;
           attributes := [("surface", JStr "gravel")] |}].
Proof. vm_compute. reflexivity. Qed.

(** Details that break at different indices, with a value that is missing
    and a range that no triple covers. *)
Example merge_misaligned_example (c0 c1 c2 c3 : list F) (d0 d1 d2 d3 : F) :
  merge_detail_segments [c0; c1; c2; c3]
    (Some [("surface", [(0, 2, JStr "asphalt"); (2, 3, JStr "missing")]);
           ("smoothness", [(1, 7, JStr "good")])])
    [d0; d1; d2; d3]
  = Ok [{| start_index := 0; end_index := 1;
           start_distance := d0; end_distance := d1;
           attributes := [("surface", JStr "asphalt");
                          ("smoothness", JStr "unknown")] |};
        {| start_index := 1; end_index := 2;
           start_distance := d1; end_distance := d2;
           attributes := [("surface", JStr "asphalt");
                          ("smoothness", JStr "good")] |};
        {| start_index := 2; end_index := 3;
           start_distance := d2; end_distance := d3;
           attributes := [("surface", JStr "unknown");
                          ("smoothness", JStr "good")] |}].
Proof. vm_compute. reflexivity. Qed.

(** The inner loop of the cut collection only adds cuts, and adds both
    clamped ends of each triple. *)
Lemma inner_cuts_mono (n : Z) (dl : list (Z * Z * json F)) (cuts : gset Z) x :
  x ∈ cuts →
  x ∈ foldl (λ cuts d, let '(a, b, _) := d in
                       {[clamp n b]} ∪ ({[clamp n a]} ∪ cuts)) cuts dl.
Proof.
  revert cuts. induction dl as [|[[a b] v] dl IH]; intros cuts Hx; [done|].
  simpl. apply IH. by do 2 apply elem_of_union_r.
Qed.

Lemma inner_cuts_elem (n : Z) (dl : list (Z * Z * json F)) (cuts : gset Z)
    a b v :
  (a, b, v) ∈ dl →
  let cuts' := foldl (λ cuts d, let '(a, b, _) := d in
                        {[clamp n b]} ∪ ({[clamp n a]} ∪ cuts)) cuts dl in
  clamp n a ∈ cuts' ∧ clamp n b ∈ cuts'.
Proof.
  revert cuts. induction dl as [|[[a' b'] v'] dl IH]; intros cuts Hin.
  - by apply elem_of_nil in Hin.
  - apply elem_of_cons in Hin as [[= <- <- <-]|Hin]; simpl.
    + split; apply inner_cuts_mono.
      * apply elem_of_union_r. apply elem_of_union_l. by apply elem_of_singleton.
      * apply elem_of_union_l. by apply elem_of_singleton.
    + by apply IH.
Qed.

Lemma collect_cuts_elem (n : Z) details name dl a b v :
  (name, dl) ∈ details → (a, b, v) ∈ dl →
  clamp n a ∈ collect_cuts (F := F) n details
  ∧ clamp n b ∈ collect_cuts (F := F) n details.
Proof.
  unfold collect_cuts. generalize ({[0; n - 1]} : gset Z).
  induction details as [|[name' dl'] details IH]; intros cuts Hin Ht.
  - by apply elem_of_nil in Hin.
  - apply elem_of_cons in Hin as [[= <- <-]|Hin]; simpl.
    + destruct (inner_cuts_elem n dl cuts a b v Ht) as [Ha Hb].
      revert Ha Hb.
      generalize (foldl (λ cuts d, let '(a, b, _) := d in
                           {[clamp n b]} ∪ ({[clamp n a]} ∪ cuts)) cuts dl).
      clear IH. induction details as [|[name' dl'] details IH];
        intros cuts' Ha Hb; [done|].
      simpl. apply IH; by apply inner_cuts_mono.
    + by apply IH.
Qed.

(** Without a triple, the cuts are the two ends of the route. *)
Lemma collect_cuts_no_triple (n : Z) details :
  Forall (λ item : string * list (Z * Z * json F), item.2 = []) details →
  collect_cuts n details = {[0; n - 1]}.
Proof.
  unfold collect_cuts. generalize ({[0; n - 1]} : gset Z).
  intros cuts Hall. revert cuts.
  induction Hall as [|[name dl] details Hdl _ IH]; intros cuts; [done|].
  simpl in *. subst dl. simpl. apply IH.
Qed.

(** No cut lies strictly inside a pair of consecutive cuts. *)
Lemma consecutive_sorted_gap (cuts : gset Z) s e x :
  (s, e) ∈ consecutive (sorted cuts) → x ∈ cuts → x ≤ s ∨ e ≤ x.
Proof.
  intros [i Hi]%list_elem_of_lookup Hx.
  apply lookup_consecutive in Hi as [Hs He].
  apply elem_of_sorted, list_elem_of_lookup in Hx as [j Hj].
  destruct (decide (j ≤ i)%nat) as [Hle|Hgt].
  - left. destruct (decide (j = i)) as [->|Hne]; [by simplify_eq|].
    pose proof (sorted_increasing cuts j i x s ltac:(lia) Hj Hs). lia.
  - right. destruct (decide (j = S i)) as [->|Hne]; [by simplify_eq|].
    pose proof (sorted_increasing cuts (S i) j e x ltac:(lia) He Hj). lia.
Qed.

(** A value that the helper assigns is ["unknown"], or the value of a
    triple of the list that covers the range and is not a missing one. *)
Lemma value_for_segment_sound (n : Z) (dl : list (Z * Z * json F)) s e :
  value_for_segment n dl s e = JStr "unknown"
  ∨ ∃ a b, (a, b, value_for_segment n dl s e) ∈ dl
      ∧ covers n a b s e
      ∧ value_for_segment n dl s e ∉ missing_values.
Proof.
  induction dl as [|[[a b] v] dl IH]; simpl; [by left|].
  destruct (Z.leb_spec (clamp n a) s) as [Ha|Ha]; simpl.
  - destruct (Z.leb_spec e (clamp n b)) as [Hb|Hb].
    + destruct (is_missing v) eqn:Hv; [by left|]. right.
      exists a, b. split; [by left|]. split; [done|].
      intros Hin%is_missing_spec. congruence.
    + destruct IH as [IH|(a' & b' & Hin & Hc & Hm)]; [by left|right].
      exists a', b'. split; [by right|done].
  - destruct IH as [IH|(a' & b' & Hin & Hc & Hm)]; [by left|right].
    exists a', b'. split; [by right|done].
Qed.

Lemma value_for_segment_not_missing (n : Z) (dl : list (Z * Z * json F)) s e :
  value_for_segment n dl s e ∉ missing_values.
Proof.
  destruct (value_for_segment_sound n dl s e) as [->|(_ & _ & _ & _ & Hm)];
    [|done].
  intros Hin%is_missing_spec. done.
Qed.

(** The bounds on the number of consecutive pairs of the sorted cuts. *)
Lemma sorted_cuts_length (n : Z) (cuts : gset Z) :
  2 ≤ n → cuts_ok n cuts →
  (2 ≤ length (sorted cuts) ≤ Z.to_nat n)%nat.
Proof.
  intros Hn Hok. split; [by apply (sorted_length n)|].
  assert (sorted cuts ⊆+ seqZ 0 n) as Hsub.
  { apply NoDup_submseteq; [apply NoDup_sorted|].
    intros x Hx%elem_of_sorted. apply elem_of_seqZ.
    destruct Hok as (_ & _ & Hrange). apply Hrange in Hx. lia. }
  apply submseteq_length in Hsub. rewrite length_seqZ in Hsub. lia.
Qed.
End Merge.

(** ** services.py: the geometry and the request *)

Section Request.
Context {F : Type} `{FloatOps F}.

Lemma cumulative_body_length (coordinates : list (list F)) acc i r :
  cumulative_body coordinates acc i = Ok r → length r = S (length acc).
Proof.
  unfold cumulative_body. intros Hr.
  repeat (apply bind_Ok in Hr as (? & _ & Hr)).
  injection Hr as <-. rewrite length_app. simpl. lia.
Qed.

(** Whenever the cumulative distances are returned, there is one per
    coordinate, and one for the empty list. *)
Lemma calculate_cumulative_distances_length (coordinates : list (list F)) ds :
  calculate_cumulative_distances coordinates = Ok ds →
  length ds = Nat.max 1 (length coordinates).
Proof.
  unfold calculate_cumulative_distances. intros Hds.
  apply for_loop_length in Hds; [|apply cumulative_body_length].
  rewrite Hds. unfold range. rewrite length_seqZ. unfold len. simpl. lia.
Qed.

Lemma as_float_as_real (v : json F) x : as_float v = Ok x → as_real v = Ok x.
Proof. by destruct v. Qed.

(** What the comprehension of line 252 returns: a pair per item. *)
Lemma frontend_Ok (coordinates : json F) fs :
  frontend coordinates = Ok fs →
  ∃ items,
    iterate coordinates = Ok items
    ∧ length fs = length items
    ∧ Forall (λ c : list (json F), length c = 2%nat) fs.
Proof.
  unfold frontend. intros (items & Hitems & Hfs)%bind_Ok.
  exists items. split; [done|]. apply comprehension_Ok in Hfs.
  split; [symmetry; by eapply Forall2_length|].
  apply Forall_lookup. intros i c Hc.
  destruct (Forall2_lookup_r _ _ _ _ _ Hfs Hc) as (coord & _ & Hcoord).
  apply bind_Ok in Hcoord as (c0 & _ & Hcoord).
  apply bind_Ok in Hcoord as (c1 & _ & [= <-]). done.
Qed.


Lemma validated_coordinates (fs : list (list (json F))) cs :
  Forall2 (Forall2 (λ v x, as_float v = Ok x)) fs cs →
  comprehension (comprehension as_float) fs = Ok cs
  ∧ comprehension (comprehension as_real) fs = Ok cs.
Proof.
  intros Hall. split; apply comprehension_Forall2;
    (eapply Forall2_impl; [exact Hall|]); intros c xs Hc;
    apply comprehension_Forall2; [done|].
  eapply Forall2_impl; [exact Hc|]. apply as_float_as_real.
Qed.

Lemma validated_coordinates_Ok (fs : list (list (json F))) cs :
  comprehension (comprehension as_float) fs = Ok cs →
  Forall2 (Forall2 (λ v x, as_float v = Ok x)) fs cs.
Proof.
  intros Hcs%comprehension_Ok. eapply Forall2_impl; [exact Hcs|].
  intros c xs. apply comprehension_Ok.
Qed.

(** The distances of line 255 are the cumulative distances of the
    coordinates that pydantic validates. *)
Lemma cumulative_distances_of_validated (fs : list (list (json F))) cs ds :
  comprehension (comprehension as_float) fs = Ok cs →
  cumulative_distances_of fs = Ok ds →
  calculate_cumulative_distances cs = Ok ds.
Proof.
  intros Hcs Hds. pose proof (comprehension_length _ _ _ Hcs) as Hlen.
  unfold cumulative_distances_of in Hds.
  destruct (Z.ltb_spec (len fs) 2) as [Hlt|Hge].
  - injection Hds as <-. apply calculate_cumulative_distances_short.
    unfold len in Hlt. lia.
  - apply validated_coordinates_Ok, validated_coordinates in Hcs as [_ Hreal].
    rewrite Hreal in Hds. done.
Qed.


Lemma truthy_iterate (coordinates : json F) items :
  iterate coordinates = Ok items →
  truthy coordinates = bool_decide (items ≠ []).
Proof.
  destruct coordinates as [| | | |s|l|m]; simpl; try done; intros [= <-].
  - by destruct s.
  - by destruct l.
  - by destruct m.
Qed.

(** What a geometry that was built holds. *)
Lemma build_geometry_Ok include_elevation (coordinates : json F) g :
  build_geometry include_elevation coordinates = Ok g →
  ∃ items ds,
    iterate coordinates = Ok items
    ∧ length (Models.coordinates g) = length items
    ∧ Forall (λ c : list F, length c = 2%nat) (Models.coordinates g)
    ∧ Models.coordinate_distances g = Some ds
    ∧ calculate_cumulative_distances (Models.coordinates g) = Ok ds
    ∧ length ds = Nat.max 1 (length items)
    ∧ (∀ pts, Models.elevation_profile g = Some pts →
         include_elevation = true
         ∧ create_elevation_profile_from_coordinates coordinates ds = Ok pts)
    ∧ (include_elevation = true → items ≠ [] →
       ∃ pts, Models.elevation_profile g = Some pts).
Proof.
  unfold build_geometry.
  intros (fs & Hfs & (ds & Hds & (ep & Hep & Hg)%bind_Ok)%bind_Ok)%bind_Ok.
  unfold route_geometry in Hg. apply bind_Ok in Hg as (cs & Hcs & [= <-]).
  simpl. apply frontend_Ok in Hfs as (items & Hitems & Hlen & Hpairs).
  pose proof (cumulative_distances_of_validated _ _ _ Hcs Hds) as Hcalc.
  pose proof (comprehension_length _ _ _ Hcs) as Hlcs.
  exists items, ds. split; [done|]. split; [lia|]. split.
  { apply validated_coordinates_Ok in Hcs.
    apply Forall_lookup. intros i c Hc.
    destruct (Forall2_lookup_r _ _ _ _ _ Hcs Hc) as (raw & Hraw & Hall).
    apply Forall2_length in Hall. rewrite <- Hall.
    by eapply (Forall_lookup_1 _ _ _ _ Hpairs). }
  split; [done|]. split; [done|]. split.
  { apply calculate_cumulative_distances_length in Hcalc. lia. }
  split.
  - intros pts ->. destruct include_elevation; simpl in Hep; [|done].
    split; [done|]. destruct (truthy coordinates); [|done].
    by apply fmap_Ok in Hep as (pts' & Hpts' & [= ->]).
  - intros -> Hne. simpl in Hep.
    rewrite (truthy_iterate _ _ Hitems), bool_decide_true in Hep by done.
    apply fmap_Ok in Hep as (pts & _ & ->). eauto.
Qed.


Lemma route_request_body_success (post : Engine F) start end_ profile
    custom_model config include_elevation details r :
  route_request_body post start end_ profile custom_model config
                     include_elevation details = Ok r →
  success r = true →
  ∃ response,
    post (rstrip_slash (base_url config) +:+ "/route")
         (build_payload start end_ profile custom_model include_elevation
                        details)
         (timeout config) = Ok response
    ∧ built_from_answer response include_elevation r
    ∧ error r = None.
Proof.
  unfold route_request_body. intros (response & Hpost & Hr)%bind_Ok Hs.
  exists response. split; [done|]. unfold built_from_answer.
  destruct (Z.eqb_spec (status_code response) 200) as [H200|Hne];
    simpl in Hr.
  - apply bind_Ok in Hr as (data & Hdata & Hr).
    apply bind_Ok in Hr as (paths & Hpaths & Hr).
    destruct (truthy paths) eqn:Htruthy; simpl in Hr.
    + apply bind_Ok in Hr as (paths' & Hpaths' & Hr).
      apply bind_Ok in Hr as (path & Hpath & Hr).
      apply bind_Ok in Hr as (points_data & Hpoints & Hr).
      apply bind_Ok in Hr as (coordinates & Hcj & Hr).
      apply bind_Ok in Hr as (g & Hg & Hr).
      apply bind_Ok in Hr as (segs & _ & Hr).
      apply bind_Ok in Hr as (distance & Hdistance & Hr).
      apply bind_Ok in Hr as (distance_meters & Hmeters & Hr).
      apply bind_Ok in Hr as (time & Htime & Hr).
      apply bind_Ok in Hr as (time_ms & Hms & Hr).
      injection Hr as <-. simpl. split; [|done].
      exists data, paths, path, coordinates.
      do 4 (split; [done|]). split.
      { unfold first_path. by rewrite Hpaths'. }
      split.
      { unfold path_coordinates. by rewrite Hpoints. }
      split; [done|]. split.
      * by rewrite Hdistance.
      * by rewrite Htime.
    + injection Hr as <-. done.
  - repeat (apply bind_Ok in Hr as (? & _ & Hr)).
    injection Hr as <-. done.
Qed.


Lemma execute_route_request_total (post : Engine F) start end_ profile
    custom_model config include_elevation details :
  ∃ r, execute_route_request post start end_ profile custom_model config
         include_elevation details = Ok r.
Proof.
  unfold execute_route_request.
  destruct (route_request_body _ _ _ _ _ _ _ _) as [r|e]; [eauto|].
  destruct (is_request_exception e); eauto.
Qed.

(** What the two handlers return. *)
Lemma execute_route_request_handled (post : Engine F) start end_ profile
    custom_model config include_elevation details r :
  execute_route_request post start end_ profile custom_model config
    include_elevation details = Ok r →
  route_request_body post start end_ profile custom_model config
    include_elevation details = Ok r
  ∨ (success r = false ∧ ∃ msg, error r = Some msg ∧ msg ≠ "").
Proof.
  unfold execute_route_request.
  destruct (route_request_body _ _ _ _ _ _ _ _) as [r'|e]; [by left|].
  destruct (is_request_exception e); intros [= <-]; right;
    (split; [done|]); eexists; (split; [done|]); done.
Qed.

Lemma route_request_body_geometry (post : Engine F) start end_ profile
    custom_model config include_elevation details r :
  route_request_body post start end_ profile custom_model config
                     include_elevation details = Ok r →
  success r = true →
  ∃ coordinates,
    build_geometry include_elevation coordinates = Ok (geometry r).
Proof.
  intros Hr Hs.
  destruct (route_request_body_success _ _ _ _ _ _ _ _ _ Hr Hs)
    as (response & _ & (data & paths & path & coordinates & Hbuilt) & _).
  exists coordinates. tauto.
Qed.


Lemma rstrip_slash_snoc (s : string) :
  rstrip_slash (s +:+ "/") = rstrip_slash s.
Proof.
  induction s as [|c s IH]; [done|].
  simpl. by rewrite IH.
Qed.

Lemma rstrip_slash_spec (s : string) :
  ∃ t, s = rstrip_slash s +:+ t
    ∧ Forall (λ c, c = "/"%char) (list_ascii_of_string t)
    ∧ last (list_ascii_of_string (rstrip_slash s)) ≠ Some "/"%char.
Proof.
  induction s as [|c s (t & Hs & Ht & Hlast)].
  - exists "". done.
  - cbn [rstrip_slash]. destruct (rstrip_slash s) as [|c' r] eqn:Hr.
    + destruct (Ascii.eqb_spec c "/"%char) as [->|Hne].
      * exists (String "/" t). simpl in *. split; [by rewrite Hs at 1|].
        split; [by constructor|done].
      * exists t. simpl in *. split; [by rewrite Hs at 1|].
        split; [done|]. intros [= ?]. done.
    + exists t. split; [|split; [done|]].
      * change (String c s = String c (String c' r +:+ t)). by f_equal.
      * simpl in *. done.
Qed.



Lemma build_payload_fields (start end_ : F * F) profile custom_model
    include_elevation d ds :
  let payload :=
    build_payload start end_ profile custom_model include_elevation
      (Some (d :: ds)) in
  assoc "points" payload
  = Some (JArr [JArr [JFloat start.2; JFloat start.1];
                JArr [JFloat end_.2; JFloat end_.1]])
  ∧ assoc "profile" payload = Some (JStr profile)
  ∧ assoc "elevation" payload = Some (JBool include_elevation)
  ∧ assoc "points_encoded" payload = Some (JBool false)
  ∧ assoc "details" payload = Some (JArr (JStr <$> d :: ds))
  ∧ assoc "custom_model" payload
    = (if custom_model_given custom_model then custom_model else None)
  ∧ assoc "ch.disable" payload
    = (if custom_model_given custom_model then Some (JBool true) else None).
Proof.
  unfold build_payload. simpl.
  destruct custom_model as [m|]; simpl; [|done].
  destruct (truthy m); simpl; done.
Qed.
End Request.

End ServicesFacts.

(** ** routers/routes.py *)

Module RoutesFacts.
Import Services ServicesFacts Routes.

Section Handler.
Context {F : Type} `{FloatOps F}.

(** Without a custom model the payload has neither of the two fields. *)
Lemma build_payload_plain (start end_ : F * F) profile include_elevation
    details :
  assoc "custom_model"
    (build_payload start end_ profile None include_elevation details) = None
  ∧ assoc "ch.disable"
      (build_payload start end_ profile None include_elevation details)
    = None.
Proof.
  unfold build_payload. simpl. destruct (details_given details); simpl; done.
Qed.

(** [execute_route_request] sees the engine only through its answer to the
    one request it sends. *)
Lemma execute_route_request_one_post (post post' : Engine F) start end_
    profile custom_model config include_elevation details :
  post' (rstrip_slash (base_url config) +:+ "/route")
        (build_payload start end_ profile custom_model include_elevation
                       details)
        (timeout config)
  = post (rstrip_slash (base_url config) +:+ "/route")
         (build_payload start end_ profile custom_model include_elevation
                        details)
         (timeout config) →
  execute_route_request post' start end_ profile custom_model config
    include_elevation details
  = execute_route_request post start end_ profile custom_model config
      include_elevation details.
Proof.
  intros Hsame. unfold execute_route_request, route_request_body.
  by rewrite Hsame.
Qed.

Lemma wants_custom_model_false (request : RouteRequest F) :
  wants_custom_model request = false ↔
  custom_profile_id request = None ∨ custom_profile_id request = Some 0
  ∨ parameters request = None ∨ parameters request = Some [].
Proof.
  unfold wants_custom_model.
  destruct (custom_profile_id request) as [id|]; [|by split; [left|]].
  destruct (parameters request) as [[|p ps]|].
  - by split; [do 3 right|].
  - destruct (Z.eqb_spec id 0) as [->|Hne]; simpl.
    + by split; [right; left|].
    + split; [done|]. intros [?|[[= ?]|[?|?]]]; done.
  - by split; [right; right; left|].
Qed.

Lemma route_with_responds (post : Engine F) request config custom_model :
  ∃ r, route_with post request config custom_model = Respond r.
Proof.
  unfold route_with.
  destruct (execute_route_request_total post
              (lat (start request), lon (start request))
              (lat (end_ request), lon (end_ request))
              (profile_or_default (req_profile request) config)
              custom_model config (include_elevation request)
              (Some (details_or_default (details request)))) as [r ->].
  eauto.
Qed.

Lemma details_or_default_cons (details : option (list string)) :
  ∃ d ds, Routes.details_or_default details = d :: ds
    ∧ (d :: ds = default [] details
       ∨ (d :: ds = ["surface"; "smoothness"]
          ∧ (details = None ∨ details = Some []))).
Proof.
  destruct details as [[|d ds]|]; simpl.
  - exists "surface", ["smoothness"]. split; [done|]. right. eauto.
  - exists d, ds. split; [done|]. by left.
  - exists "surface", ["smoothness"]. split; [done|]. right. eauto.
Qed.
End Handler.

End RoutesFacts.

(** ** scripts/add_prior_config.py *)

Module AddPriorConfigFacts.
Import Db AddPriorConfig.

Lemma sql_max_None (values : list Z) : sql_max values = None ↔ values = [].
Proof. destruct values; simpl; split; done. Qed.

Lemma sql_max_upper (values : list Z) v :
  v ∈ values → ∃ m, sql_max values = Some m ∧ v ≤ m.
Proof.
  induction values as [|w values IH]; intros Hv.
  - by apply elem_of_nil in Hv.
  - simpl. apply elem_of_cons in Hv as [->|Hv].
    + destruct (sql_max values) as [m|]; eexists; (split; [done|]); lia.
    + destruct (IH Hv) as (m & -> & Hm). eexists. split; [done|]. lia.
Qed.

Lemma sql_max_elem (values : list Z) m :
  sql_max values = Some m → m ∈ values.
Proof.
  revert m. induction values as [|w values IH]; intros m; simpl; [done|].
  destruct (sql_max values) as [m'|] eqn:Hm'; intros [= <-].
  - destruct (Z.max_spec w m') as [[_ ->]|[_ ->]]; [right; by apply IH|by left].
  - by left.
Qed.

(** The next version is above every version in use; it is 1 when there is
    none, and one more than the largest otherwise (unless that is 0). *)
Lemma next_after_spec (values : list Z) :
  (∀ v, v ∈ values → v < next_after (sql_max values))
  ∧ (values = [] → next_after (sql_max values) = 1)
  ∧ (∀ m, m ∈ values → (∀ v, v ∈ values → v ≤ m) → m ≠ 0 →
       next_after (sql_max values) = m + 1)
  ∧ (Forall (λ v, 0 ≤ v) values → 1 ≤ next_after (sql_max values)).
Proof.
  unfold next_after. split; [|split; [|split]].
  - intros v (m & -> & Hm)%sql_max_upper.
    destruct (Z.eqb_spec m 0); lia.
  - by intros ->.
  - intros m Hm Hmax Hne.
    destruct (sql_max_upper values m Hm) as (m' & Hm' & Hle).
    rewrite Hm'. apply sql_max_elem, Hmax in Hm'.
    destruct (Z.eqb_spec m' 0); lia.
  - intros Hall. destruct (sql_max values) as [m|] eqn:Hm; [|done].
    apply sql_max_elem in Hm. rewrite Forall_forall in Hall.
    apply Hall in Hm. destruct (Z.eqb_spec m 0); lia.
Qed.

Section Script.
Context {F : Type} `{FloatOps F}.

(** The keywords that [insert_prior_config] passes to [ProfilePrior]. *)
Lemma prior_constructor_rejects_parameters
    (profile_id parameters training_metadata version is_active : json F) :
  declarative_constructor "ProfilePrior" ProfilePrior.attributes
    [("profile_id", profile_id);
     ("parameters", parameters);
     ("training_metadata", training_metadata);
     ("version", version);
     ("is_active", is_active)]
  = Raise (TypeError
             "'parameters' is an invalid keyword argument for ProfilePrior").
Proof. reflexivity. Qed.

(** When every check passes, the insertion stops at the constructor. *)
Lemma insert_body_invalid_keyword (db : database F)
    (m : list (string * json F)) i profile :
  let custom_profile_id :=
    int_value (default JNull (assoc "custom_profile_id" m)) in
  let version := int_value (default JNull (assoc "version" m)) in
  let parameters :=
    match assoc "parameters" m with Some (JObj ps) => ps | _ => [] end in
  list_find (λ p, CustomProfile.id p = custom_profile_id)
            (custom_profiles db) = Some (i, profile) →
  (list_to_set (CustomProfile.parameters profile) : gset string)
  = list_to_set parameters.*1 →
  list_find (λ p, ProfilePrior.profile_id p = custom_profile_id
                  ∧ ProfilePrior.version p = version)
            (profile_priors db) = None →
  insert_body db m
  = Raise (TypeError
             "'parameters' is an invalid keyword argument for ProfilePrior").
Proof.
  intros cpid version parameters Hprofile Hparams Hprior.
  unfold insert_body. fold cpid. rewrite Hprofile.
  fold parameters. rewrite bool_decide_false by (intros Hne; by apply Hne).
  fold version. rewrite Hprior.
  by rewrite prior_constructor_rejects_parameters.
Qed.

(** No call of [insert_body] returns: it raises before the constructor, or
    at it. *)
Lemma insert_body_raises (db : database F) (m : list (string * json F)) :
  ∃ e, insert_body db m = Raise e.
Proof.
  unfold insert_body.
  destruct (list_find _ (custom_profiles db)) as [[i profile]|]; [|eauto].
  case_bool_decide; [eauto|].
  destruct (list_find _ (profile_priors db)) as [?|]; [eauto|].
  rewrite prior_constructor_rejects_parameters. simpl. eauto.
Qed.

(** So no call of [insert_prior_config] inserts a row or reports success. *)
Lemma insert_prior_config_never_inserts
    (config_file : option (result (json F))) (db : database F) :
  ∃ e, insert_prior_config config_file db = (Raise e, db).
Proof.
  unfold insert_prior_config.
  destruct config_file as [[config|e]|]; [|eauto..].
  destruct (truthy config); simpl; [|eauto].
  destruct (validate_prior_config config) as [[]|e]; [|eauto].
  destruct (insert_body_raises db
              (match config with JObj m => m | _ => [] end)) as [e ->].
  destruct e; eauto. case_bool_decide; eauto.
Qed.

(** Blank names: the empty string, blanks and tabs, the separator U+001F, a
    no-break space (U+00A0) followed by an ideographic space (U+3000); a
    name with a letter is not blank, nor is a lone byte [C2]. *)
Lemma is_blank_examples :
  is_blank "" = true
  ∧ is_blank (String " " (String "009" "")) = true
  ∧ is_blank (String "031" "") = true
  ∧ is_blank (String "194" (String "160"
                (String "227" (String "128" (String "128" ""))))) = true
  ∧ is_blank " a " = false
  ∧ is_blank (String "194" "") = false.
Proof. repeat split. Qed.

Lemma validate_parameters_Ok (ps : list (string * json F)) :
  validate_parameters ps = Ok ()
  ↔ Forall (λ kv : string * json F,
              is_blank kv.1 = false ∧ is_number kv.2 = true
              ∧ not_positive kv.2 = false) ps.
Proof.
  induction ps as [|[name value] ps IH]; simpl.
  - split; [constructor|done].
  - rewrite Forall_cons. simpl.
    destruct (is_blank name); [split; [done|by intros [[? _] _]]|].
    destruct (is_number value); simpl;
      [|split; [done|by intros [(_ & ? & _) _]]].
    destruct (not_positive value);
      [split; [done|by intros [(_ & _ & ?) _]]|].
    rewrite IH. split; [done|]. by intros [_ ?].
Qed.

Lemma assoc_Some_filter_required (m : list (string * json F)) :
  filter (λ field, assoc field m = None) required_fields = []
  ↔ (∃ id version ps,
       assoc "custom_profile_id" m = Some id
       ∧ assoc "version" m = Some version
       ∧ assoc "parameters" m = Some ps).
Proof.
  unfold required_fields. rewrite !filter_cons, filter_nil.
  destruct (assoc "custom_profile_id" m) as [id|];
    destruct (assoc "version" m) as [version|];
    destruct (assoc "parameters" m) as [ps|];
    repeat case_decide; try done.
  all: split; [try done|try by intros (? & ? & ? & ? & ? & ?)].
  intros _. by exists id, version, ps.
Qed.

Lemma validate_prior_config_Ok (config : json F) :
  validate_prior_config config = Ok () ↔ valid_prior_config config.
Proof.
  unfold valid_prior_config. split.
  - destruct config as [| | | | | |m]; try done. simpl.
    destruct (filter _ required_fields) as [|missing rest] eqn:Hmissing;
      [|done].
    apply assoc_Some_filter_required in Hmissing
      as (id & version & ps & Hid & Hversion & Hps).
    rewrite Hid, Hversion, Hps. simpl.
    destruct (is_int id) eqn:Hint; simpl; [|done].
    destruct (is_int version) eqn:Hintv; simpl; [|done].
    destruct (Z.ltb_spec (int_value version) 1) as [?|Hge]; [done|].
    destruct ps as [| | | | | |members]; try done.
    destruct members as [|p members'] eqn:Hne; [done|]. rewrite <- Hne.
    intros Hvalid%validate_parameters_Ok.
    exists m, id, version, members. subst members. done.
  - intros (m & id & version & ps & -> & Hid & Hint & Hversion & Hintv
            & Hge & Hps & Hne & Hall).
    simpl.
    assert (filter (λ field, assoc field m = None) required_fields = [])
      as ->.
    { apply assoc_Some_filter_required. by exists id, version, (JObj ps). }
    rewrite Hid, Hversion, Hps. simpl. rewrite Hint, Hintv. simpl.
    destruct (Z.ltb_spec (int_value version) 1) as [?|_]; [lia|].
    destruct ps as [|p ps]; [done|]. by apply validate_parameters_Ok.
Qed.

Lemma sorted_names_set (names : list string) :
  (list_to_set (sorted_names names) : gset string) = list_to_set names.
Proof.
  unfold sorted_names. apply list_to_set_perm_L, merge_sort_Permutation.
Qed.

Lemma elem_of_sorted_names (names : list string) x :
  x ∈ sorted_names names ↔ x ∈ names.
Proof. unfold sorted_names. by rewrite merge_sort_Permutation. Qed.
End Script.

End AddPriorConfigFacts.

(** ** scripts/add_custom_profile.py *)

Module AddCustomProfileFacts.
Import AddPriorConfig AddPriorConfigFacts AddCustomProfile.

Lemma span_name_spec (s : list ascii) :
  let '(name, rest) := span_name s in
  s = name ++ rest
  ∧ forallb is_name_char name = true
  ∧ match rest with c :: _ => is_name_char c = false | [] => True end.
Proof.
  induction s as [|c s IH]; simpl; [done|].
  destruct (is_name_char c) eqn:Hc.
  - destruct (span_name s) as [name rest]. destruct IH as (-> & Hname & Hrest).
    simpl. rewrite Hc. done.
  - simpl. done.
Qed.

Lemma span_name_app (name rest : list ascii) :
  forallb is_name_char name = true →
  match rest with c :: _ => is_name_char c = false | [] => True end →
  span_name (name ++ rest) = (name, rest).
Proof.
  intros Hname Hrest. induction name as [|c name IH]; simpl in *.
  - destruct rest as [|c rest]; [done|]. simpl. by rewrite Hrest.
  - apply andb_true_iff in Hname as [-> Hname]. by rewrite IH.
Qed.

Lemma match_placeholder_Some (s : list ascii) name :
  match_placeholder s = Some name →
  ∃ c cs after,
    name = c :: cs ∧ is_lower c = true ∧ forallb is_name_char cs = true
    ∧ s = "{"%char :: name ++ "}"%char :: after.
Proof.
  destruct s as [|b [|c s]]; simpl; try done.
  destruct (Ascii.eqb_spec b "{"%char) as [->|Hne]; [|done].
  destruct (is_lower c) eqn:Hc; [|done]. simpl.
  pose proof (span_name_spec s) as Hspan.
  destruct (span_name s) as [cs rest]. destruct Hspan as (-> & Hcs & _).
  destruct rest as [|r rest]; [done|].
  destruct (Ascii.eqb_spec r "}"%char) as [->|Hne]; [|done].
  intros [= <-]. exists c, cs, rest. done.
Qed.

Lemma is_name_char_close : is_name_char "}"%char = false.
Proof. reflexivity. Qed.

Lemma is_name_char_open : is_name_char "{"%char = false.
Proof. reflexivity. Qed.

Lemma match_placeholder_intro (c : ascii) (cs after : list ascii) :
  is_lower c = true → forallb is_name_char cs = true →
  match_placeholder ("{"%char :: c :: cs ++ "}"%char :: after)
  = Some (c :: cs).
Proof.
  intros Hc Hcs. simpl. rewrite Hc.
  by rewrite (span_name_app cs ("}"%char :: after)).
Qed.

(** Every group that is found is a parameter name between braces. *)
Lemma findall_from_sound (skip : nat) (s : list ascii) name :
  name ∈ findall_from skip s →
  is_parameter_name name
  ∧ ∃ before after,
      s = before ++ "{"%char :: list_ascii_of_string name
                 ++ "}"%char :: after.
Proof.
  revert skip. induction s as [|b s IH]; intros skip; cbn [findall_from].
  - intros Hin. by apply elem_of_nil in Hin.
  - assert (∀ k, name ∈ findall_from k s →
              is_parameter_name name
              ∧ ∃ before after,
                  b :: s = before ++ "{"%char :: list_ascii_of_string name
                                  ++ "}"%char :: after) as Hrest.
    { intros k (Hname & before & after & ->)%IH. split; [done|].
      by exists (b :: before), after. }
    destruct skip as [|k]; [|apply Hrest].
    destruct (match_placeholder (b :: s)) as [found|] eqn:Hfound;
      [|apply Hrest].
    intros [->|Hin]%elem_of_cons; [|by eapply Hrest].
    apply match_placeholder_Some in Hfound
      as (c & cs & after & -> & Hc & Hcs & Hs).
    unfold is_parameter_name.
    rewrite list_ascii_of_string_of_list_ascii. split; [done|].
    exists [], after. by rewrite Hs.
Qed.

(** A placeholder is found wherever it stands, unless the scan is still
    inside the match before it; no match reaches over an opening brace. *)
Lemma findall_from_complete (skip : nat) (before after : list ascii) c cs :
  is_lower c = true → forallb is_name_char cs = true →
  (skip ≤ length before)%nat →
  Forall (λ b, b ≠ "{"%char) (take skip before) →
  string_of_list_ascii (c :: cs)
  ∈ findall_from skip (before ++ "{"%char :: c :: cs ++ "}"%char :: after).
Proof.
  intros Hc Hcs. revert skip.
  induction before as [|b before IH]; intros skip Hskip Hclear.
  - simpl in Hskip. assert (skip = 0%nat) as -> by lia.
    cbn [app findall_from].
    rewrite (match_placeholder_intro c cs after Hc Hcs). by left.
  - cbn [app findall_from]. destruct skip as [|k].
    + destruct (match_placeholder _) as [found|] eqn:Hfound.
      * right. apply match_placeholder_Some in Hfound
          as (c' & cs' & after' & -> & Hc' & Hcs' & Hs).
        injection Hs as -> Hs.
        assert (∀ (xs ys zs ws : list ascii),
                  xs ++ "}"%char :: ys = zs ++ "{"%char :: ws →
                  forallb is_name_char xs = true →
                  (S (length xs) ≤ length zs)%nat
                  ∧ Forall (λ b, b ≠ "{"%char) (take (S (length xs)) zs))
          as Hprefix.
        { clear. induction xs as [|x xs IH]; intros ys zs ws Heq Hxs.
          - destruct zs as [|z zs]; [done|]. simpl in *.
            injection Heq as <- _. split; [lia|].
            rewrite take_0. by repeat constructor.
          - simpl in Hxs. apply andb_true_iff in Hxs as [Hx Hxs].
            destruct zs as [|z zs].
            + simpl in Heq. injection Heq as -> _.
              by rewrite is_name_char_open in Hx.
            + simpl in Heq. injection Heq as <- Heq.
              destruct (IH ys zs ws Heq Hxs) as [Hlen Hall].
              simpl. split; [lia|]. constructor; [|done].
              intros ->. by rewrite is_name_char_open in Hx. }
        destruct (Hprefix (c' :: cs') after' before
                    (c :: cs ++ "}"%char :: after))
          as [Hlen Hall].
        { simpl. simpl in Hs. by rewrite Hs. }
        { simpl. rewrite Hcs'. unfold is_name_char. by rewrite Hc'. }
        by apply IH.
      * apply IH; [lia|]. rewrite take_0. constructor.
    + apply IH; [simpl in Hskip; lia|].
      simpl in Hclear. by apply Forall_cons in Hclear as [_ ?].
Qed.

Lemma list_ascii_of_string_app (s t : string) :
  list_ascii_of_string (s +:+ t)
  = list_ascii_of_string s ++ list_ascii_of_string t.
Proof. induction s as [|c s IH]; simpl; [done|]. by rewrite IH. Qed.

Lemma string_of_list_ascii_app (s t : list ascii) :
  string_of_list_ascii (s ++ t)
  = string_of_list_ascii s +:+ string_of_list_ascii t.
Proof. induction s as [|c s IH]; simpl; [done|]. by rewrite IH. Qed.

Lemma elem_of_findall (template name : string) :
  name ∈ findall template ↔
  is_parameter_name name ∧ has_placeholder template name.
Proof.
  unfold findall. split.
  - intros (Hname & before & after & Heq)%findall_from_sound.
    split; [done|].
    exists (string_of_list_ascii before), (string_of_list_ascii after).
    rewrite <- (string_of_list_ascii_of_string template), Heq.
    rewrite string_of_list_ascii_app. f_equal.
    change ("{"%char :: list_ascii_of_string name ++ "}"%char :: after)
      with (["{"%char] ++ list_ascii_of_string name
                       ++ ["}"%char] ++ after).
    rewrite !string_of_list_ascii_app, string_of_list_ascii_of_string.
    done.
  - intros [Hname (before & after & ->)]. unfold is_parameter_name in Hname.
    destruct (list_ascii_of_string name) as [|c cs] eqn:Hchars; [done|].
    destruct Hname as [Hc Hcs].
    rewrite !list_ascii_of_string_app, Hchars.
    rewrite <- (string_of_list_ascii_of_string name), Hchars.
    apply (findall_from_complete 0 _ _ c cs Hc Hcs); [lia|].
    rewrite take_0. constructor.
Qed.

#[local] Instance string_leb_total :
  Total (λ a b : string, Is_true (String.leb a b)).
Proof.
  intros a b. destruct (String.leb_total a b) as [->| ->]; [by left|by right].
Qed.

Lemma elem_of_extract_parameters (template name : string) :
  name ∈ extract_parameters_from_template template ↔ name ∈ findall template.
Proof.
  unfold extract_parameters_from_template.
  rewrite elem_of_sorted_names, elem_of_elements, elem_of_list_to_set. done.
Qed.

Lemma extract_parameters_sorted (template : string) :
  Sorted (λ a b : string, Is_true (String.leb a b))
         (extract_parameters_from_template template)
  ∧ NoDup (extract_parameters_from_template template).
Proof.
  unfold extract_parameters_from_template, sorted_names. split.
  - apply Sorted_merge_sort. apply _.
  - rewrite merge_sort_Permutation. apply NoDup_elements.
Qed.

End AddCustomProfileFacts.

(** ** scripts/transfer_priors_to_learned_params.py *)

Module TransferPriorsFacts.
Import Db TransferPriors.

Section Find.
Context {A : Type} (P : A → Prop) `{!∀ x, Decision (P x)}.

Lemma list_find_None_filter (l : list A) :
  list_find P l = None ↔ filter P l = [].
Proof.
  rewrite list_find_None. induction l as [|x l IH].
  - by split; [|constructor].
  - rewrite Forall_cons, filter_cons. destruct (decide (P x)).
    + by split; [intros [? _]|].
    + rewrite IH. by split; [intros [_ ?]|].
Qed.

Lemma list_find_Some_filter (l : list A) i x :
  list_find P l = Some (i, x) → filter P l ≠ [].
Proof.
  intros Hfind Hnil. apply list_find_None_filter in Hnil. congruence.
Qed.

Lemma filter_snoc_True (l : list A) x :
  P x → filter P (l ++ [x]) = filter P l ++ [x].
Proof. intros. by rewrite filter_app, filter_cons_True. Qed.

Lemma filter_snoc_False (l : list A) x :
  ¬ P x → filter P (l ++ [x]) = filter P l.
Proof.
  intros. rewrite filter_app, filter_cons_False by done.
  by rewrite filter_nil, app_nil_r.
Qed.


Lemma list_find_snoc_None (l : list A) x :
  list_find P l = None → P x →
  list_find P (l ++ [x]) = Some (length l, x).
Proof.
  intros Hnone Hx. rewrite list_find_app_r by done. simpl.
  rewrite decide_True by done. done.
Qed.
End Find.

Section Script.
Context {F : Type} (uuid_parses : string → bool).

(** One iteration on an existing prior of an existing profile, when it
    returns: it leaves profiles and priors alone, and afterwards the user has
    a profile row with a prior-flagged row. *)
Lemma transfer_one_Ok_spec (user_id : string) (prior_id : Z)
    (db db1 : database F) created created1 k prior j custom_profile :
  list_find (λ p, ProfilePrior.id p = prior_id) (profile_priors db)
  = Some (k, prior) →
  list_find (λ p, CustomProfile.id p = ProfilePrior.profile_id prior)
            (custom_profiles db) = Some (j, custom_profile) →
  transfer_one user_id (db, created) prior_id = Ok (db1, created1) →
  ∃ new user_profile i i' learned,
    created1 = created ++ new
    ∧ custom_profiles db1 = custom_profiles db
    ∧ profile_priors db1 = profile_priors db
    ∧ list_find (λ u, UserProfile.user_id u = user_id
                      ∧ UserProfile.profile_id u
                        = ProfilePrior.profile_id prior)
                (user_profiles db1) = Some (i, user_profile)
    ∧ list_find (λ l, LearnedParameters.user_profile_id l
                      = UserProfile.id user_profile
                      ∧ LearnedParameters.is_prior l = true)
                (learned_parameters db1) = Some (i', learned)
    ∧ (user_profile_rows db1 user_id (ProfilePrior.profile_id prior)
       = user_profile_rows db user_id (ProfilePrior.profile_id prior)
       ∨ (user_profile_rows db user_id (ProfilePrior.profile_id prior) = []
          ∧ user_profile_rows db1 user_id (ProfilePrior.profile_id prior)
            = [user_profile]))
    ∧ (∀ upid,
         prior_rows db1 upid = prior_rows db upid
         ∨ (prior_rows db upid = [] ∧ ∃ l, prior_rows db1 upid = [l])).
Proof.
  intros Hprior Hprofile. unfold transfer_one. rewrite Hprior.
  unfold get_or_create_user_profile. rewrite Hprofile.
  destruct (list_find _ (user_profiles db)) as [[i up]|] eqn:Hup; simpl.
  - destruct (list_find _ (learned_parameters db)) as [[i' lp]|] eqn:Hlp.
    + intros [= <- <-]. exists [], up, i, i', lp. rewrite app_nil_r.
      repeat (split; [done|]). split; [by left|]. intros upid. by left.
    + destruct (dict_keys (ProfilePrior.means prior)) as [keys|e]; [|done].
      simpl. intros [= <- <-]. eexists [_], up, i, _, _. split; [done|].
      simpl. repeat (split; [done|]). split; [|split; [by left|]].
      * apply list_find_snoc_None; [done|]. done.
      * intros upid. unfold prior_rows. simpl.
        destruct (decide (UserProfile.id up = upid)) as [<-|Hne].
        -- right. apply list_find_None_filter in Hlp. split; [done|].
           eexists. rewrite filter_snoc_True by done. by rewrite Hlp.
        -- left. apply filter_snoc_False. simpl. intros [? _]. done.
  - set (up := {| UserProfile.id :=
                    fresh_id (UserProfile.id <$> user_profiles db);
                  UserProfile.user_id := user_id;
                  UserProfile.profile_id := ProfilePrior.profile_id prior;
                  UserProfile.custom_name :=
                    Some ("Profile for "
                          +:+ CustomProfile.name custom_profile);
                  UserProfile.total_ratings := 0 |}).
    assert (list_find (λ u, UserProfile.user_id u = user_id
                            ∧ UserProfile.profile_id u
                              = ProfilePrior.profile_id prior)
                      (user_profiles db ++ [up])
            = Some (length (user_profiles db), up)) as Hup'.
    { apply list_find_snoc_None; [done|]. done. }
    assert (user_profile_rows db user_id (ProfilePrior.profile_id prior) = [])
      as Hrows.
    { by apply list_find_None_filter in Hup. }
    destruct (list_find _ (learned_parameters db)) as [[i' lp]|] eqn:Hlp.
    + intros [= <- <-]. eexists [], up, _, i', lp. rewrite app_nil_r.
      split; [done|]. simpl. repeat (split; [done|]). split.
      * right. split; [done|]. unfold user_profile_rows. simpl.
        rewrite filter_snoc_True by done.
        unfold user_profile_rows in Hrows. by rewrite Hrows.
      * intros upid. by left.
    + destruct (dict_keys (ProfilePrior.means prior)) as [keys|e]; [|done].
      simpl. intros [= <- <-]. eexists [_], up, _, _, _. split; [done|].
      simpl. repeat (split; [done|]). split; [|split].
      * apply list_find_snoc_None; [done|]. done.
      * right. split; [done|]. unfold user_profile_rows. simpl.
        rewrite filter_snoc_True by done.
        unfold user_profile_rows in Hrows. by rewrite Hrows.
      * intros upid. unfold prior_rows. simpl.
        destruct (decide (UserProfile.id up = upid)) as [<-|Hne].
        -- right. apply list_find_None_filter in Hlp. split; [done|].
           eexists. rewrite filter_snoc_True by done.
           subst up. simpl. by rewrite Hlp.
        -- left. apply filter_snoc_False. simpl. intros [? _]. done.
Qed.



(** Once the user has a profile row with a prior-flagged row, an iteration
    changes nothing and creates nothing. *)
Lemma transfer_one_again (user_id : string) (prior_id : Z) (db : database F)
    created k prior j custom_profile i user_profile i' learned :
  list_find (λ p, ProfilePrior.id p = prior_id) (profile_priors db)
  = Some (k, prior) →
  list_find (λ p, CustomProfile.id p = ProfilePrior.profile_id prior)
            (custom_profiles db) = Some (j, custom_profile) →
  list_find (λ u, UserProfile.user_id u = user_id
                  ∧ UserProfile.profile_id u = ProfilePrior.profile_id prior)
            (user_profiles db) = Some (i, user_profile) →
  list_find (λ l, LearnedParameters.user_profile_id l
                  = UserProfile.id user_profile
                  ∧ LearnedParameters.is_prior l = true)
            (learned_parameters db) = Some (i', learned) →
  transfer_one user_id (db, created) prior_id = Ok (db, created).
Proof.
  intros Hprior Hprofile Hup Hlp. unfold transfer_one. rewrite Hprior.
  unfold get_or_create_user_profile. rewrite Hprofile, Hup. simpl.
  by rewrite Hlp.
Qed.


(** What one iteration does to the tables. *)
Lemma transfer_one_Ok (user_id : string) (prior_id : Z) (db db1 : database F)
    created created1 :
  transfer_one user_id (db, created) prior_id = Ok (db1, created1) →
  custom_profiles db1 = custom_profiles db
  ∧ profile_priors db1 = profile_priors db
  ∧ ∃ added learned,
      user_profiles db1 = user_profiles db ++ added
      ∧ learned_parameters db1 = learned_parameters db ++ learned
      ∧ created1 = created ++ (LearnedParameters.id <$> learned)
      ∧ (added = []
         ∨ ∃ u, added = [u] ∧ UserProfile.user_id u = user_id
             ∧ user_profile_rows db user_id (UserProfile.profile_id u) = [])
      ∧ (learned = []
         ∨ ∃ l, learned = [l]
             ∧ prior_rows db (LearnedParameters.user_profile_id l) = []
             ∧ made_from_prior db1 user_id [prior_id] l).
Proof.
  unfold transfer_one.
  destruct (list_find _ (profile_priors db)) as [[k prior]|] eqn:Hprior.
  2:{ intros [= <- <-]. split; [done|]. split; [done|].
      exists [], []. simpl. rewrite !app_nil_r.
      repeat (split; [done|]). split; by left. }
  unfold get_or_create_user_profile.
  destruct (list_find _ (custom_profiles db)) as [[j cp]|] eqn:Hcp; [|done].
  apply list_find_Some in Hprior as (Hk & Hid & _).
  apply list_elem_of_lookup_2 in Hk.
  destruct (list_find _ (user_profiles db)) as [[i up]|] eqn:Hup; simpl.
  - apply list_find_Some in Hup as (Hi & [Hu Hp] & _).
    apply list_elem_of_lookup_2 in Hi.
    destruct (list_find _ (learned_parameters db)) as [[i' lp]|] eqn:Hlp.
    + intros [= <- <-]. split; [done|]. split; [done|].
      exists [], []. simpl. rewrite !app_nil_r.
      repeat (split; [done|]). split; by left.
    + destruct (dict_keys (ProfilePrior.means prior)) as [keys|e']; [|done].
      simpl. intros [= <- <-]. simpl. split; [done|]. split; [done|].
      eexists [], [_]. rewrite !app_nil_r. split; [done|]. split; [done|].
      split; [done|]. split; [by left|]. right. eexists. split; [done|].
      simpl. split; [by apply list_find_None_filter in Hlp|].
      split; [done|]. split; [done|]. exists prior, up. simpl.
      split; [done|]. split; [rewrite Hid; by left|]. done.
  - apply list_find_None_filter in Hup.
    destruct (list_find _ (learned_parameters db)) as [[i' lp]|] eqn:Hlp.
    + intros [= <- <-]. simpl. split; [done|]. split; [done|].
      eexists [_], []. rewrite !app_nil_r. split; [done|]. split; [done|].
      split; [done|]. split; [|by left]. right. eexists. split; [done|].
      simpl. done.
    + destruct (dict_keys (ProfilePrior.means prior)) as [keys|e']; [|done].
      simpl. intros [= <- <-]. simpl. split; [done|]. split; [done|].
      eexists [_], [_]. split; [done|]. split; [done|].
      split; [done|]. split.
      * right. eexists. split; [done|]. simpl. done.
      * right. eexists. split; [done|]. simpl.
        split; [by apply list_find_None_filter in Hlp|].
        split; [done|]. split; [done|]. eexists prior, _. simpl.
        split; [done|]. split; [rewrite Hid; by left|]. split; [done|].
        split; [apply elem_of_app; right; by left|]. done.
Qed.

Lemma made_from_prior_mono (db db1 : database F) user_id ids ids' l :
  profile_priors db1 = profile_priors db →
  user_profiles db ⊆ user_profiles db1 →
  ids ⊆ ids' →
  made_from_prior db user_id ids l → made_from_prior db1 user_id ids' l.
Proof.
  intros Hp Hu Hids (Hprior & Hcount & prior & up & H1 & H2 & H3 & H4 & H5).
  split; [done|]. split; [done|]. exists prior, up.
  rewrite Hp. split; [done|]. split; [by apply Hids|]. split; [done|].
  split; [by apply Hu|]. done.
Qed.

Lemma extended_by_refl user_id ids (db : database F) :
  extended_by user_id ids db db [].
Proof.
  split; [done|]. split; [done|]. rewrite app_nil_r. split; [done|].
  split; [constructor|]. exists []. by rewrite app_nil_r.
Qed.

Lemma extended_by_trans user_id ids ids' (db db1 db2 : database F) l1 l2 :
  extended_by user_id ids db db1 l1 →
  extended_by user_id ids' db1 db2 l2 →
  extended_by user_id (ids ++ ids') db db2 (l1 ++ l2).
Proof.
  intros (Hc1 & Hp1 & Hl1 & Hm1 & a1 & Hu1 & Ha1)
         (Hc2 & Hp2 & Hl2 & Hm2 & a2 & Hu2 & Ha2).
  split; [congruence|]. split; [congruence|].
  split; [by rewrite Hl2, Hl1, app_assoc|]. split.
  - apply Forall_app. split.
    + eapply Forall_impl; [exact Hm1|]. intros l.
      apply made_from_prior_mono; [done| |].
      * rewrite Hu2. intros x Hx. apply elem_of_app. by left.
      * intros x Hx. apply elem_of_app. by left.
    + eapply Forall_impl; [exact Hm2|]. intros l.
      apply made_from_prior_mono; [done|done|].
      intros x Hx. apply elem_of_app. by right.
  - exists (a1 ++ a2). split; [by rewrite Hu2, Hu1, app_assoc|].
    apply Forall_app. done.
Qed.

Lemma transfer_one_extended (user_id : string) (prior_id : Z)
    (db db1 : database F) created created1 :
  transfer_one user_id (db, created) prior_id = Ok (db1, created1) →
  ∃ learned,
    extended_by user_id [prior_id] db db1 learned
    ∧ created1 = created ++ (LearnedParameters.id <$> learned).
Proof.
  intros (Hc & Hp & added & learned & Hu & Hl & Hcr & Ha & Hlr)%transfer_one_Ok.
  exists learned. split; [|done].
  split; [done|]. split; [done|]. split; [done|]. split.
  - destruct Hlr as [->|(l & -> & _ & Hmade)]; [constructor|].
    constructor; [done|constructor].
  - exists added. split; [done|].
    destruct Ha as [->|(u & -> & Hu' & _)]; [constructor|].
    constructor; [done|constructor].
Qed.

(** The loop, as a whole. *)
Lemma transfer_loop_extended (user_id : string) (prior_ids : list Z)
    (db db1 : database F) created created1 :
  for_loop prior_ids (transfer_one user_id) (db, created)
  = Ok (db1, created1) →
  ∃ learned,
    extended_by user_id prior_ids db db1 learned
    ∧ created1 = created ++ (LearnedParameters.id <$> learned).
Proof.
  revert db created.
  induction prior_ids as [|prior_id prior_ids IH]; intros db created; simpl.
  - intros [= <- <-]. exists []. split; [apply extended_by_refl|].
    by rewrite app_nil_r.
  - intros ([db' created'] & Hone & Hrest)%bind_Ok.
    apply transfer_one_extended in Hone as (l1 & Hext1 & ->).
    apply IH in Hrest as (l2 & Hext2 & ->).
    exists (l1 ++ l2). split.
    + apply (extended_by_trans user_id [prior_id] prior_ids db db' db1);
        done.
    + by rewrite fmap_app, app_assoc.
Qed.

Lemma transfer_one_keeps_constraints (user_id : string) (prior_id : Z)
    (db db1 : database F) created created1 :
  unique_user_profile db ∧ single_prior db →
  transfer_one user_id (db, created) prior_id = Ok (db1, created1) →
  unique_user_profile db1 ∧ single_prior db1.
Proof.
  intros [Hunique Hsingle]
    (Hc & Hp & added & learned & Hu & Hl & Hcr & Ha & Hlr)%transfer_one_Ok.
  split.
  - intros u p. unfold user_profile_rows. rewrite Hu, filter_app, length_app.
    destruct Ha as [->|(up & -> & Hup & Hrows)].
    + rewrite filter_nil. simpl. specialize (Hunique u p).
      unfold user_profile_rows in Hunique. lia.
    + rewrite filter_cons. case_decide as Hmatch.
      * destruct Hmatch as [<- <-]. rewrite Hup.
        unfold user_profile_rows in Hrows. rewrite Hrows. simpl. lia.
      * rewrite filter_nil. simpl. specialize (Hunique u p).
        unfold user_profile_rows in Hunique. lia.
  - intros upid. unfold prior_rows. rewrite Hl, filter_app, length_app.
    destruct Hlr as [->|(lp & -> & Hrows & Hmade)].
    + rewrite filter_nil. simpl. specialize (Hsingle upid).
      unfold prior_rows in Hsingle. lia.
    + rewrite filter_cons. case_decide as Hmatch.
      * destruct Hmatch as [<- _].
        unfold prior_rows in Hrows. rewrite Hrows. simpl. lia.
      * rewrite filter_nil. simpl. specialize (Hsingle upid).
        unfold prior_rows in Hsingle. lia.
Qed.

Lemma transfer_loop_keeps_constraints (user_id : string) (prior_ids : list Z)
    (db db1 : database F) created created1 :
  unique_user_profile db → single_prior db →
  for_loop prior_ids (transfer_one user_id) (db, created)
  = Ok (db1, created1) →
  unique_user_profile db1 ∧ single_prior db1.
Proof.
  intros Hunique Hsingle Hloop.
  pose (I := λ s : database F * list Z,
               unique_user_profile s.1 ∧ single_prior s.1).
  change (I (db1, created1)).
  apply (for_loop_invariant I prior_ids (transfer_one user_id)
           (db, created)); [|by split|done].
  intros [d c] x [d' c'] _ Hinv Hone. unfold I in *. simpl in *.
  by eapply transfer_one_keeps_constraints.
Qed.

Lemma settled_transfer_one (user_id : string) (db : database F) prior_id
    created :
  settled user_id db prior_id →
  transfer_one user_id (db, created) prior_id = Ok (db, created).
Proof.
  intros [Hnone|(k & prior & j & cp & i & up & i' & lp & H1 & H2 & H3 & H4)].
  - unfold transfer_one. by rewrite Hnone.
  - by eapply transfer_one_again.
Qed.

Lemma transfer_one_settles (user_id : string) (prior_id : Z)
    (db db1 : database F) created created1 :
  transfer_one user_id (db, created) prior_id = Ok (db1, created1) →
  settled user_id db1 prior_id.
Proof.
  intros Hone.
  destruct (list_find (λ p, ProfilePrior.id p = prior_id) (profile_priors db))
    as [[k prior]|] eqn:Hprior.
  - destruct (list_find
                (λ p, CustomProfile.id p = ProfilePrior.profile_id prior)
                (custom_profiles db)) as [[j cp]|] eqn:Hcp.
    + destruct (transfer_one_Ok_spec user_id prior_id db db1 created created1
                  k prior j cp Hprior Hcp Hone)
        as (new & up & i & i' & lp & _ & Hc & Hp & Hup & Hlp & _).
      right. exists k, prior, j, cp, i, up, i', lp.
      rewrite Hc, Hp. done.
    + unfold transfer_one, get_or_create_user_profile in Hone.
      rewrite Hprior, Hcp in Hone. done.
  - unfold transfer_one in Hone. rewrite Hprior in Hone.
    injection Hone as <- _. by left.
Qed.

Lemma settled_extended (user_id : string) ids (db db1 : database F) learned
    prior_id :
  extended_by user_id ids db db1 learned →
  settled user_id db prior_id → settled user_id db1 prior_id.
Proof.
  intros (Hc & Hp & Hl & _ & added & Hu & _).
  intros [Hnone|(k & prior & j & cp & i & up & i' & lp & H1 & H2 & H3 & H4)].
  - left. by rewrite Hp.
  - right. exists k, prior, j, cp, i, up, i', lp.
    rewrite Hc, Hp, Hu, Hl. split; [done|]. split; [done|].
    split; by apply list_find_app_l.
Qed.

Lemma transfer_loop_settles (user_id : string) (prior_ids : list Z)
    (db db1 : database F) created created1 :
  for_loop prior_ids (transfer_one user_id) (db, created)
  = Ok (db1, created1) →
  Forall (settled user_id db1) prior_ids.
Proof.
  revert db created.
  induction prior_ids as [|prior_id prior_ids IH]; intros db created; simpl.
  - constructor.
  - intros ([db' created'] & Hone & Hrest)%bind_Ok.
    constructor; [|by eapply IH].
    apply transfer_one_settles in Hone.
    apply transfer_loop_extended in Hrest as (learned & Hext & _).
    by eapply settled_extended.
Qed.

Lemma settled_loop (user_id : string) (prior_ids : list Z) (db : database F)
    created :
  Forall (settled user_id db) prior_ids →
  for_loop prior_ids (transfer_one user_id) (db, created) = Ok (db, created).
Proof.
  induction 1 as [|prior_id prior_ids Hs _ IH]; cbn [for_loop]; [done|].
  by rewrite settled_transfer_one.
Qed.



End Script.

End TransferPriorsFacts.

(** ** The migration *)

Module MigrationFacts.
Import Migration.

Lemma backfill_has_parameters (r : row_before) :
  has_parameters r →
  (comprehension backfill
     [{| kept_between := kept_before r;
         parameters_between := parameters r;
         means_between := None;
         variances_between := None |}]
   ≫= comprehension tighten)
  = Ok [upgraded_row r].
Proof.
  intros (members & Hp & Hne). unfold upgraded_row. simpl.
  unfold backfill. simpl. rewrite Hp. simpl.
  destruct members as [|kv members]; [done|]. done.
Qed.

(** On rows with non-empty parameter maps the upgrade goes through, row by
    row. *)
Lemma upgrade_has_parameters (table : list row_before) :
  Forall has_parameters table →
  upgrade table = Ok (upgraded_row <$> table).
Proof.
  unfold upgrade. induction 1 as [|r table Hr Htable IH]; [done|].
  pose proof (backfill_has_parameters r Hr) as Hrow.
  simpl in *.
  destruct (backfill _) as [r'|e]; simpl in *; [|done].
  destruct (comprehension backfill _) as [rs|e]; simpl in *; [|done].
  destruct (tighten r') as [a|e]; simpl in *; [|done].
  injection Hrow as ->.
  destruct (comprehension tighten rs) as [rs'|e]; simpl in *; [|done].
  by injection IH as ->.
Qed.

Lemma downgrade_upgraded_row (table : list row_before) :
  Forall has_parameters table →
  downgrade (upgraded_row <$> table) = Ok table.
Proof.
  intros Htable. unfold downgrade. f_equal.
  rewrite <- list_fmap_compose. rewrite <- (list_fmap_id table) at 2.
  apply Forall_fmap_ext. eapply Forall_impl; [exact Htable|].
  intros [kept params] (members & Hp & _). simpl in *. by rewrite Hp.
Qed.

(** The downgrade reads nothing of the variances. *)
Lemma downgrade_ignores_variances (t1 t2 : list row_after) :
  Forall2 (λ a b, kept_after a = kept_after b ∧ means a = means b) t1 t2 →
  downgrade t1 = downgrade t2.
Proof.
  intros Hsame. unfold downgrade. f_equal.
  induction Hsame as [|a b t1 t2 [Hk Hm] _ IH]; [done|].
  rewrite !fmap_cons. by rewrite Hk, Hm, IH.
Qed.

Lemma upgrade_cons (r : row_before) (table : list row_before) t' :
  upgrade (r :: table) = Ok t' →
  ∃ a rest, t' = a :: rest
    ∧ (backfill {| kept_between := kept_before r;
                   parameters_between := parameters r;
                   means_between := None;
                   variances_between := None |} ≫= tighten) = Ok a
    ∧ upgrade table = Ok rest.
Proof.
  unfold upgrade. rewrite fmap_cons. cbn [comprehension].
  intros (migrated & Hm & Ht)%bind_Ok.
  apply bind_Ok in Hm as (b & Hb & Hm).
  apply bind_Ok in Hm as (bs & Hbs & [= <-]).
  cbn [comprehension] in Ht.
  apply bind_Ok in Ht as (a & Ha & Ht).
  apply bind_Ok in Ht as (rest & Hrest & [= <-]).
  exists a, rest. split; [done|]. rewrite Hb, Hbs. done.
Qed.

Lemma upgrade_row_Ok (r : row_before) a :
  (backfill {| kept_between := kept_before r;
               parameters_between := parameters r;
               means_between := None;
               variances_between := None |} ≫= tighten) = Ok a →
  has_parameters r.
Proof.
  unfold backfill, has_parameters. simpl.
  destruct (parameters r) as [doc|]; simpl; [|done].
  destruct doc as [| | | | | |members]; simpl; try done.
  destruct members as [|kv members]; simpl; [done|]. eauto.
Qed.

Lemma upgrade_Ok_has_parameters (table : list row_before) t' :
  upgrade table = Ok t' → Forall has_parameters table.
Proof.
  revert t'. induction table as [|r table IH]; intros t' Hup; [done|].
  apply upgrade_cons in Hup as (a & rest & _ & Ha & Hrest).
  constructor; [by eapply upgrade_row_Ok | by eapply IH].
Qed.

Lemma has_means_downgraded (r : row_after) :
  has_means r →
  has_parameters {| kept_before := kept_after r;
                    parameters := Some (means r) |}.
Proof.
  intros (members & Hm & Hne). exists members. simpl. by rewrite Hm.
Qed.

End MigrationFacts.

(** ** Exact real arithmetic *)

Module RealArithFacts.
Import Services ServicesFacts RealArith.

Lemma fle_R (x y : R) : fle x y ↔ (x <= y)%R.
Proof.
  unfold fle. simpl. destruct (Rle_dec x y); split; intros; try done.
Qed.

Lemma atan_nonneg (x : R) : (0 <= x)%R → (0 <= atan x)%R.
Proof.
  intros [Hlt| <-].
  - left. rewrite <- atan_0. by apply atan_increasing.
  - rewrite atan_0. lra.
Qed.

Lemma atan2_nonneg (y x : R) : (0 <= y)%R → (0 <= x)%R → (0 <= atan2 y x)%R.
Proof.
  intros Hy Hx. unfold atan2. pose proof PI_RGT_0 as Hpi.
  destruct (Rlt_dec 0 x) as [Hpos|_].
  - apply atan_nonneg. apply Rmult_le_pos; [done|].
    left. by apply Rinv_0_lt_compat.
  - destruct (Rlt_dec x 0) as [?|_]; [lra|].
    destruct (Rlt_dec 0 y) as [_|_]; [lra|].
    destruct (Rlt_dec y 0) as [?|_]; lra.
Qed.

Lemma atan2_le_half_pi (y x : R) :
  (0 <= y)%R → (0 <= x)%R → (atan2 y x <= PI / 2)%R.
Proof.
  intros Hy Hx. unfold atan2. pose proof PI_RGT_0 as Hpi.
  destruct (Rlt_dec 0 x) as [Hpos|_].
  - left. apply atan_bound.
  - destruct (Rlt_dec x 0) as [?|_]; [lra|].
    destruct (Rlt_dec 0 y) as [_|_]; [lra|].
    destruct (Rlt_dec y 0) as [?|_]; lra.
Qed.

Lemma sin_half_sq (x : R) : (sin (x / 2) * sin (x / 2) = (1 - cos x) / 2)%R.
Proof.
  replace x with (2 * (x / 2))%R at 3 by lra.
  rewrite cos_2a_sin. lra.
Qed.

Lemma cos_half_sq (x : R) : (cos (x / 2) * cos (x / 2) = (1 + cos x) / 2)%R.
Proof.
  replace x with (2 * (x / 2))%R at 3 by lra.
  rewrite cos_2a_cos. lra.
Qed.

Lemma haversine_argument (u v w : R) :
  (0 <= sin ((v - u) / 2) * sin ((v - u) / 2)
        + cos u * cos v * (sin w * sin w) <= 1)%R.
Proof.
  assert (sin ((v - u) / 2) * sin ((v - u) / 2)
          + cos u * cos v * (sin w * sin w)
          = (1 - sin w * sin w) * (sin ((v - u) / 2) * sin ((v - u) / 2))
            + (sin w * sin w) * (cos ((u + v) / 2) * cos ((u + v) / 2)))%R
    as ->.
  { rewrite sin_half_sq, cos_half_sq, cos_minus, cos_plus. lra. }
  pose proof (sin2_cos2 w) as Hw. unfold Rsqr in Hw.
  pose proof (sin2_cos2 ((v - u) / 2)) as H1. unfold Rsqr in H1.
  pose proof (sin2_cos2 ((u + v) / 2)) as H2. unfold Rsqr in H2.
  nra.
Qed.

(** In exact arithmetic the quantity [a] of [haversine_distance] lies in
    [0, 1]: neither [math.sqrt(a)] nor [math.sqrt(1 - a)] is asked for the
    root of a negative number. *)
Lemma haversine_domain (lat1 lon1 lat2 lon2 : R) :
  (0 <= haversine_a lat1 lon1 lat2 lon2 <= 1)%R.
Proof.
  unfold haversine_a.
  replace ((lat2 - lat1) * (PI / 180) / 2)%R
    with ((lat2 * (PI / 180) - lat1 * (PI / 180)) / 2)%R by lra.
  apply haversine_argument.
Qed.

(** So [haversine_distance] returns for every pair of points, and returns
    the distance of the formula. *)
Lemma haversine_distance_R (lat1 lon1 lat2 lon2 : R) :
  haversine_distance lat1 lon1 lat2 lon2
  = Ok (haversine_R lat1 lon1 lat2 lon2).
Proof.
  pose proof (haversine_domain lat1 lon1 lat2 lon2) as [Ha0 Ha1].
  unfold haversine_distance, radians, fsquare. simpl.
  fold (haversine_a lat1 lon1 lat2 lon2).
  destruct (Rle_dec 0 (haversine_a lat1 lon1 lat2 lon2)) as [_|Hn]; [|lra].
  simpl.
  destruct (Rle_dec 0 (1 - haversine_a lat1 lon1 lat2 lon2)) as [_|Hn];
    [|lra].
  done.
Qed.

Lemma haversine_R_range (lat1 lon1 lat2 lon2 : R) :
  (0 <= haversine_R lat1 lon1 lat2 lon2 <= PI * 6371000)%R.
Proof.
  unfold haversine_R.
  pose proof (atan2_nonneg _ _ (sqrt_pos (haversine_a lat1 lon1 lat2 lon2))
                (sqrt_pos (1 - haversine_a lat1 lon1 lat2 lon2))) as H0.
  pose proof (atan2_le_half_pi _ _
                (sqrt_pos (haversine_a lat1 lon1 lat2 lon2))
                (sqrt_pos (1 - haversine_a lat1 lon1 lat2 lon2))) as H1.
  lra.
Qed.

Lemma sin_sq_opp (x y : R) : (y = - x)%R → (sin y * sin y = sin x * sin x)%R.
Proof. intros ->. rewrite sin_neg. lra. Qed.

Lemma haversine_a_sym (lat1 lon1 lat2 lon2 : R) :
  haversine_a lat1 lon1 lat2 lon2 = haversine_a lat2 lon2 lat1 lon1.
Proof.
  unfold haversine_a.
  rewrite (sin_sq_opp ((lat2 - lat1) * (PI / 180) / 2)
                      ((lat1 - lat2) * (PI / 180) / 2)) by lra.
  rewrite (sin_sq_opp ((lon2 - lon1) * (PI / 180) / 2)
                      ((lon1 - lon2) * (PI / 180) / 2)) by lra.
  lra.
Qed.

Lemma haversine_R_sym (lat1 lon1 lat2 lon2 : R) :
  haversine_R lat1 lon1 lat2 lon2 = haversine_R lat2 lon2 lat1 lon1.
Proof. unfold haversine_R. by rewrite haversine_a_sym. Qed.

(** A point is at distance zero from itself. *)
Lemma haversine_R_same_point (lat lon : R) : haversine_R lat lon lat lon = 0%R.
Proof.
  unfold haversine_R, haversine_a.
  replace (lat - lat)%R with 0%R by lra.
  replace (lon - lon)%R with 0%R by lra.
  replace (0 * (PI / 180) / 2)%R with 0%R by lra.
  rewrite sin_0. replace (0 * 0 + _ * _ * (0 * 0))%R with 0%R by lra.
  rewrite sqrt_0, Rminus_0_r, sqrt_1. unfold atan2.
  destruct (Rlt_dec 0 1) as [_|?]; [|lra].
  replace (0 / 1)%R with 0%R by lra. rewrite atan_0. lra.
Qed.



Section Distances.

Lemma leg_R (p q : list R) :
  leg p q = Ok (haversine_R (lat_of p) (lon_of p) (lat_of q) (lon_of q)).
Proof. apply haversine_distance_R. Qed.

(** In exact arithmetic the function returns on every list of coordinates
    that each hold a longitude and a latitude, and its entries do not
    decrease. *)
Lemma calculate_cumulative_distances_R (coordinates : list (list R)) :
  well_formed coordinates →
  ∃ ds, calculate_cumulative_distances coordinates = Ok ds
    ∧ non_decreasing ds.
Proof.
  intros Hwf.
  destruct (decide (length coordinates = 0)%nat) as [Hnil|Hne].
  { rewrite calculate_cumulative_distances_short by lia.
    exists [f0]. split; [done|]. intros [|i] x y; simpl; intros; simplify_eq. }
  pose proof (calculate_cumulative_distances_sum coordinates Hwf ltac:(lia))
    as Hsum.
  destruct (proj2 (haversine_sum_Ok_iff coordinates)) as [t Ht].
  { intros i p q _ _. rewrite leg_R. eauto. }
  rewrite Ht in Hsum. destruct Hsum as (ds & Hds & Hlen & _ & Hentries).
  exists ds. split; [done|].
  apply entries_increments in Hentries.
  intros i x y Hx Hy.
  destruct (lookup_lt_is_Some_2 coordinates i) as [p Hp].
  { apply lookup_lt_Some in Hx. lia. }
  destruct (lookup_lt_is_Some_2 coordinates (S i)) as [q Hq].
  { apply lookup_lt_Some in Hy. lia. }
  destruct (Hentries i p q x y Hp Hq Hx Hy) as (d & Hd & ->).
  rewrite leg_R in Hd. injection Hd as <-.
  apply fle_R. simpl.
  pose proof (haversine_R_range (lat_of p) (lon_of p) (lat_of q) (lon_of q)).
  lra.
Qed.
End Distances.

End RealArithFacts.

(** ** The concrete inputs *)

Module ExamplesFacts.
Import Services ServicesFacts RealArith RealArithFacts Examples.

Lemma three_frontend_well_formed : well_formed three_frontend.
Proof. repeat constructor. Qed.

Lemma three_distances_Ok :
  calculate_cumulative_distances three_frontend = Ok three_distances.
Proof.
  destruct (calculate_cumulative_distances_R three_frontend
              three_frontend_well_formed) as (ds & Hds & _).
  unfold three_distances. by rewrite Hds.
Qed.

Lemma three_distances_length : length three_distances = 3%nat.
Proof.
  pose proof (calculate_cumulative_distances_length _ _ three_distances_Ok).
  done.
Qed.

Lemma three_segments_Ok :
  merge_detail_segments three_frontend (Some surface_details) three_distances
  = Ok three_segments.
Proof.
  destruct (merge_detail_segments_spec three_frontend (Some surface_details)
              three_distances) as (segs & Hsegs & _).
  - simpl. lia.
  - rewrite three_distances_length. simpl. lia.
  - unfold three_segments. by rewrite Hsegs.
Qed.





End ExamplesFacts.

(** ** Binary64 arithmetic *)

Module Binary64Facts.
Import Stdlib.Floats.Floats.
Import Services ServicesFacts Binary64 FloatExamples.

(** With the sine and the cosine of a C library that rounds to the nearest
    double at these three arguments, the cumulative distances of the two
    points raise: the sum [sin^2 + cos * cos * sin^2] is rounded to
    1.0000000000000002, and [1 - a] is negative. *)
Lemma antipodal_points_raise (m : libm) :
  libm_sin m (-0x1.1df46a2529d39p-3)%float = (-0x1.1d06c968d9e19p-3)%float →
  libm_cos m 0x1.1df46a2529d39p-3%float = 0x1.fb046a930947ap-1%float →
  libm_cos m (-0x1.1df46a2529d39p-3)%float = 0x1.fb046a930947ap-1%float →
  libm_sin m 0x1.921fb54442d18p+0%float = 1%float →
  @calculate_cumulative_distances float (ops m) antipodal_points
  = Raise (ValueError "math domain error").
Proof.
  intros Hs1 Hc1 Hc2 Hs2. destruct m as [s c a].
  simpl in Hs1, Hc1, Hc2, Hs2.
  vm_compute. rewrite Hs1, Hc1, Hc2, Hs2. vm_compute. reflexivity.
Qed.

(** The quantities on the way: the radians of 8 degrees, the value of [a]
    and of [1 - a]. *)
Lemma antipodal_points_quantities :
  let s := (-0x1.1d06c968d9e19p-3)%float in
  let c := 0x1.fb046a930947ap-1%float in
  (float_of_Z 8 * (pi / float_of_Z 180) = 0x1.1df46a2529d39p-3)%float
  ∧ (float_of_Z (-8 - 8) * (pi / float_of_Z 180) / float_of_Z 2
     = -0x1.1df46a2529d39p-3)%float
  ∧ (float_of_Z (180 - 0) * (pi / float_of_Z 180) / float_of_Z 2
     = 0x1.921fb54442d18p+0)%float
  ∧ (s * s + c * c * (1 * 1) = 0x1.0000000000001p+0)%float
  ∧ (1 - (s * s + c * c * (1 * 1)) = -0x1p-52)%float.
Proof. repeat split. Qed.

End Binary64Facts.

(* ================================================================== *)
(** * Part III: the claims                                             *)
(* ================================================================== *)

Module Claims.
Import Services ServicesFacts RealArith RealArithFacts Examples.
Import ExamplesFacts.
Import RoutesFacts MigrationFacts AddPriorConfigFacts TransferPriorsFacts.

(** C1: for every coordinate list of length n >= 2 and every details map
    (the empty and the absent one included), the segments that
    [merge_detail_segments] returns partition the index range [0, n-1]: they
    come in increasing order, the first starts at 0, the last ends at n-1,
    each ends where the next starts, and the start and end distances of each
    are the entries of the cumulative-distance sequence at its start and end
    index. *)
Theorem C1_merge_detail_segments_partition {F : Type} `{FloatOps F}
    (coordinates : list (list F))
    (details_data : option (list (string * list (Z * Z * json F))))
    (ds : list F) :
  (2 ≤ length coordinates)%nat →
  calculate_cumulative_distances coordinates = Ok ds →
  ∃ segs,
    merge_detail_segments coordinates details_data ds = Ok segs
    ∧ start_index <$> head segs = Some 0
    ∧ end_index <$> last segs = Some (len coordinates - 1)
    ∧ (∀ seg, seg ∈ segs → 0 ≤ start_index seg < end_index seg)
    ∧ (∀ (i : nat) seg seg',
         segs !! i = Some seg → segs !! S i = Some seg' →
         end_index seg = start_index seg')
    ∧ (∀ seg, seg ∈ segs →
         ds !! Z.to_nat (start_index seg) = Some (start_distance seg)
         ∧ ds !! Z.to_nat (end_index seg) = Some (end_distance seg)).
Proof.
  intros Hn Hds. apply merge_detail_segments_spec; [done|].
  apply calculate_cumulative_distances_length in Hds. lia.
Qed.

Lemma C1_merge_detail_segments_partition_witness :
  ∃ segs,
    merge_detail_segments three_frontend (Some surface_details)
      three_distances = Ok segs
    ∧ start_index <$> head segs = Some 0
    ∧ end_index <$> last segs = Some (len three_frontend - 1)
    ∧ (∀ seg, seg ∈ segs → 0 ≤ start_index seg < end_index seg)
    ∧ (∀ (i : nat) seg seg',
         segs !! i = Some seg → segs !! S i = Some seg' →
         end_index seg = start_index seg')
    ∧ (∀ seg, seg ∈ segs →
         three_distances !! Z.to_nat (start_index seg)
         = Some (start_distance seg)
         ∧ three_distances !! Z.to_nat (end_index seg)
           = Some (end_distance seg)).
Proof.
  apply (C1_merge_detail_segments_partition three_frontend
           (Some surface_details) three_distances).
  - simpl. lia.
  - exact three_distances_Ok.
Defined.



(** C3, at a configuration that passes every check: the file is valid, the
    profile exists, the parameter names are those of the profile and there
    is no prior for the pair (profile id, version); [insert_prior_config]
    then raises at the [ProfilePrior] constructor, which has no [parameters]
    attribute, the table stays as it was, and the command prints an error
    and exits with status 1. *)
Theorem C3_insert_prior_config_stops_at_constructor :
  AddPriorConfig.validate_prior_config valid_config = Ok ()
  ∧ list_find (λ p, Db.CustomProfile.id p = 1)
              (Db.custom_profiles db_without_priors)
    = Some (0%nat, gravel_profile)
  ∧ (list_to_set (Db.CustomProfile.parameters gravel_profile) : gset string)
    = list_to_set valid_parameters.*1
  ∧ Db.profile_priors db_without_priors = []
  ∧ AddPriorConfig.insert_prior_config (Some (Ok valid_config))
      db_without_priors
    = (Raise (TypeError
                "'parameters' is an invalid keyword argument for ProfilePrior"),
       db_without_priors)
  ∧ AddPriorConfig.main_insert (Some (Ok valid_config)) db_without_priors
    = (["Error: 'parameters' is an invalid keyword argument for ProfilePrior"],
       1, db_without_priors).
Proof.
  assert (AddPriorConfig.validate_prior_config valid_config = Ok ())
    as Hvalid.
  { unfold AddPriorConfig.validate_prior_config, valid_config. simpl.
    unfold AddPriorConfig.validate_parameters, valid_parameters. simpl.
    destruct (Rle_dec (3 / 2) 0) as [Hle|_]; [lra|]. reflexivity. }
  assert (AddPriorConfig.insert_body db_without_priors
            (match valid_config with JObj m => m | _ => [] end)
          = Raise (TypeError
              "'parameters' is an invalid keyword argument for ProfilePrior"))
    as Hbody.
  { apply (insert_body_invalid_keyword db_without_priors _ 0%nat
             gravel_profile); reflexivity. }
  split; [done|]. split; [reflexivity|]. split; [reflexivity|].
  split; [reflexivity|].
  assert (AddPriorConfig.insert_prior_config (Some (Ok valid_config))
            db_without_priors
          = (Raise (TypeError
               "'parameters' is an invalid keyword argument for ProfilePrior"),
             db_without_priors)) as Hinsert.
  { unfold AddPriorConfig.insert_prior_config.
    change (truthy valid_config) with true. simpl negb. cbv iota.
    rewrite Hvalid, Hbody. reflexivity. }
  split; [done|].
  unfold AddPriorConfig.main_insert. rewrite Hinsert. reflexivity.
Qed.



(** C4 as stated fails in floating point.  For the point 8 degrees north at
    longitude 0 and the point 8 degrees south at longitude 180, as doubles,
    the value of [a] is rounded to 1.0000000000000002, so that
    [math.sqrt(1 - a)] is asked for the root of a negative number:
    [haversine_distance] raises [ValueError], and so does
    [calculate_cumulative_distances], which returns no sequence for this
    list of two coordinates. *)
Lemma C4_antipodal_points_raise :
  @calculate_cumulative_distances PrimFloat.float
    (Binary64.ops FloatExamples.libm_at_eight_degrees)
    FloatExamples.antipodal_points
  = Raise (ValueError "math domain error").
Proof. apply Binary64Facts.antipodal_points_raise; reflexivity. Qed.

(** C5, as the code has it: in the detail-segment merge, for every atomic
    range and detail list, when the first triple whose clamped interval
    covers the range carries [None], the empty string, ["missing"], ["null"]
    or ["undefined"], the assigned value is ["unknown"]; when it carries
    another value, that value is assigned; and when no triple covers the
    range, the assigned value is ["unknown"]. *)
Theorem C5_value_for_segment_unknown {F : Type} `{FloatOps F} (n_coords : Z)
    (detail_list : list (Z * Z * json F)) (s e : Z) :
  (∀ pre a b v post,
     detail_list = pre ++ (a, b, v) :: post →
     Forall (λ t : Z * Z * json F, ¬ covers n_coords t.1.1 t.1.2 s e) pre →
     covers n_coords a b s e →
     (v ∈ missing_values →
      value_for_segment n_coords detail_list s e = JStr "unknown")
     ∧ (v ∉ missing_values →
        value_for_segment n_coords detail_list s e = v))
  ∧ (Forall (λ t : Z * Z * json F, ¬ covers n_coords t.1.1 t.1.2 s e)
       detail_list →
     value_for_segment n_coords detail_list s e = JStr "unknown").
Proof.
  split.
  - intros pre a b v post -> Hpre Hcov.
    rewrite (value_for_segment_first _ _ _ _ _ _ _ _ Hpre Hcov).
    destruct (is_missing v) eqn:Hv.
    + split; [done|]. intros Hnot. by apply is_missing_spec in Hv.
    + split; [|done]. intros Hin%is_missing_spec. congruence.
  - apply value_for_segment_none.
Qed.

(** C5 as stated fails: a covering triple that carries the literal string
    ["absent"] keeps it. *)
Lemma C5_absent_string_is_kept :
  covers 2 0 1 0 1
  ∧ value_for_segment (F := R) 2 [(0, 1, JStr "absent")] 0 1 = JStr "absent"
  ∧ JStr "absent" ≠ (JStr "unknown" : json R).
Proof. split; [unfold covers, clamp; lia|]. split; done. Qed.






(** C7 as stated fails: when the means of the prior are a JSON array, the
    flush is followed by the read of [prior.means.keys()], which raises; the
    session is rolled back, so that each of the two runs fails and leaves no
    user-profile row for the user and the profile. *)
Lemma C7_means_that_are_no_object :
  TransferPriors.transfer_prior_to_learned_params has_uuid_length some_user
    [5] db_with_array_means
  = (Raise (AttributeError "'list' object has no attribute 'keys'"),
     db_with_array_means)
  ∧ TransferPriors.user_profile_rows db_with_array_means some_user 1 = [].
Proof. split; reflexivity. Qed.

(** Nor is there at most one prior-flagged row afterwards when the user
    profile had two before: the transfer finds one of them, skips, and
    leaves both. *)
Lemma C7_two_prior_rows_stay :
  TransferPriors.transfer_prior_to_learned_params has_uuid_length some_user
    [5] db_with_two_prior_rows
  = (Ok [], db_with_two_prior_rows)
  ∧ length (TransferPriors.prior_rows db_with_two_prior_rows 1) = 2%nat.
Proof. split; reflexivity. Qed.

(** C8, as the code has it: for every starting state of the Prior table in
    which every row has a non-null and non-empty parameters map, the upgrade
    succeeds, copies the parameters of each row into its means and gives its
    variances the keys of the parameters, each with the value 0.01; the
    downgrade then yields the original table, parameters column included,
    row for row; and the downgrade reads nothing of the variances, which are
    gone with their column. *)
Theorem C8_upgrade_then_downgrade (table : list Migration.row_before) :
  Forall Migration.has_parameters table →
  ∃ upgraded,
    Migration.upgrade table = Ok upgraded
    ∧ Forall2
        (λ before after,
           Migration.kept_after after = Migration.kept_before before
           ∧ Some (Migration.means after) = Migration.parameters before
           ∧ ∃ members variances,
               Migration.parameters before = Some (JObj members)
               ∧ Migration.variances after = JObj variances
               ∧ variances.*1 = members.*1
               ∧ Forall (λ kv, kv.2 = JFloat (QArith_base.Qmake 1 100))
                        variances)
        table upgraded
    ∧ Migration.downgrade upgraded = Ok table
    ∧ ∀ other,
        Forall2 (λ a b, Migration.kept_after a = Migration.kept_after b
                        ∧ Migration.means a = Migration.means b)
                other upgraded →
        Migration.downgrade other = Ok table.
Proof.
  intros Htable. exists (Migration.upgraded_row <$> table).
  split; [by apply upgrade_has_parameters|].
  split; [|split].
  - apply Forall2_fmap_r, Forall_Forall2_diag.
    eapply Forall_impl; [exact Htable|].
    intros r (members & Hp & Hne). unfold Migration.upgraded_row.
    simpl. rewrite Hp. simpl. split; [done|]. split; [done|].
    exists members, (Migration.default_variances members).
    split; [done|]. split; [done|]. split.
    + unfold Migration.default_variances.
      rewrite <- list_fmap_compose. done.
    + unfold Migration.default_variances. rewrite Forall_fmap.
      by apply Forall_true.
  - by apply downgrade_upgraded_row.
  - intros other Hother.
    rewrite (downgrade_ignores_variances _ _ Hother).
    by apply downgrade_upgraded_row.
Qed.

Lemma C8_upgrade_then_downgrade_witness :
  ∃ upgraded,
    Migration.upgrade [prior_row_before] = Ok upgraded
    ∧ Forall2
        (λ before after,
           Migration.kept_after after = Migration.kept_before before
           ∧ Some (Migration.means after) = Migration.parameters before
           ∧ ∃ members variances,
               Migration.parameters before = Some (JObj members)
               ∧ Migration.variances after = JObj variances
               ∧ variances.*1 = members.*1
               ∧ Forall (λ kv, kv.2 = JFloat (QArith_base.Qmake 1 100))
                        variances)
        [prior_row_before] upgraded
    ∧ Migration.downgrade upgraded = Ok [prior_row_before]
    ∧ ∀ other,
        Forall2 (λ a b, Migration.kept_after a = Migration.kept_after b
                        ∧ Migration.means a = Migration.means b)
                other upgraded →
        Migration.downgrade other = Ok [prior_row_before].
Proof.
  apply (C8_upgrade_then_downgrade [prior_row_before]).
  repeat constructor. eexists. split; [reflexivity|]. discriminate.
Defined.

(** C8 as stated fails: a row whose parameters map is the empty object has
    a non-null parameters map, and the upgrade stops on it, at the not-null
    constraint of [variances]. *)
Lemma C8_empty_parameters_stop_the_upgrade :
  Migration.parameters empty_parameters_row = Some (JObj [])
  ∧ Migration.upgrade [empty_parameters_row]
    = Raise (IntegrityError "column variances contains null values").
Proof. split; reflexivity. Qed.

(** C9: [calculate_cumulative_distances] applied to the empty coordinate
    list returns the one-element sequence [[0.0]]; so a successful response
    whose path carries no coordinate has one coordinate distance for no
    coordinate, and for a non-empty coordinate list the two lengths are
    equal. *)
Theorem C9_distances_of_no_coordinates {F : Type} `{FloatOps F}
    (post : Engine F) (start end_ : F * F) (profile : string)
    (custom_model : option (json F)) (config : GraphHopperConfig F)
    (include_elevation : bool) (details : option (list string))
    (r : RouteResponse F) :
  execute_route_request post start end_ profile custom_model config
    include_elevation details = Ok r →
  success r = true →
  calculate_cumulative_distances ([] : list (list F)) = Ok [f0]
  ∧ ∃ ds, coordinate_distances (geometry r) = Some ds
      ∧ (coordinates (geometry r) = [] → length ds = 1%nat)
      ∧ (coordinates (geometry r) ≠ [] →
         length ds = length (coordinates (geometry r))).
Proof.
  intros Hr Hs. split; [done|].
  apply execute_route_request_handled in Hr as [Hr|[Hf _]]; [|congruence].
  destruct (route_request_body_geometry _ _ _ _ _ _ _ _ _ Hr Hs)
    as (cs & Hg).
  apply build_geometry_Ok in Hg as (items & ds & _ & _ & _ & Hds & Hcalc & _).
  apply calculate_cumulative_distances_length in Hcalc.
  exists ds. split; [done|]. split.
  - intros Hnil. rewrite Hnil in Hcalc. done.
  - intros Hne. destruct (coordinates (geometry r)); [done|].
    simpl in *. lia.
Qed.

Lemma C9_distances_of_no_coordinates_witness :
  calculate_cumulative_distances ([] : list (list R)) = Ok [f0]
  ∧ ∃ ds, coordinate_distances (geometry empty_path_response) = Some ds
      ∧ (coordinates (geometry empty_path_response) = [] →
         length ds = 1%nat)
      ∧ (coordinates (geometry empty_path_response) ≠ [] →
         length ds = length (coordinates (geometry empty_path_response))).
Proof.
  apply (C9_distances_of_no_coordinates empty_path_engine (47, 8)%R (48, 9)%R
           "bike" None config true None empty_path_response).
  - reflexivity.
  - reflexivity.
Defined.

(** The response to an engine path without coordinates: no coordinate, one
    distance. *)
Lemma empty_path_response_lengths :
  success empty_path_response = true
  ∧ coordinates (geometry empty_path_response) = []
  ∧ coordinate_distances (geometry empty_path_response) = Some [f0].
Proof. repeat split. Qed.

(** C10: the route handler invokes the custom-model builder only when both
    [custom_profile_id] and [parameters] are truthy.  A request without a
    custom profile id, with the id 0, without parameters or with an empty
    parameter map is processed as a plain request: the builder is not
    called, the handler answers with the response of the plain request and
    not with the 400 error, and the payload of that request carries neither
    [custom_model] nor [ch.disable]. *)
Theorem C10_plain_request_without_custom_model {F : Type} `{FloatOps F}
    (generate_profile : Z → list (string * json F) → result (json F))
    (post : Engine F) (request : Routes.RouteRequest F)
    (config : GraphHopperConfig F) :
  Routes.custom_profile_id request = None
  ∨ Routes.custom_profile_id request = Some 0
  ∨ Routes.parameters request = None
  ∨ Routes.parameters request = Some [] →
  let handled := Routes.get_route generate_profile post request config in
  let start := (Routes.lat (Routes.start request),
                Routes.lon (Routes.start request)) in
  let end_ := (Routes.lat (Routes.end_ request),
               Routes.lon (Routes.end_ request)) in
  let profile :=
    Routes.profile_or_default (Routes.req_profile request) config in
  let details :=
    Some (Routes.details_or_default (Routes.details request)) in
  let payload :=
    build_payload start end_ profile None (Routes.include_elevation request)
      details in
  Routes.builder_calls handled = []
  ∧ (∃ r, Routes.result_of handled = Routes.Respond r
        ∧ execute_route_request post start end_ profile None config
            (Routes.include_elevation request) details = Ok r)
  ∧ assoc "custom_model" payload = None
  ∧ assoc "ch.disable" payload = None
  ∧ (∀ post' : Engine F,
       post' (rstrip_slash (base_url config) +:+ "/route") payload
             (timeout config)
       = post (rstrip_slash (base_url config) +:+ "/route") payload
              (timeout config) →
       Routes.result_of
         (Routes.get_route generate_profile post' request config)
       = Routes.result_of handled).
Proof.
  intros Hplain%wants_custom_model_false. simpl.
  unfold Routes.get_route. rewrite Hplain. simpl.
  split; [done|]. split; [|split; [|split]].
  - unfold Routes.route_with.
    destruct (execute_route_request_total post
                (Routes.lat (Routes.start request),
                 Routes.lon (Routes.start request))
                (Routes.lat (Routes.end_ request),
                 Routes.lon (Routes.end_ request))
                (Routes.profile_or_default (Routes.req_profile request) config)
                None config (Routes.include_elevation request)
                (Some (Routes.details_or_default (Routes.details request))))
      as [r Hr].
    rewrite Hr. eauto.
  - apply build_payload_plain.
  - apply build_payload_plain.
  - intros post' Hsame. unfold Routes.route_with.
    by rewrite (execute_route_request_one_post post post' _ _ _ _ _ _ _ Hsame).
Qed.

Lemma C10_plain_request_without_custom_model_witness :
  let request := request_without_parameters in
  let post := empty_path_engine in
  let handled := Routes.get_route rejecting_builder post request config in
  let start := (Routes.lat (Routes.start request),
                Routes.lon (Routes.start request)) in
  let end_ := (Routes.lat (Routes.end_ request),
               Routes.lon (Routes.end_ request)) in
  let profile :=
    Routes.profile_or_default (Routes.req_profile request) config in
  let details :=
    Some (Routes.details_or_default (Routes.details request)) in
  let payload :=
    build_payload start end_ profile None (Routes.include_elevation request)
      details in
  Routes.builder_calls handled = []
  ∧ (∃ r, Routes.result_of handled = Routes.Respond r
        ∧ execute_route_request post start end_ profile None config
            (Routes.include_elevation request) details = Ok r)
  ∧ assoc "custom_model" payload = None
  ∧ assoc "ch.disable" payload = None
  ∧ (∀ post' : Engine R,
       post' (rstrip_slash (base_url config) +:+ "/route") payload
             (timeout config)
       = post (rstrip_slash (base_url config) +:+ "/route") payload
              (timeout config) →
       Routes.result_of
         (Routes.get_route rejecting_builder post' request config)
       = Routes.result_of handled).
Proof.
  apply (C10_plain_request_without_custom_model rejecting_builder
           empty_path_engine request_without_parameters config).
  right. right. left. reflexivity.
Defined.

(** When both are truthy the builder is called, once, with the id and the
    parameters of the request, and its failure is the 400 answer. *)
Lemma get_route_calls_builder {F : Type} `{FloatOps F}
    (generate_profile : Z → list (string * json F) → result (json F))
    (post : Engine F) (request : Routes.RouteRequest F)
    (config : GraphHopperConfig F) id p ps :
  Routes.custom_profile_id request = Some id → id ≠ 0 →
  Routes.parameters request = Some (p :: ps) →
  Routes.builder_calls (Routes.get_route generate_profile post request config)
  = [(id, p :: ps)]
  ∧ ∀ e, generate_profile id (p :: ps) = Raise e →
      Routes.result_of (Routes.get_route generate_profile post request config)
      = Routes.HTTPException 400 ("Custom profile error: " +:+ exn_str e).
Proof.
  intros Hid Hne Hps. unfold Routes.get_route, Routes.wants_custom_model.
  rewrite Hid, Hps. destruct (Z.eqb_spec id 0); [done|]. simpl.
  unfold get_custom_model.
  destruct (generate_profile id (p :: ps)) as [m|e]; simpl; split; try done.
  by intros e' [= ->].
Qed.

End Claims.

(* ================================================================== *)
(** * Part IV: further properties of the code                          *)
(* ================================================================== *)

(** ** services.py: distances and the merge *)

Module FurtherServices.
Import Services ServicesFacts RealArith RealArithFacts Examples.
Import ExamplesFacts.




(** X3: in exact real arithmetic, [haversine_distance] returns for every
    pair of points; it is symmetric in its two points, lies between 0 and
    half the circumference of the sphere (pi times 6371000 metres), and is 0
    from a point to itself. *)
Theorem haversine_distance_exact (lat1 lon1 lat2 lon2 : R) :
  ∃ d,
    Services.haversine_distance lat1 lon1 lat2 lon2 = Ok d
    ∧ Services.haversine_distance lat2 lon2 lat1 lon1 = Ok d
    ∧ (0 <= d <= PI * 6371000)%R
    ∧ Services.haversine_distance lat1 lon1 lat1 lon1 = Ok 0%R.
Proof.
  exists (haversine_R lat1 lon1 lat2 lon2).
  split; [apply haversine_distance_R|].
  split; [rewrite haversine_R_sym; apply haversine_distance_R|].
  split; [apply haversine_R_range|].
  rewrite haversine_distance_R. f_equal. apply haversine_R_same_point.
Qed.

(** X4: the segments of the merge are atomic.  With at least two coordinates
    and a distance per coordinate, the clamped range of a detail triple
    covers a returned segment entirely, or it does not reach into it: it
    ends at or before the start of the segment, or starts at or after its
    end.  No boundary of a detail falls strictly inside a segment. *)
Theorem merge_detail_segments_atomic {F : Type} `{FloatOps F}
    (coordinates : list (list F))
    (details_data : option (list (string * list (Z * Z * json F))))
    (coordinate_distances : list F) segs :
  (2 ≤ length coordinates)%nat →
  (length coordinates ≤ length coordinate_distances)%nat →
  merge_detail_segments coordinates details_data coordinate_distances
  = Ok segs →
  ∀ seg name dl a b v,
    seg ∈ segs → (name, dl) ∈ default [] details_data → (a, b, v) ∈ dl →
    let n := len coordinates in
    covers n a b (start_index seg) (end_index seg)
    ∨ clamp n b ≤ start_index seg
    ∨ end_index seg ≤ clamp n a.
Proof.
  intros Hn Hds Hsegs seg name dl a b v Hseg Hdl Ht n.
  rewrite merge_detail_segments_eq in Hsegs by done.
  injection Hsegs as <-.
  apply list_elem_of_fmap in Hseg as [[s e] [-> Hse]]. simpl.
  destruct (collect_cuts_elem n _ name dl a b v Hdl Ht) as [Ha Hb].
  destruct (consecutive_sorted_gap _ s e _ Hse Ha) as [Ha'|Ha'];
    destruct (consecutive_sorted_gap _ s e _ Hse Hb) as [Hb'|Hb'];
    unfold covers; fold n; lia.
Qed.

Lemma merge_detail_segments_atomic_witness :
  merge_detail_segments three_frontend (Some surface_details) three_distances
  = Ok three_segments
  ∧ ∀ seg name dl a b v,
      seg ∈ three_segments → (name, dl) ∈ surface_details → (a, b, v) ∈ dl →
      covers 3 a b (start_index seg) (end_index seg)
      ∨ clamp 3 b ≤ start_index seg
      ∨ end_index seg ≤ clamp 3 a.
Proof.
  split; [exact three_segments_Ok|].
  apply (merge_detail_segments_atomic three_frontend (Some surface_details)
           three_distances three_segments).
  - simpl. lia.
  - rewrite three_distances_length. simpl. lia.
  - exact three_segments_Ok.
Defined.

(** X5: with at least two coordinates and a distance per coordinate, every
    returned segment has one attribute per detail name, in the order of the
    details; a helper property of the segment ([surface], [smoothness], ...)
    is [None] exactly when no detail of that name was delivered; and an
    attribute value is never one of the missing values: it is ["unknown"],
    or the value of a triple of that detail whose clamped range covers the
    segment. *)
Theorem merge_detail_segments_attributes {F : Type} `{FloatOps F}
    (coordinates : list (list F))
    (details_data : option (list (string * list (Z * Z * json F))))
    (coordinate_distances : list F) segs :
  (2 ≤ length coordinates)%nat →
  (length coordinates ≤ length coordinate_distances)%nat →
  merge_detail_segments coordinates details_data coordinate_distances
  = Ok segs →
  ∀ seg, seg ∈ segs →
    let n := len coordinates in
    let details := default [] details_data in
    fst <$> attributes seg = fst <$> details
    ∧ (∀ name, attribute name seg = None ↔ name ∉ details.*1)
    ∧ (∀ name v, attribute name seg = Some v →
         (v ∉ missing_values)
         ∧ (v = JStr "unknown"
            ∨ ∃ dl a b, assoc name details = Some dl ∧ (a, b, v) ∈ dl
                ∧ covers n a b (start_index seg) (end_index seg))).
Proof.
  intros Hn Hds Hsegs seg Hseg n details.
  rewrite merge_detail_segments_eq in Hsegs by done.
  injection Hsegs as <-.
  apply list_elem_of_fmap in Hseg as [[s e] [-> Hse]].
  unfold attribute. simpl. fold n details. split; [|split].
  - rewrite <- list_fmap_compose. done.
  - intros name.
    rewrite (assoc_fmap_value (λ dl, value_for_segment n dl s e)).
    rewrite <- assoc_None_keys. by destruct (assoc name details).
  - intros name v.
    rewrite (assoc_fmap_value (λ dl, value_for_segment n dl s e)).
    destruct (assoc name details) as [dl|] eqn:Hdl; [|done].
    simpl. intros [= <-]. split; [apply value_for_segment_not_missing|].
    destruct (value_for_segment_sound n dl s e) as [Hu|(a & b & Hin & Hc & _)];
      [by left|right].
    exists dl, a, b. done.
Qed.

Lemma merge_detail_segments_attributes_witness :
  merge_detail_segments three_frontend (Some surface_details) three_distances
  = Ok three_segments
  ∧ ∀ seg, seg ∈ three_segments →
      fst <$> attributes seg = fst <$> surface_details
      ∧ (∀ name, attribute name seg = None ↔ name ∉ surface_details.*1)
      ∧ (∀ name v, attribute name seg = Some v →
           (v ∉ missing_values)
           ∧ (v = JStr "unknown"
              ∨ ∃ dl a b, assoc name surface_details = Some dl
                  ∧ (a, b, v) ∈ dl
                  ∧ covers 3 a b (start_index seg) (end_index seg))).
Proof.
  split; [exact three_segments_Ok|].
  apply (merge_detail_segments_attributes three_frontend
           (Some surface_details) three_distances three_segments).
  - simpl. lia.
  - rewrite three_distances_length. simpl. lia.
  - exact three_segments_Ok.
Defined.

(** X6: fewer than two coordinates give no segment, whatever the details and
    the distances; [n >= 2] coordinates with a distance per coordinate give
    at least one segment and at most [n - 1]. *)
Theorem merge_detail_segments_count {F : Type} `{FloatOps F}
    (coordinates : list (list F))
    (details_data : option (list (string * list (Z * Z * json F))))
    (coordinate_distances : list F) :
  ((length coordinates < 2)%nat →
   merge_detail_segments coordinates details_data coordinate_distances
   = Ok [])
  ∧ ((2 ≤ length coordinates)%nat →
     (length coordinates ≤ length coordinate_distances)%nat →
     ∃ segs,
       merge_detail_segments coordinates details_data coordinate_distances
       = Ok segs
       ∧ (1 ≤ length segs ≤ length coordinates - 1)%nat).
Proof.
  split.
  - intros Hn. unfold merge_detail_segments.
    destruct (Z.ltb_spec (len coordinates) 2) as [_|Hge]; [done|].
    unfold len in Hge. lia.
  - intros Hn Hds. rewrite merge_detail_segments_eq by done.
    eexists. split; [done|].
    rewrite length_fmap, length_consecutive.
    assert (2 ≤ len coordinates) as Hn2 by (unfold len; lia).
    assert (1 ≤ len coordinates) as Hn1 by lia.
    pose proof (collect_cuts_ok (len coordinates) (default [] details_data)
                  Hn1) as Hok.
    pose proof (sorted_cuts_length _ _ Hn2 Hok) as Hlen.
    replace (Z.to_nat (len coordinates)) with (length coordinates) in Hlen
      by (unfold len; lia).
    lia.
Qed.

(** X7: when no detail list holds a triple (the details are absent or empty,
    or every list is empty), the merge of [n >= 2] coordinates returns the
    one segment from index 0 to index [n - 1], with the first and the last
    distance, and with the value ["unknown"] for every detail name. *)
Theorem merge_detail_segments_no_triple {F : Type} `{FloatOps F}
    (coordinates : list (list F))
    (details_data : option (list (string * list (Z * Z * json F))))
    (coordinate_distances : list F) :
  (2 ≤ length coordinates)%nat →
  (length coordinates ≤ length coordinate_distances)%nat →
  Forall (λ item : string * list (Z * Z * json F), item.2 = [])
         (default [] details_data) →
  ∃ d0 d1,
    coordinate_distances !! 0%nat = Some d0
    ∧ coordinate_distances !! (length coordinates - 1)%nat = Some d1
    ∧ merge_detail_segments coordinates details_data coordinate_distances
      = Ok [{| start_index := 0;
               end_index := len coordinates - 1;
               start_distance := d0;
               end_distance := d1;
               attributes :=
                 (λ item, (item.1, JStr "unknown"))
                   <$> default [] details_data |}].
Proof.
  intros Hn Hds Hempty.
  destruct (lookup_lt_is_Some_2 coordinate_distances 0) as [d0 Hd0]; [lia|].
  destruct (lookup_lt_is_Some_2 coordinate_distances
              (length coordinates - 1)) as [d1 Hd1]; [lia|].
  exists d0, d1. split; [done|]. split; [done|].
  rewrite merge_detail_segments_eq by done. simpl.
  rewrite collect_cuts_no_triple by done.
  rewrite sorted_ends by (unfold len; lia).
  unfold consecutive, segment_of. simpl.
  replace (Z.to_nat 0) with 0%nat by lia. rewrite Hd0.
  replace (Z.to_nat (len coordinates - 1))
    with (length coordinates - 1)%nat by (unfold len; lia).
  rewrite Hd1. simpl. do 3 f_equal.
  apply Forall_fmap_ext. eapply Forall_impl; [exact Hempty|].
  intros [name dl]. simpl. by intros ->.
Qed.

Lemma merge_detail_segments_no_triple_witness :
  ∃ d0 d1,
    three_distances !! 0%nat = Some d0
    ∧ three_distances !! (length three_frontend - 1)%nat = Some d1
    ∧ merge_detail_segments three_frontend (Some empty_details)
        three_distances
      = Ok [{| start_index := 0;
               end_index := len three_frontend - 1;
               start_distance := d0;
               end_distance := d1;
               attributes :=
                 (λ item, (item.1, JStr "unknown"))
                   <$> default [] (Some empty_details) |}].
Proof.
  apply (merge_detail_segments_no_triple three_frontend (Some empty_details)
           three_distances).
  - simpl. lia.
  - rewrite three_distances_length. simpl. lia.
  - repeat constructor.
Defined.

End FurtherServices.

(** ** services.py and routers/routes.py: the request *)

Module FurtherRequest.
Import Services ServicesFacts Routes RoutesFacts RealArith Examples.
Import ExamplesFacts.

(** X8: [rstrip('/')] takes the trailing slashes off the base URL and nothing
    else (what it removes consists of slashes, what it leaves does not end
    in one), so that a base URL with one more slash at its end makes
    [execute_route_request] send the same request and return the same
    response. *)
Theorem execute_route_request_trailing_slash {F : Type} `{FloatOps F}
    (post : Engine F) (start end_ : F * F) (profile : string)
    (custom_model : option (json F)) (url : string) (timeout : F)
    (default_profile : string) (include_elevation : bool)
    (details : option (list string)) :
  (∃ t, url = rstrip_slash url +:+ t
     ∧ Forall (λ c, c = "/"%char) (list_ascii_of_string t)
     ∧ last (list_ascii_of_string (rstrip_slash url)) ≠ Some "/"%char)
  ∧ execute_route_request post start end_ profile custom_model
      {| base_url := url +:+ "/"; Services.timeout := timeout;
         Services.default_profile := default_profile |}
      include_elevation details
    = execute_route_request post start end_ profile custom_model
        {| base_url := url; Services.timeout := timeout;
           Services.default_profile := default_profile |}
        include_elevation details.
Proof.
  split; [apply rstrip_slash_spec|].
  unfold execute_route_request, route_request_body. simpl.
  by rewrite rstrip_slash_snoc.
Qed.

(** X9: the texts of the failure paths of [execute_route_request].  When the
    call to the engine raises, the failure response carries
    ["Connection failed: "] and the text of the exception if that is a
    [RequestException], and ["Unexpected error: "] and the text otherwise;
    an answer with another status than 200 that is not declared as JSON
    gives ["HTTP "] and the status; a 200 answer whose body has no [paths],
    or a falsy one, gives ["No route found"]; a 200 answer whose body
    cannot be read is handled like a call that raises. *)
Theorem execute_route_request_failure_texts {F : Type} `{FloatOps F}
    (post : Engine F) (start end_ : F * F) (profile : string)
    (custom_model : option (json F)) (config : GraphHopperConfig F)
    (include_elevation : bool) (details : option (list string)) :
  let answer :=
    post (rstrip_slash (base_url config) +:+ "/route")
         (build_payload start end_ profile custom_model include_elevation
                        details)
         (timeout config) in
  let failure text :=
    execute_route_request post start end_ profile custom_model config
      include_elevation details
    = Ok (failure_response profile (Some text)) in
  (∀ e, answer = Raise e →
     failure ((if is_request_exception e then "Connection failed: "
               else "Unexpected error: ") +:+ exn_str e))
  ∧ (∀ response, answer = Ok response →
       status_code response ≠ 200 →
       content_type response ≠ Some "application/json" →
       failure ("HTTP " +:+ pretty (status_code response)))
  ∧ (∀ response m, answer = Ok response →
       status_code response = 200 →
       json_body response = Ok (JObj m) →
       truthy (default JNull (assoc "paths" m)) = false →
       failure "No route found")
  ∧ (∀ response e, answer = Ok response →
       status_code response = 200 →
       json_body response = Raise e →
       failure ((if is_request_exception e then "Connection failed: "
                 else "Unexpected error: ") +:+ exn_str e)).
Proof.
  intros answer failure. unfold failure, execute_route_request,
    route_request_body. fold answer.
  split; [|split; [|split]].
  - intros e ->. simpl. by destruct (is_request_exception e).
  - intros response -> Hstatus Hct. simpl.
    destruct (Z.eqb_spec (status_code response) 200) as [?|_]; [done|].
    simpl. by rewrite bool_decide_false.
  - intros response m -> Hstatus Hbody Hpaths. simpl.
    rewrite Hstatus, Hbody. simpl. by rewrite Hpaths.
  - intros response e -> Hstatus Hbody. simpl.
    rewrite Hstatus, Hbody. simpl. by destruct (is_request_exception e).
Qed.



(** X11: the handler never ends with an exception of its own.  It answers
    with a response body, or with status 400 and the detail
    ["Custom profile error: "] followed by the text of the exception; the
    latter only when the request names a custom profile other than 0 with
    non-empty parameters and the builder raises, and then no request reaches
    the engine: the result is the same for every engine. *)
Theorem get_route_outcome {F : Type} `{FloatOps F}
    (generate_profile : Z → list (string * json F) → result (json F))
    (post : Engine F) (request : RouteRequest F)
    (config : GraphHopperConfig F) :
  let handled := get_route generate_profile post request config in
  (∃ r, result_of handled = Respond r)
  ∨ (∃ id p ps e,
       custom_profile_id request = Some id ∧ id ≠ 0
       ∧ parameters request = Some (p :: ps)
       ∧ generate_profile id (p :: ps) = Raise e
       ∧ result_of handled
         = HTTPException 400 ("Custom profile error: " +:+ exn_str e)
       ∧ ∀ post' : Engine F,
           get_route generate_profile post' request config = handled).
Proof.
  simpl. unfold get_route, wants_custom_model, get_custom_model.
  destruct (custom_profile_id request) as [id|] eqn:Hid;
    [|left; apply route_with_responds].
  destruct (parameters request) as [[|p ps]|] eqn:Hps;
    [left; apply route_with_responds| |left; apply route_with_responds].
  destruct (Z.eqb_spec id 0) as [->|Hne]; simpl;
    [left; apply route_with_responds|].
  destruct (generate_profile id (p :: ps)) as [m|e] eqn:Hm; simpl.
  - left. apply route_with_responds.
  - right. exists id, p, ps, e. done.
Qed.

(** X12: what the handler sends to the engine.  There is one payload such
    that the result of the handler depends on the engine only through its
    answer to that payload at [<base_url>/route].  Its points are the pairs
    [longitude, latitude] of the start and of the end; its profile is the
    requested one, or the default of the configuration when none or the
    empty one is requested; it asks for unencoded points and passes the
    elevation flag on; it always asks for details: the requested names, or
    [surface] and [smoothness] when none are requested; it carries
    [custom_model] exactly when the builder was called and returned a truthy
    model, and [ch.disable = true] exactly together with it. *)
Theorem get_route_payload {F : Type} `{FloatOps F}
    (generate_profile : Z → list (string * json F) → result (json F))
    (post : Engine F) (request : RouteRequest F)
    (config : GraphHopperConfig F) :
  ∃ payload,
    (∀ post' : Engine F,
       post' (rstrip_slash (base_url config) +:+ "/route") payload
             (timeout config)
       = post (rstrip_slash (base_url config) +:+ "/route") payload
              (timeout config) →
       get_route generate_profile post' request config
       = get_route generate_profile post request config)
    ∧ assoc "points" payload
      = Some (JArr [JArr [JFloat (lon (start request));
                          JFloat (lat (start request))];
                    JArr [JFloat (lon (end_ request));
                          JFloat (lat (end_ request))]])
    ∧ assoc "profile" payload
      = Some (JStr (match req_profile request with
                    | Some p => if String.eqb p "" then default_profile config
                                else p
                    | None => default_profile config
                    end))
    ∧ assoc "elevation" payload = Some (JBool (include_elevation request))
    ∧ assoc "points_encoded" payload = Some (JBool false)
    ∧ (∃ d ds, assoc "details" payload = Some (JArr (JStr <$> d :: ds))
         ∧ (d :: ds = default [] (details request)
            ∨ (d :: ds = ["surface"; "smoothness"]
               ∧ (details request = None ∨ details request = Some []))))
    ∧ (∀ m, assoc "custom_model" payload = Some m ↔
         ∃ id p ps, custom_profile_id request = Some id ∧ id ≠ 0
           ∧ parameters request = Some (p :: ps)
           ∧ generate_profile id (p :: ps) = Ok m ∧ truthy m = true)
    ∧ (assoc "ch.disable" payload
       = (λ _, JBool true) <$> assoc "custom_model" payload).
Proof.
  set (custom_model :=
         if wants_custom_model request then
           match generate_profile (default 0 (custom_profile_id request))
                   (default [] (parameters request)) with
           | Ok m => Some m
           | Raise _ => None
           end
         else None).
  destruct (details_or_default_cons (details request))
    as (d & ds & Hdetails & Hwhich).
  exists (build_payload (lat (start request), lon (start request))
            (lat (end_ request), lon (end_ request))
            (profile_or_default (req_profile request) config)
            custom_model (include_elevation request) (Some (d :: ds))).
  destruct (build_payload_fields
              (lat (start request), lon (start request))
              (lat (end_ request), lon (end_ request))
              (profile_or_default (req_profile request) config)
              custom_model (include_elevation request) d ds)
    as (Hpoints & Hprofile & Helevation & Hencoded & Hdet & Hcm & Hch).
  split; [|split; [done|]; split; [done|]; split; [done|]; split; [done|];
           split; [eauto|]; split].
  - intros post' Hsame. unfold get_route, get_custom_model.
    unfold custom_model in Hsame.
    destruct (wants_custom_model request); simpl.
    + destruct (generate_profile _ _) as [m|e]; [|done].
      f_equal. unfold route_with. rewrite Hdetails.
      by rewrite (execute_route_request_one_post post' post).
    + f_equal. unfold route_with. rewrite Hdetails.
      by rewrite (execute_route_request_one_post post' post).
  - intros m. rewrite Hcm. unfold custom_model, wants_custom_model.
    destruct (custom_profile_id request) as [id|]; simpl;
      [|split; [done|]; by intros (? & ? & ? & [= ?] & _)].
    destruct (parameters request) as [[|p ps]|]; simpl;
      [split; [done|]; by intros (? & ? & ? & _ & _ & [= ?] & _)|
      |split; [done|]; by intros (? & ? & ? & _ & _ & [= ?] & _)].
    destruct (Z.eqb_spec id 0) as [->|Hne]; simpl.
    { split; [done|]. by intros (? & ? & ? & [= <-] & ? & _). }
    destruct (generate_profile id (p :: ps)) as [m'|e] eqn:Hgp; simpl.
    + destruct (truthy m') eqn:Hm'; simpl.
      * split.
        -- intros [= ->]. exists id, p, ps. done.
        -- intros (? & ? & ? & [= <-] & _ & [= <- <-] & Hgp' & _).
           congruence.
      * split; [done|].
        intros (? & ? & ? & [= <-] & _ & [= <- <-] & Hgp' & Ht).
        congruence.
    + split; [done|].
      intros (? & ? & ? & [= <-] & _ & [= <- <-] & Hgp' & Ht). congruence.
  - rewrite Hch, Hcm. destruct (custom_model_given custom_model) eqn:Hg;
      [|done].
    destruct custom_model; [done|]. done.
Qed.

End FurtherRequest.

(** ** The scripts *)

Module FurtherScripts.
Import Db AddPriorConfig AddPriorConfigFacts.
Import AddCustomProfile AddCustomProfileFacts.
Import TransferPriors TransferPriorsFacts.
Import RealArith Examples.

(** X13: [validate_prior_config] accepts exactly the mappings that hold an
    integer [custom_profile_id], an integer [version] of at least 1, and a
    non-empty mapping [parameters] in which every name is not blank and every
    value is a positive number; it rejects every other mapping with
    [ValueError]. *)
Theorem validate_prior_config_accepts {F : Type} `{FloatOps F}
    (config : json F) :
  (validate_prior_config config = Ok () ↔ valid_prior_config config)
  ∧ (∀ e, validate_prior_config config = Raise e →
       match config with
       | JObj _ => ∃ msg, e = ValueError msg
       | _ => True
       end).
Proof.
  split; [apply validate_prior_config_Ok|].
  intros e. destruct config as [| | | | | |m]; try done. simpl.
  destruct (filter _ required_fields); [|intros [= <-]; eauto].
  destruct (negb _); [intros [= <-]; eauto|].
  destruct (_ || _); [intros [= <-]; eauto|].
  destruct (default JNull (assoc "parameters" m)) as [| | | | | |ps];
    try (intros [= <-]; eauto).
  destruct ps as [|p ps]; [intros [= <-]; eauto|].
  generalize (p :: ps). clear. intros ps.
  induction ps as [|[name value] ps IH]; simpl; [done|].
  destruct (is_blank name); [intros [= <-]; eauto|].
  destruct (negb _); [intros [= <-]; eauto|].
  destruct (not_positive value); [intros [= <-]; eauto|]. done.
Qed.

(** X14: the version that [get_next_prior_version] proposes is larger than
    the version of every prior of the profile, and is 1 when the profile has
    no prior; likewise [get_next_version] for the profiles of a
    discipline. *)
Theorem next_version_is_new {F : Type}
    (db : database F) (profile_id : Z)
    (profiles : list (DisciplineType * Z)) (discipline : DisciplineType) :
  (∀ prior, prior ∈ profile_priors db →
     ProfilePrior.profile_id prior = profile_id →
     ProfilePrior.version prior < get_next_prior_version db profile_id)
  ∧ ((∀ prior, prior ∈ profile_priors db →
        ProfilePrior.profile_id prior ≠ profile_id) →
     get_next_prior_version db profile_id = 1)
  ∧ (∀ version, (discipline, version) ∈ profiles →
       version < get_next_version profiles discipline)
  ∧ ((∀ version, (discipline, version) ∉ profiles) →
     get_next_version profiles discipline = 1).
Proof.
  split; [|split; [|split]].
  - intros prior Hin Hid. unfold get_next_prior_version.
    apply next_after_spec. apply list_elem_of_fmap. exists prior.
    split; [done|]. by apply list_elem_of_filter.
  - intros Hnone. unfold get_next_prior_version.
    apply next_after_spec.
    destruct (filter _ (profile_priors db)) as [|p l] eqn:Hf; [done|].
    assert (p ∈ filter (λ p, ProfilePrior.profile_id p = profile_id)
                       (profile_priors db)) as Hp by (rewrite Hf; by left).
    apply list_elem_of_filter in Hp as [Hid Hp]. by apply Hnone in Hp.
  - intros version Hin. unfold get_next_version.
    apply next_after_spec. apply list_elem_of_fmap. exists (discipline, version).
    split; [done|]. by apply list_elem_of_filter.
  - intros Hnone. unfold get_next_version. apply next_after_spec.
    destruct (filter _ profiles) as [|[d v] l] eqn:Hf; [done|].
    assert ((d, v) ∈ filter (λ p : DisciplineType * Z, p.1 = discipline)
                            profiles) as Hp by (rewrite Hf; by left).
    apply list_elem_of_filter in Hp as [Hid Hp]. simpl in Hid. subst d.
    by apply Hnone in Hp.
Qed.

(** X15: what [--create] writes passes the checks of [--insert].  In an
    arithmetic in which [1.0 <= 0] is false, on a database whose parameter
    names are not blank and whose prior versions are not negative, the
    document that [generate_prior_config] writes is not empty, is accepted by
    [validate_prior_config], names a profile that exists, has exactly the
    parameter names of that profile, and has a version that no prior of the
    profile has yet. *)
Theorem generated_config_is_accepted {F : Type} `{FloatOps F}
    (db : database F) (custom_profile_id : Z) (g : generated F) :
  fleb (of_Z 1) f0 = false →
  (∀ profile, profile ∈ custom_profiles db →
     Forall (λ name, is_blank name = false) (CustomProfile.parameters profile)) →
  (∀ prior, prior ∈ profile_priors db → 0 ≤ ProfilePrior.version prior) →
  generate_prior_config custom_profile_id false db = Ok g →
  truthy (document g) = true
  ∧ validate_prior_config (document g) = Ok ()
  ∧ passes_insert_checks db (document g).
Proof.
  intros Hone Hnames Hversions. unfold generate_prior_config.
  destruct (list_find _ (custom_profiles db)) as [[i profile]|] eqn:Hprofile;
    [|done].
  destruct (CustomProfile.parameters profile) as [|p0 params0] eqn:Hparams;
    [done|].
  rewrite <- Hparams. intros [= <-]. cbn [document].
  set (ps := dict_comprehension (λ _, JFloat (of_Z 1))
               (sorted_names (CustomProfile.parameters profile))).
  assert ((list_to_set ps.*1 : gset string)
          = list_to_set (CustomProfile.parameters profile)) as Hkeys.
  { unfold ps. by rewrite dict_comprehension_keys, sorted_names_set. }
  assert (ps ≠ []) as Hne.
  { intros Hnil. rewrite Hnil, Hparams in Hkeys. simpl in Hkeys.
    assert (p0 ∈ (∅ : gset string)) as Hin.
    { rewrite Hkeys. apply elem_of_union_l. by apply elem_of_singleton. }
    by apply elem_of_empty in Hin. }
  pose proof Hprofile as (Hi & _)%list_find_Some.
  apply list_elem_of_lookup_2 in Hi.
  split; [done|]. split.
  - apply validate_prior_config_Ok.
    eexists _, (JInt custom_profile_id),
      (JInt (get_next_prior_version db custom_profile_id)), ps.
    split; [done|]. simpl. do 4 (split; [done|]). split.
    { unfold get_next_prior_version. apply next_after_spec.
      apply Forall_fmap, Forall_forall. intros prior [_ Hin]%list_elem_of_filter.
      by apply Hversions. }
    split; [done|]. split; [done|].
    apply dict_comprehension_Forall.
    apply Forall_forall. intros name Hname.
    apply (proj1 (elem_of_sorted_names _ _)) in Hname. simpl.
    split; [|done].
    specialize (Hnames profile Hi). rewrite Forall_forall in Hnames.
    by apply Hnames.
  - eexists _, ps, i, profile. split; [done|]. simpl.
    split; [done|]. split; [done|]. split; [done|].
    apply list_find_None, Forall_forall. intros prior Hin [Hid Hv].
    assert (ProfilePrior.version prior
            < get_next_prior_version db custom_profile_id) as Hnew.
    { unfold get_next_prior_version. apply next_after_spec.
      apply list_elem_of_fmap. exists prior.
      split; [done|]. by apply list_elem_of_filter. }
    lia.
Qed.

Lemma generated_config_is_accepted_witness :
  truthy (document generated_for_gravel) = true
  ∧ AddPriorConfig.validate_prior_config (document generated_for_gravel)
    = Ok ()
  ∧ passes_insert_checks db_with_prior (document generated_for_gravel).
Proof.
  apply (generated_config_is_accepted db_with_prior 1 generated_for_gravel).
  - simpl. destruct (Rle_dec 1 0) as [Hle|_]; [lra|done].
  - intros profile [->|Hin%elem_of_nil]%elem_of_cons; [|done].
    repeat constructor.
  - intros prior [->|Hin%elem_of_nil]%elem_of_cons; [|done]. simpl. lia.
  - reflexivity.
Defined.

(** X16: [extract_parameters_from_template] returns exactly the parameter
    names (a lower-case letter, then lower-case letters, digits and
    underscores) that stand between braces somewhere in the template, each
    of them once, in strictly increasing order. *)
Theorem extract_parameters_from_template_spec (template : string) :
  (∀ name, name ∈ extract_parameters_from_template template ↔
     is_parameter_name name ∧ has_placeholder template name)
  ∧ NoDup (extract_parameters_from_template template)
  ∧ ∀ (i : nat) a b,
      extract_parameters_from_template template !! i = Some a →
      extract_parameters_from_template template !! S i = Some b →
      String.ltb a b = true.
Proof.
  split; [|split].
  - intros name. by rewrite elem_of_extract_parameters, elem_of_findall.
  - apply extract_parameters_sorted.
  - destruct (extract_parameters_sorted template) as [Hsorted Hnodup].
    revert Hsorted Hnodup.
    generalize (extract_parameters_from_template template). intros l.
    induction 1 as [|x l Hl IH Hhd]; intros Hnodup i a b Ha Hb; [done|].
    apply NoDup_cons in Hnodup as [Hx Hnodup].
    destruct i as [|i]; simpl in *.
    + injection Ha as <-. destruct l as [|y l]; [done|].
      injection Hb as <-. apply HdRel_inv in Hhd.
      apply not_elem_of_cons in Hx as [Hne _].
      unfold String.ltb. unfold String.leb in Hhd.
      destruct (String.compare x y) eqn:Hcmp; [|done|done].
      by apply String.compare_eq_iff in Hcmp.
    + by eapply IH.
Qed.



(** X18: the transfer keeps the constraints.  If the database has at most one
    profile row per user and custom profile ([unique_user_profile]) and at
    most one prior-flagged row of learned parameters per user profile, then
    so has the database after the call, whatever the list of prior ids and
    however the call ends. *)
Theorem transfer_keeps_constraints {F : Type} (uuid_parses : string → bool)
    (user_id : string) (prior_ids : list Z) (db : database F) :
  unique_user_profile db →
  single_prior db →
  let db1 :=
    (transfer_prior_to_learned_params uuid_parses user_id prior_ids db).2 in
  unique_user_profile db1 ∧ single_prior db1.
Proof.
  intros Hunique Hsingle. simpl.
  unfold transfer_prior_to_learned_params.
  destruct (validate_uuid uuid_parses user_id); [|done].
  destruct prior_ids as [|p ps]; [done|].
  destruct (for_loop (p :: ps) (transfer_one user_id) (db, []))
    as [[db1 created]|e] eqn:Hloop.
  - simpl. by eapply transfer_loop_keeps_constraints.
  - by destruct e.
Qed.

Lemma transfer_keeps_constraints_witness :
  unique_user_profile db_after_transfer ∧ single_prior db_after_transfer.
Proof.
  apply (transfer_keeps_constraints has_uuid_length some_user [5]
           db_with_prior).
  - intros u p. simpl. lia.
  - intros upid. simpl. lia.
Defined.

(** X19: the transfer is idempotent for every list of prior ids.  If a call
    returns, the same call on the database that it left creates no row,
    returns the empty list and leaves the database as it is. *)
Theorem transfer_again_creates_nothing {F : Type}
    (uuid_parses : string → bool)
    (user_id : string) (prior_ids : list Z) (db db1 : database F) created :
  transfer_prior_to_learned_params uuid_parses user_id prior_ids db
  = (Ok created, db1) →
  transfer_prior_to_learned_params uuid_parses user_id prior_ids db1
  = (Ok [], db1).
Proof.
  unfold transfer_prior_to_learned_params.
  destruct (validate_uuid uuid_parses user_id); [|done].
  destruct prior_ids as [|p ps]; [done|].
  destruct (for_loop (p :: ps) (transfer_one user_id) (db, []))
    as [[db' created']|e] eqn:Hloop; [|by destruct e].
  intros [= <- <-].
  apply transfer_loop_settles in Hloop.
  by rewrite (settled_loop user_id (p :: ps) db' [] Hloop).
Qed.

Lemma transfer_again_creates_nothing_witness :
  TransferPriors.transfer_prior_to_learned_params has_uuid_length some_user
    [5] db_after_transfer
  = (Ok [], db_after_transfer).
Proof.
  apply (transfer_again_creates_nothing has_uuid_length some_user [5]
           db_with_prior db_after_transfer created_by_transfer).
  reflexivity.
Defined.



End FurtherScripts.

(** ** The migration *)

Module FurtherMigration.
Import Migration MigrationFacts Examples.

(** X21: the upgrade goes through exactly when the parameters of every row
    are a non-empty JSON object: a [NULL], a value that is not an object or
    an empty object in any row makes it fail. *)
Theorem upgrade_succeeds_iff (table : list row_before) :
  (∃ migrated, upgrade table = Ok migrated) ↔ Forall has_parameters table.
Proof.
  split.
  - intros [migrated Hup]. by eapply upgrade_Ok_has_parameters.
  - intros Hall. rewrite upgrade_has_parameters by done. eauto.
Qed.

(** X22: a downgrade followed by a new upgrade.  When the means of every row
    are a non-empty object, the downgrade returns, and the upgrade of its
    result returns the rows with their kept columns and their means, and
    with the variances reset to 0.01 for every key: variances that were
    learned are lost. *)
Theorem downgrade_then_upgrade (table : list row_after) :
  Forall has_means table →
  ∃ before, downgrade table = Ok before
    ∧ upgrade before = Ok (reset_row <$> table).
Proof.
  intros Hall. eexists. split; [done|].
  rewrite upgrade_has_parameters.
  - f_equal. rewrite <- list_fmap_compose. done.
  - apply Forall_fmap. eapply Forall_impl; [exact Hall|].
    intros r Hr. by apply has_means_downgraded.
Qed.

Lemma downgrade_then_upgrade_witness :
  ∃ before, Migration.downgrade [prior_row_after] = Ok before
    ∧ Migration.upgrade before = Ok (reset_row <$> [prior_row_after]).
Proof.
  apply (downgrade_then_upgrade [prior_row_after]).
  repeat constructor. eexists. split; [reflexivity|done].
Defined.

End FurtherMigration.
